(** * WebGPU demo gallery: pipeline construction and the double-buffered loop

    A shallow embedding of the JavaScript sources under [prokop/]:
    the shader introspection and pipeline factory of
    [common/webgpu-utils.js], the flocking demo [computeBoids.js] (with its
    hard-coded sibling) and the cellular-automaton demo that seeds one of
    its two cell buffers.

    Conventions of the embedding:
    - a JavaScript string is the list of its UTF-16 code units ([list N]);
    - [null]/[undefined] results are [None];
    - a [throw] is the [Throw] branch of [result], one constructor of [exn]
      per [throw] site of the sources;
    - object identity (what a [WeakMap] is keyed by) is a [positive];
    - counters and sizes are JavaScript numbers holding non-negative
      integers; they are [N] here (such numbers are exact below 2^53), and
      what is parsed from a text of any length is rounded as binary64
      rounds it ([round64]). *)

From Stdlib Require Import NArith ZArith List String Ascii Bool Lia Sorted Permutation.
From stdpp Require Import base option list gmap.
Import ListNotations.
Local Open Scope N_scope.

(** ** JavaScript strings and values *)

Module JS.

Abbreviation jsstring := (list N).

(** Code unit of an ASCII character, and the code units of a literal. *)
Definition ch (a : ascii) : N := N_of_ascii a.
Definition js (s : string) : jsstring := List.map ch (list_ascii_of_string s).

(** "\s" of ECMAScript regular expressions: WhiteSpace and LineTerminator. *)
Definition is_space (c : N) : bool :=
  (c =? 9) || (c =? 10) || (c =? 11) || (c =? 12) || (c =? 13) || (c =? 32)
  || (c =? 160) || (c =? 5760) || ((8192 <=? c) && (c <=? 8202))
  || (c =? 8232) || (c =? 8233) || (c =? 8239) || (c =? 8287)
  || (c =? 12288) || (c =? 65279).

(** "\d" *)
Definition is_digit (c : N) : bool := (48 <=? c) && (c <=? 57).

(** "[a-zA-Z_]" *)
Definition is_ident_start (c : N) : bool :=
  ((97 <=? c) && (c <=? 122)) || ((65 <=? c) && (c <=? 90)) || (c =? 95).

(** "\w", which is also "[a-zA-Z0-9_]" *)
Definition is_word (c : N) : bool := is_ident_start c || is_digit c.

(** "[^\s(]" *)
Definition is_name_char (c : N) : bool := negb (is_space c || (c =? ch "(")).

Definition eqb_js (a b : jsstring) : bool := bool_decide (a = b).

(** The values a property read can produce in the modelled code. *)
Inductive jsval :=
| VUndefined
| VNum (n : N)
| VStr (s : jsstring)
| VBuiltin (key : jsstring).  (* a member inherited from Object.prototype *)

(** ToBoolean *)
Definition truthy (v : jsval) : bool :=
  match v with
  | VUndefined => false
  | VNum n => negb (n =? 0)
  | VStr s => negb (eqb_js s [])
  | VBuiltin _ => true
  end.

(** [a || b] *)
Definition js_or (a b : jsval) : jsval := if truthy a then a else b.

(** Property names every object literal inherits from [Object.prototype]. *)
Definition Object_prototype : list jsstring :=
  List.map js
    [ "constructor"; "__defineGetter__"; "__defineSetter__"; "hasOwnProperty";
      "__lookupGetter__"; "__lookupSetter__"; "isPrototypeOf";
      "propertyIsEnumerable"; "toString"; "valueOf"; "__proto__";
      "toLocaleString" ]%string.

Fixpoint own_property (obj : list (jsstring * jsval)) (key : jsstring) : option jsval :=
  match obj with
  | [] => None
  | (k, v) :: obj' => if eqb_js k key then Some v else own_property obj' key
  end.

(** [obj[key]] on an object literal: own properties first, then the
    prototype chain. *)
Definition get (obj : list (jsstring * jsval)) (key : jsstring) : jsval :=
  match own_property obj key with
  | Some v => v
  | None => if existsb (eqb_js key) Object_prototype then VBuiltin key else VUndefined
  end.

(** *** Numbers

    The numbers these sources compute are non-negative integers held in
    binary64.  A natural below 2^53 is held exactly.  A larger one is
    rounded to the nearest number with 53 significant bits, a tie going to
    the one whose last bit is 0; what this gives from 2^1024 on is
    Infinity, for which [infinity] stands: no finite number is that
    large, and comparing, testing for equality and ordering by the sign of
    a difference (a NaN difference counts as 0 in a sort) treat [infinity]
    as they treat Infinity. *)
Definition infinity : N := 2 ^ 1024.

Definition round64 (n : N) : N :=
  if n <? 2 ^ 53 then n else
  let e := N.log2 n - 52 in                 (* [n] has 53 + [e] bits *)
  let q := N.shiftr n e in                  (* the 53 leading bits *)
  let r := n - N.shiftl q e in              (* the bits that are dropped *)
  let half := N.shiftl 1 (e - 1) in
  let q' := if (half <? r) || ((r =? half) && N.odd q) then q + 1 else q in
  N.min (N.shiftl q' e) infinity.

(** The number a run of decimal digits denotes. *)
Definition digit_value (c : N) : N := c - 48.
Definition decimal (digits : jsstring) : N :=
  fold_left (fun acc c => 10 * acc + digit_value c) digits 0.

(** [parseInt] of a run of decimal digits: the number denoted, as a
    Number.  (Past its 20th significant digit the standard lets an engine
    read the digits as zeros; the engines round the number denoted.) *)
Definition parseInt (digits : jsstring) : N := round64 (decimal digits).

(** A product can also be NaN, when one factor is Infinity and the other
    is 0. *)
Inductive number :=
| Num (n : N)
| NaN.
Coercion Num : N >-> number.

(** [x * y] *)
Definition times (x y : number) : number :=
  match x, y with
  | Num a, Num b =>
      if ((a =? infinity) && (b =? 0)) || ((a =? 0) && (b =? infinity)) then NaN
      else Num (round64 (a * b))
  | _, _ => NaN
  end.

(** One constructor per [throw] site (or rejecting collaborator). *)
Inductive exn :=
| MissingComputeEntryPoint   (* 'Compute shader must contain @compute entry point' *)
| MissingRenderEntryPoints   (* 'Render shader must contain both @vertex and @fragment entry points' *)
| NoVertexAttributes         (* 'No vertex attributes found in shader' *)
| UnsupportedVertexLayout (found : list N)
                             (* 'Missing required vertex attributes. Expected locations 0,1,2, found ...' *)
| NoBufferLayouts            (* 'Failed to generate buffer layouts' *)
| ShaderLoadError (path : jsstring)
| DeviceError (message : jsstring)
| RangeError                 (* TypedArray.prototype.set: source is too large *)
| OperationError             (* getMappedRange on a buffer that is not mapped *)
| ReferenceError (name : jsstring)
                             (* '... is not defined': a name that is bound nowhere *)
| FatalError (message : jsstring).  (* the Error thrown by [fail] *)

(** The names the error taxonomy gives to the failures of introspection. *)
Definition is_MissingEntryPoint (e : exn) : bool :=
  match e with
  | MissingComputeEntryPoint | MissingRenderEntryPoints => true
  | _ => false
  end.

Inductive result (A : Type) :=
| Ok (a : A)
| Throw (e : exn).
Arguments Ok {A} a.
Arguments Throw {A} e.

(** Sequencing: the first [Throw] aborts what follows. *)
#[export] Instance result_ret : MRet result := fun A a => Ok a.
#[export] Instance result_bind : MBind result := fun A B k r =>
  match r with
  | Ok a => k a
  | Throw e => Throw e
  end.

End JS.
Import JS.

(** ** Scanning primitives

    Every regular expression of the sources is a sequence of literals and
    of greedy runs over a character class that is disjoint from the first
    character of what follows, so a greedy run never has to give characters
    back: each is translated into [span] followed by a test on the rest.
    Lazy gaps ("[^]*?", "[\s\S]*?") and the leftmost-match rule of [exec]
    are both "try here, else one character later": [search]. *)

Module Scan.

Fixpoint strip_prefix (lit s : jsstring) : option jsstring :=
  match lit, s with
  | [], _ => Some s
  | a :: lit', b :: s' => if a =? b then strip_prefix lit' s' else None
  | _ :: _, [] => None
  end.

(** The longest prefix whose characters satisfy [p], and the rest. *)
Fixpoint span (p : N -> bool) (s : jsstring) : jsstring * jsstring :=
  match s with
  | c :: s' => if p c then let '(run, rest) := span p s' in (c :: run, rest)
               else ([], s)
  | [] => ([], [])
  end.

(** A non-empty greedy run ([+]). *)
Definition span1 (p : N -> bool) (s : jsstring) : option (jsstring * jsstring) :=
  match span p s with
  | ([], _) => None
  | (run, rest) => Some (run, rest)
  end.

(** The first suffix of [s] (starting with [s] itself) where [m] matches. *)
Fixpoint search {A} (m : jsstring -> option A) (s : jsstring) : option A :=
  match m s with
  | Some r => Some r
  | None => match s with
            | [] => None
            | _ :: s' => search m s'
            end
  end.

(** Substring test, for statements about the presence of a marker. *)
Definition contains (lit s : jsstring) : bool :=
  match search (fun t => strip_prefix lit t) s with
  | Some _ => true
  | None => false
  end.

End Scan.
Import Scan.

(** ** ShaderIntrospector: [parseEntryPoints], [parseShaderLocations] *)

Module Introspector.

(** "fn\s+([^\s(]+)", anchored; yields capture group 1. *)
Definition fn_name (s : jsstring) : option jsstring :=
  s1 ← strip_prefix (js "fn") s;
  '(_, s2) ← span1 is_space s1;
  '(name, _) ← span1 is_name_char s2;
  Some name.

(** "/@vertex\s+fn\s+([^\s(]+)/" and "/@fragment\s+fn\s+([^\s(]+)/",
    anchored at the marker. *)
Definition marked_fn (marker : jsstring) (s : jsstring) : option jsstring :=
  s1 ← strip_prefix marker s;
  '(_, s2) ← span1 is_space s1;
  fn_name s2.

(** "/@compute[^]*?fn\s+([^\s(]+)/", anchored at the marker. *)
Definition compute_fn (s : jsstring) : option jsstring :=
  s1 ← strip_prefix (js "@compute") s;
  search fn_name s1.

Record EntryPoints := {
  vertex : option jsstring;
  fragment : option jsstring;
  compute : option jsstring
}.

Definition parseEntryPoints (shaderCode : jsstring) (type : jsstring) : result EntryPoints :=
  let vertexMatch :=
    if eqb_js type (js "render") then search (marked_fn (js "@vertex")) shaderCode else None in
  let fragmentMatch :=
    if eqb_js type (js "render") then search (marked_fn (js "@fragment")) shaderCode else None in
  let computeMatch :=
    if eqb_js type (js "compute") then search compute_fn shaderCode else None in
  if eqb_js type (js "compute") && negb (bool_decide (is_Some computeMatch)) then
    Throw MissingComputeEntryPoint
  else if eqb_js type (js "render")
          && (negb (bool_decide (is_Some vertexMatch))
              || negb (bool_decide (is_Some fragmentMatch))) then
    Throw MissingRenderEntryPoints
  else
    Ok {| vertex := vertexMatch; fragment := fragmentMatch; compute := computeMatch |}.


(** *** Attribute tables *)

Definition typeMap : list (jsstring * jsval) :=
  [ (js "f32", VStr (js "float32"));
    (js "vec2f", VStr (js "float32x2"));
    (js "vec3f", VStr (js "float32x3"));
    (js "vec4f", VStr (js "float32x4"));
    (js "i32", VStr (js "sint32"));
    (js "vec2i", VStr (js "sint32x2"));
    (js "vec3i", VStr (js "sint32x3"));
    (js "vec4i", VStr (js "sint32x4"));
    (js "u32", VStr (js "uint32"));
    (js "vec2u", VStr (js "uint32x2"));
    (js "vec3u", VStr (js "uint32x3"));
    (js "vec4u", VStr (js "uint32x4")) ].

Definition typeToFormat (type : jsstring) : jsval :=
  js_or (get typeMap type) (VStr (js "float32")).

(** "/(\d+)x(\d+)/", anchored: both captures. *)
Definition digits_x_digits (s : jsstring) : option (jsstring * jsstring) :=
  '(a, s1) ← span1 is_digit s;
  s2 ← strip_prefix (js "x") s1;
  '(b, _) ← span1 is_digit s2;
  Some (a, b).

Definition formatSize (format : jsstring) : number :=
  match search digits_x_digits format with
  | Some (a, b) => times (times (parseInt a) (parseInt b)) 4
  | None => 4
  end.

Definition sizes : list (jsstring * jsval) :=
  [ (js "f32", VNum 4);
    (js "vec2f", VNum 8);
    (js "vec3f", VNum 12);
    (js "vec4f", VNum 16) ].

Definition typeToSize (type : jsstring) : jsval :=
  js_or (get sizes type) (VNum 0).

(** *** Vertex attributes of the [@vertex] function *)

Record VertexAttribute := {
  location : N;
  name : jsstring;
  type : jsstring;
  bytesPerElement : jsval
}.

(** "\)\s*(?:->|\{)", anchored. *)
Definition params_end (s : jsstring) : option unit :=
  s1 ← strip_prefix (js ")") s;
  let '(_, s2) := span is_space s1 in
  match strip_prefix (js "->") s2, strip_prefix (js "{") s2 with
  | None, None => None
  | _, _ => Some ()
  end.

(** A lazy capture "([\s\S]*?)": the text before the first place where
    [stop] matches. *)
Fixpoint capture_until {A} (stop : jsstring -> option A) (s : jsstring) : option jsstring :=
  match stop s with
  | Some _ => Some []
  | None => match s with
            | [] => None
            | c :: s' => cap ← capture_until stop s'; Some (c :: cap)
            end
  end.

(** "fn\s+\w+\s*\(([\s\S]*?)\)\s*(?:->|\{)", anchored; capture 1. *)
Definition fn_params (s : jsstring) : option jsstring :=
  s1 ← strip_prefix (js "fn") s;
  '(_, s2) ← span1 is_space s1;
  '(_, s3) ← span1 is_word s2;
  let '(_, s4) := span is_space s3 in
  s5 ← strip_prefix (js "(") s4;
  capture_until params_end s5.

(** "/@vertex[\s\S]*?fn\s+\w+\s*\(([\s\S]*?)\)\s*(?:->|\{)/m" *)
Definition vertexFnMatch (shaderCode : jsstring) : option jsstring :=
  search (fun s => s1 ← strip_prefix (js "@vertex") s; search fn_params s1) shaderCode.

(** "/\/\*.*?\*\//s", anchored: the text after the comment. *)
Definition block_comment (s : jsstring) : option jsstring :=
  s1 ← strip_prefix (js "/*") s;
  search (strip_prefix (js "*/")) s1.

(** "replace(/\/\*.*?\*\//gs, '')"; [skip] counts the characters of a
    comment still to be dropped. *)
Fixpoint remove_comments (skip : nat) (s : jsstring) : jsstring :=
  match s with
  | [] => []
  | c :: s' =>
      match skip with
      | S k => remove_comments k s'
      | O =>
          match block_comment s with
          | Some rest => remove_comments (length s' - length rest)%nat s'
          | None => c :: remove_comments 0 s'
          end
      end
  end.

(** [paramRegex], anchored: "@location\((\d+)\)\s+", the name
    "[a-zA-Z_][\w]*" (capture 2), "\s*:\s*" and the type "[a-zA-Z0-9_]+"
    (capture 3); the three captures and the text after the match. *)
Definition param_decl (s : jsstring) : option (jsstring * jsstring * jsstring * jsstring) :=
  s1 ← strip_prefix (js "@location(") s;
  '(digits, s2) ← span1 is_digit s1;
  s3 ← strip_prefix (js ")") s2;
  '(_, s4) ← span1 is_space s3;
  match s4 with
  | c :: s5 =>
      if is_ident_start c then
        let '(tail, s6) := span is_word s5 in
        let '(_, s7) := span is_space s6 in
        s8 ← strip_prefix (js ":") s7;
        let '(_, s9) := span is_space s8 in
        '(ty, rest) ← span1 is_word s9;
        Some (digits, c :: tail, ty, rest)
      else None
  | [] => None
  end.

(** The [while ((match = paramRegex.exec(rawParams)) !== null)] loop: the
    matches from left to right, each search resuming where the previous
    match ended ([skip] counts the characters of a match still to pass). *)
Fixpoint scan_params (skip : nat) (s : jsstring) : list VertexAttribute :=
  match s with
  | [] => []
  | _ :: s' =>
      match skip with
      | S k => scan_params k s'
      | O =>
          match param_decl s with
          | Some (digits, nm, ty, rest) =>
              {| location := parseInt digits; name := nm; type := ty;
                 bytesPerElement := typeToSize ty |}
              :: scan_params (length s' - length rest)%nat s'
          | None => scan_params 0 s'
          end
      end
  end.

(** [locations.sort((a, b) => a.location - b.location)]: a stable sort. *)
Fixpoint insert_by_location (a : VertexAttribute) (l : list VertexAttribute) : list VertexAttribute :=
  match l with
  | [] => [a]
  | b :: l' => if location a <=? location b then a :: l
               else b :: insert_by_location a l'
  end.

Definition sort_by_location (l : list VertexAttribute) : list VertexAttribute :=
  List.fold_right insert_by_location [] l.

Definition parseShaderLocations (shaderCode : jsstring) : list VertexAttribute :=
  match vertexFnMatch shaderCode with
  | None => []
  | Some params =>
      let rawParams := remove_comments 0 params in
      sort_by_location (scan_params 0 rawParams)
  end.

End Introspector.

Import Introspector.

(** ** PipelineFactory: [generateBufferLayouts], the metadata side table,
       [createPipeline] *)

Module Factory.

Record Attribute := {
  shaderLocation : N;
  offset : N;
  format : jsstring
}.

Record BufferLayout := {
  arrayStride : N;
  stepMode : jsstring;
  attributes : list Attribute
}.

Definition expectedLocations : list N := [0; 1; 2].

(** "actualLocations.includes(l)" *)
Definition includes (l : list N) (x : N) : bool := existsb (N.eqb x) l.

Definition instanceBuffer (locations : list VertexAttribute) : BufferLayout :=
  let instanceAttrs := List.filter (fun l => location l <? 2) locations in
  {| arrayStride := 16;
     stepMode := js "instance";
     attributes :=
       List.map (fun attr => {| shaderLocation := location attr;
                                offset := location attr * 8;
                                format := js "float32x2" |}) instanceAttrs |}.

Definition vertexBuffer : BufferLayout :=
  {| arrayStride := 8;
     stepMode := js "vertex";
     attributes := [ {| shaderLocation := 2; offset := 0; format := js "float32x2" |} ] |}.

Definition generateBufferLayouts (locations : list VertexAttribute) : result (list BufferLayout) :=
  let actualLocations := List.map location locations in
  if negb (forallb (includes actualLocations) expectedLocations) then
    Throw (UnsupportedVertexLayout actualLocations)
  else
    Ok [instanceBuffer locations; vertexBuffer].

(** What the validation of [generateBufferLayouts] tests: 0, 1 and 2 are
    all among the declared locations. *)
Definition passes_validation (locations : list VertexAttribute) : Prop :=
  forall x, In x expectedLocations -> In x (List.map location locations).

(** The attributes of the instance stream are a function of the declared
    locations alone. *)
Definition instanceAttribute (x : N) : Attribute :=
  {| shaderLocation := x; offset := x * 8; format := js "float32x2" |}.

Definition fixedLayouts : list BufferLayout :=
  [ {| arrayStride := 16; stepMode := js "instance";
       attributes := [instanceAttribute 0; instanceAttribute 1] |};
    {| arrayStride := 8; stepMode := js "vertex";
       attributes := [ {| shaderLocation := 2; offset := 0; format := js "float32x2" |} ] |} ].

(** *** The side table: "const pipelineMetadata = new WeakMap()" *)

Record Metadata := {
  md_type : jsstring;
  md_buffers : option (list BufferLayout)
}.

(** "pipelineMetadata.get(pipeline)?.type || 'unknown'" *)
Definition getPipelineType (pipelineMetadata : gmap positive Metadata) (pipeline : positive) : jsstring :=
  match pipelineMetadata !! pipeline with
  | Some md => if eqb_js (md_type md) [] then js "unknown" else md_type md
  | None => js "unknown"
  end.

(** "pipelineMetadata.get(pipeline)?.buffers || []"; an array, even an
    empty one, is truthy. *)
Definition getPipelineBuffers (pipelineMetadata : gmap positive Metadata) (pipeline : positive) : list BufferLayout :=
  match pipelineMetadata !! pipeline with
  | Some md => match md_buffers md with
               | Some buffers => buffers
               | None => []
               end
  | None => []
  end.

(** *** Collaborators of [createPipeline] *)

Record ShaderModuleDescriptor := {
  sm_code : jsstring;
  sm_label : jsstring
}.

Record ComputePipelineDescriptor := {
  cp_label : jsstring;
  cp_module : positive;
  cp_entryPoint : option jsstring
}.

Record RenderPipelineDescriptor := {
  rp_module : positive;
  rp_vertexEntryPoint : option jsstring;
  rp_buffers : list BufferLayout;
  rp_fragmentEntryPoint : option jsstring;
  rp_targetFormat : jsstring;
  rp_topology : jsstring
}.

(** The shader loader and the device: each call returns an object (by
    identity) or throws. *)
Record Device := {
  loadShaderFromFile : jsstring -> result jsstring;
  createShaderModule : ShaderModuleDescriptor -> result positive;
  createComputePipelineAsync : ComputePipelineDescriptor -> result positive;
  createRenderPipeline : RenderPipelineDescriptor -> result positive
}.

(** The body of [createPipeline] up to the device call of the render
    branch: what is handed to [device.createRenderPipeline]. *)
Definition renderDescriptor (code : jsstring) (entries : EntryPoints)
    (shaderModule : positive) (presentationFormat : jsstring) : result RenderPipelineDescriptor :=
  let locations := parseShaderLocations code in
  if (length locations =? 0)%nat then Throw NoVertexAttributes else
  buffers ← generateBufferLayouts locations;
  if (length buffers =? 0)%nat then Throw NoBufferLayouts else
  Ok {| rp_module := shaderModule;
        rp_vertexEntryPoint := vertex entries;
        rp_buffers := buffers;
        rp_fragmentEntryPoint := fragment entries;
        rp_targetFormat := presentationFormat;
        rp_topology := js "triangle-list" |}.

(** [createPipeline(device, { type, shaderPath, presentationFormat })]
    run against the side table.  The [catch] block first builds the entry
    it means to log, and that evaluates
    "error instanceof GPUDeviceLostError".  Neither the sources nor WebGPU
    bind that name (what a lost device hands out is a GPUDeviceLostInfo),
    so the evaluation throws a ReferenceError: nothing is logged,
    "throw error" is not reached, and whatever was caught, this is the
    error that leaves [createPipeline].  The table is as it was. *)
Definition createPipeline (device : Device) (type shaderPath presentationFormat : jsstring)
    (pipelineMetadata : gmap positive Metadata) : result positive * gmap positive Metadata :=
  let attempt : result (positive * Metadata) :=
    code ← loadShaderFromFile device shaderPath;
    entries ← parseEntryPoints code type;
    shaderModule ← createShaderModule device
      {| sm_code := code; sm_label := type ++ js " shader module" |};
    if eqb_js type (js "compute") then
      pipeline ← createComputePipelineAsync device
        {| cp_label := shaderPath ++ js " compute pipeline";
           cp_module := shaderModule;
           cp_entryPoint := compute entries |};
      Ok (pipeline, {| md_type := js "compute"; md_buffers := None |})
    else
      descriptor ← renderDescriptor code entries shaderModule presentationFormat;
      pipeline ← createRenderPipeline device descriptor;
      Ok (pipeline, {| md_type := js "render"; md_buffers := Some (rp_buffers descriptor) |})
  in
  match attempt with
  | Ok (pipeline, md) => (Ok pipeline, <[pipeline := md]> pipelineMetadata)
  | Throw _ => (Throw (ReferenceError (js "GPUDeviceLostError")), pipelineMetadata)
  end.

End Factory.
Import Factory.

(** ** Device buffers

    Buffers live in the device; the host holds handles.  The contents of a
    buffer are kept as its 32-bit elements (both demos only view buffers
    through [Float32Array] and [Uint32Array]). *)

Module Gpu.

(** [GPUBufferUsage] *)
Definition COPY_SRC : N := 4.
Definition COPY_DST : N := 8.
Definition VERTEX : N := 32.
Definition UNIFORM : N := 64.
Definition STORAGE : N := 128.

Record Buffer := {
  size : N;              (* bytes *)
  usage : N;
  mapped : bool;
  destroyed : bool;
  contents : list N
}.

Record Heap := {
  fresh : positive;
  buffers : gmap positive Buffer
}.

Definition empty_heap : Heap := {| fresh := 1%positive; buffers := ∅ |}.

(** Host code that allocates and fills buffers: it threads the device
    state and stops at the first exception. *)
Definition GPU (A : Type) : Type := Heap -> result (A * Heap).

#[export] Instance GPU_ret : MRet GPU := fun A a h => Ok (a, h).
#[export] Instance GPU_bind : MBind GPU := fun A B k m h =>
  match m h with
  | Ok (a, h') => k a h'
  | Throw e => Throw e
  end.

(** A zero-filled buffer, and the heap after one allocation. *)
Definition zeroed (sz us : N) (m : bool) : Buffer :=
  {| size := sz; usage := us; mapped := m; destroyed := false;
     contents := repeat 0 (N.to_nat (sz / 4)) |}.

Definition allocated (h : Heap) (b : Buffer) : Heap :=
  {| fresh := Pos.succ (fresh h); buffers := <[fresh h := b]> (buffers h) |}.

(** [device.createBuffer({ size, usage, mappedAtCreation })]: a new,
    zero-filled buffer.  A buffer mapped at creation must have a size that
    is a multiple of 4. *)
Definition createBuffer (sz us : N) (mappedAtCreation : bool) : GPU positive := fun h =>
  if mappedAtCreation && negb (sz mod 4 =? 0) then Throw RangeError else
  Ok (fresh h, allocated h (zeroed sz us mappedAtCreation)).

(** [new Float32Array(buf.getMappedRange()).set(data)] (and the same with
    [Uint32Array]): [getMappedRange] throws on a buffer that is not mapped,
    [set] throws when [data] is longer than the view, and copies [data]
    over the first elements otherwise. *)
Definition setMappedRange (buf : positive) (data : list N) : GPU unit := fun h =>
  match buffers h !! buf with
  | Some b =>
      if negb (mapped b) then Throw OperationError
      else if (length (contents b) <? length data)%nat then Throw RangeError
      else
        let b' := {| size := size b; usage := usage b; mapped := mapped b;
                     destroyed := destroyed b;
                     contents := data ++ drop (length data) (contents b) |} in
        Ok ((), {| fresh := fresh h; buffers := <[buf := b']> (buffers h) |})
  | None => Throw OperationError
  end.

(** [device.queue.writeBuffer(buf, 0, data)], [data] a typed array of
    32-bit elements.  The call itself throws nothing for such data (what it
    checks before returning are the offsets into [data]).  Whether the
    write happens is decided on the device: the buffer must be available
    (neither mapped nor destroyed), must have been created with COPY_DST
    and must hold the data.  When it does not, the device raises a
    validation error, which goes to the error scope or to the
    'uncapturederror' event and not to the caller, and the buffer stays as
    it was. *)
Definition writable (b : Buffer) (data : list N) : bool :=
  negb (mapped b) && negb (destroyed b)
  && negb (N.land (usage b) COPY_DST =? 0)
  && (length data <=? length (contents b))%nat.

Definition writeBuffer (buf : positive) (data : list N) : GPU unit := fun h =>
  match buffers h !! buf with
  | Some b =>
      if writable b data then
        let b' := {| size := size b; usage := usage b; mapped := mapped b;
                     destroyed := destroyed b;
                     contents := data ++ drop (length data) (contents b) |} in
        Ok ((), {| fresh := fresh h; buffers := <[buf := b']> (buffers h) |})
      else Ok ((), h)
  | None => Ok ((), h)
  end.

(** [buf.unmap()] *)
Definition unmap (buf : positive) : GPU unit := fun h =>
  Ok ((), {| fresh := fresh h;
             buffers := alter (fun b => {| size := size b; usage := usage b; mapped := false;
                                           destroyed := destroyed b; contents := contents b |})
                              buf (buffers h) |}).

(** [buf.destroy()] *)
Definition destroy (buf : positive) (h : Heap) : Heap :=
  {| fresh := fresh h;
     buffers := alter (fun b => {| size := size b; usage := usage b; mapped := false;
                                   destroyed := true; contents := contents b |})
                      buf (buffers h) |}.

(** What a buffer holds. *)
Definition read (h : Heap) (buf : positive) : option (list N) :=
  contents <$> buffers h !! buf.

Definition capacity (h : Heap) (buf : positive) : option N :=
  size <$> buffers h !! buf.

(** Bind groups and recorded commands. *)
Record BindGroupEntry := {
  binding : N;
  resource : option positive      (* [undefined] when the array has no such slot *)
}.

Record BindGroup := {
  entries : list BindGroupEntry
}.

Fixpoint bound (bg : list BindGroupEntry) (b : N) : option positive :=
  match bg with
  | [] => None
  | e :: bg' => if binding e =? b then resource e else bound bg' b
  end.

(** The flocking shader reads binding 1 (the current state) and writes
    binding 2 (the next state). *)
Definition readView (bg : BindGroup) : option positive := bound (entries bg) 1.
Definition writeView (bg : BindGroup) : option positive := bound (entries bg) 2.

Record CommandBuffer := {
  computeBindGroup : option BindGroup;    (* setBindGroup(0, ...) of the compute pass *)
  workgroups : N;                         (* dispatchWorkgroups(...) *)
  vertexBuffer0 : option positive;        (* setVertexBuffer(0, ...) of the render pass *)
  vertexBuffer1 : option positive;        (* setVertexBuffer(1, ...) *)
  drawVertices : N;
  drawInstances : N
}.

End Gpu.
Import Gpu.

(** ** DoubleBufferedState in the three demos *)

Module BoidsHardcode.

(** [computeBoids-hardcode.js]: both buffers are created mapped, then each
    is filled and unmapped. *)
Definition particleBuffers (initialParticleData : list N) : GPU (list positive) :=
  let byteLength := 4 * N.of_nat (length initialParticleData) in
  b0 ← createBuffer byteLength (N.lor VERTEX STORAGE) true;
  b1 ← createBuffer byteLength (N.lor VERTEX STORAGE) true;
  _ ← setMappedRange b0 initialParticleData;
  _ ← unmap b0;
  _ ← setMappedRange b1 initialParticleData;
  _ ← unmap b1;
  mret [b0; b1].

End BoidsHardcode.

Module GameOfLife.

(** The cell buffers: only the first is created mapped and filled. *)
Definition cellBuffers (cellData : list N) : GPU (list positive) :=
  let byteLength := 4 * N.of_nat (length cellData) in
  let us := N.lor (N.lor STORAGE VERTEX) COPY_DST in
  b0 ← createBuffer byteLength us true;
  b1 ← createBuffer byteLength us false;
  _ ← setMappedRange b0 cellData;
  _ ← unmap b0;
  mret [b0; b1].

End GameOfLife.

(** ** The error channel: [fail] *)

Module Channel.

Inductive Report :=
| Modal (message : jsstring)          (* dialogBox.showModal() with that text *)
| ConsoleError (message : jsstring).  (* console.error(...) *)

Inductive ErrorOutput :=
| WorkerOutput                        (* no [document]: console only *)
| DialogOutput (open : bool) (textContent : jsstring).

Record State := {
  output : option ErrorOutput;        (* "let output;" of the closure *)
  reports : list Report               (* what the operator has been shown *)
}.

Definition initial : State := {| output := None; reports := [] |}.

(** [createErrorOutput()]: the dialog is created closed. *)
Definition createErrorOutput (document_defined : bool) : ErrorOutput :=
  if document_defined then DialogOutput false [] else WorkerOutput.

(** [output.show(msg)] *)
Definition show (msg : jsstring) (out : ErrorOutput) (shown : list Report) : ErrorOutput * list Report :=
  match out with
  | WorkerOutput => (WorkerOutput, shown ++ [ConsoleError msg])
  | DialogOutput open text =>
      if negb open then (DialogOutput true msg, shown ++ [Modal msg])
      else (DialogOutput open text, shown)
  end.

(** The dialog-backed [fail]: it shows the message and always throws. *)
Definition fail (document_defined : bool) (message : jsstring) (c : State) : State * exn :=
  let out := match output c with
             | Some out => out
             | None => createErrorOutput document_defined
             end in
  let '(out', shown) := show message out (reports c) in
  ({| output := Some out'; reports := shown |}, FatalError message).

(** The console-backed [fail] of the utilities that also export
    [createPipeline]: it logs and always throws. *)
Definition fail_console (message : jsstring) (c : State) : State * exn :=
  ({| output := output c; reports := reports c ++ [ConsoleError message] |},
   FatalError message).

(** "closeBtn.onclick = () => dialogBox.close()" *)
Definition closeDialog (c : State) : State :=
  match output c with
  | Some (DialogOutput _ text) => {| output := Some (DialogOutput false text); reports := reports c |}
  | _ => c
  end.

End Channel.

(** ** The rest of the utilities: device checks and the shader loader *)

Module Utils.

Section WithFail.

(** The [fail] of the utilities file at hand. *)
Variable fail : jsstring -> Channel.State -> Channel.State * exn.

(** A call of [fail]: it reports and throws. *)
Definition failing {A} (message : jsstring) (c : Channel.State) : Channel.State * result A :=
  let '(c', e) := fail message c in (c', Throw e).

(** [quitIfAdapterNotAvailable(adapter)]; the first argument is
    "'gpu' in navigator". *)
Definition quitIfAdapterNotAvailable (gpu_in_navigator : bool) (adapter : option positive)
    (c : Channel.State) : Channel.State * result unit :=
  if negb gpu_in_navigator then
    failing (js "navigator.gpu is not defined - WebGPU not available in this browser") c
  else
    match adapter with
    | None => failing (js "requestAdapter returned null - this sample can't run on this system") c
    | Some _ => (c, Ok ())
    end.

(** [quitIfWebGPUNotAvailable(adapter, device)]; with a device it only
    subscribes to the loss and uncaptured-error notifications below. *)
Definition quitIfWebGPUNotAvailable (gpu_in_navigator : bool) (adapter device : option positive)
    (c : Channel.State) : Channel.State * result unit :=
  match device with
  | None =>
      match quitIfAdapterNotAvailable gpu_in_navigator adapter c with
      | (c1, Ok _) => failing (js "Unable to get a device for an unknown reason") c1
      | (c1, Throw e) => (c1, Throw e)
      end
  | Some _ => (c, Ok ())
  end.

(** The message [quitIfWebGPUNotAvailable] ends up reporting when there is
    no device. *)
Definition missing_device_message (gpu_in_navigator : bool) (adapter : option positive) : jsstring :=
  if negb gpu_in_navigator then
    js "navigator.gpu is not defined - WebGPU not available in this browser"
  else
    match adapter with
    | None => js "requestAdapter returned null - this sample can't run on this system"
    | Some _ => js "Unable to get a device for an unknown reason"
    end.

(** The callbacks through which the utilities hear of a failure: the two
    listeners the module puts on [globalThis] when it is loaded, and the
    two subscriptions [quitIfWebGPUNotAvailable] makes on a device,
    "device.lost.then(...)" and the 'uncapturederror' listener.  The
    arguments are what the template of each prints: "ev.reason" and
    "ev.error" as strings, "reason.reason", "reason.message" and
    "ev.error.message". *)
Inductive Listener :=
| OnUnhandledRejection (reason : jsstring)
| OnError (error : jsstring)
| OnDeviceLost (reason message : jsstring)
| OnUncapturedError (message : jsstring).

(** The message each of them builds.  Code unit 34 is the double quote, 10
    the line feed. *)
Definition listener_message (l : Listener) : jsstring :=
  match l with
  | OnUnhandledRejection reason =>
      js "unhandled promise rejection, please report a bug!" ++ [10]
      ++ js "  https://github.com/webgpu/webgpu-samples/issues/new" ++ [10] ++ reason
  | OnError error =>
      js "uncaught exception, please report a bug!" ++ [10]
      ++ js "  https://github.com/webgpu/webgpu-samples/issues/new" ++ [10] ++ error
  | OnDeviceLost reason message =>
      js "Device lost (" ++ [34] ++ reason ++ [34] ++ js "):" ++ [10] ++ message
  | OnUncapturedError message =>
      js "Uncaptured error:" ++ [10] ++ message
  end.

(** One run of one of them: all it does is call [fail]. *)
Definition listen (l : Listener) (c : Channel.State) : Channel.State * result unit :=
  failing (listener_message l) c.

(** What "await fetch(path)" and "await response.text()" can produce. *)
Inductive Fetched :=
| Rejected (message : jsstring)                    (* fetch itself throws *)
| Responded (ok : bool) (text : jsstring + jsstring).
                                                   (* the body, or the message of the
                                                      error reading it throws *)

(** [loadShaderFromFile(path)]: every error caught is reported through
    [fail], which throws, so the "throw error" that follows is never
    reached. *)
Definition loadShaderFromFile (fetch : jsstring -> Fetched) (path : jsstring)
    (c : Channel.State) : Channel.State * result jsstring :=
  let caught (message : jsstring) :=
    failing (js "Error loading shader from " ++ path ++ js ": " ++ message) c in
  match fetch path with
  | Rejected message => caught message
  | Responded false _ => caught (js "Failed to load shader: " ++ path)
  | Responded true (inl text) => (c, Ok text)
  | Responded true (inr message) => caught message
  end.

End WithFail.

End Utils.

(** ** The flocking demo: [computeBoids.js] *)

Module Boids.

Definition numParticles : N := 1500.

(** [particleBuffers = [0,1].map(() => { ... })] *)
Definition newParticleBuffer (initialParticleData : list N) : GPU positive :=
  let bufferSize := 4 * N.of_nat (length initialParticleData) in
  buf ← createBuffer bufferSize
          (N.lor (N.lor (N.lor STORAGE VERTEX) COPY_DST) COPY_SRC) true;
  _ ← setMappedRange buf initialParticleData;
  _ ← unmap buf;
  mret buf.

Definition particleBuffers (initialParticleData : list N) : GPU (list positive) :=
  b0 ← newParticleBuffer initialParticleData;
  b1 ← newParticleBuffer initialParticleData;
  mret [b0; b1].

(** The body of "for (let i = 0; i < 2; ++i) particleBindGroups.push(...)". *)
Definition particleBindGroup (simParamBuffer : positive) (buffers : list positive) (i : N) : BindGroup :=
  {| entries :=
       [ {| binding := 0; resource := Some simParamBuffer |};
         {| binding := 1; resource := buffers !! N.to_nat i |};
         {| binding := 2; resource := buffers !! N.to_nat ((i + 1) mod 2) |} ] |}.

Definition particleBindGroups (simParamBuffer : positive) (buffers : list positive) : list BindGroup :=
  [ particleBindGroup simParamBuffer buffers 0; particleBindGroup simParamBuffer buffers 1 ].

(** The variables of [init] that the frame loop and the error handler
    share, the device state, and what has left the program: the command
    buffers submitted to the queue and the error channel. *)
Record App := {
  shouldContinueRendering : bool;
  errorOccurred : bool;
  animationId : option N;
  t : N;
  buffers : list positive;            (* particleBuffers *)
  bindGroups : list BindGroup;        (* particleBindGroups *)
  spriteVertexBuffer : option positive;
  simParamBuffer : option positive;
  contextConfigured : bool;
  heap : Heap;
  nextHandle : N;                     (* the host's next requestAnimationFrame id *)
  encoders : N;                       (* command encoders created so far *)
  queue : list CommandBuffer;         (* device.queue.submit, in order *)
  channel : Channel.State
}.

(** Whether the loop may run: the test both guards of [frame] make. *)
Definition running (app : App) : bool :=
  shouldContinueRendering app && negb (errorOccurred app).

(** The set-up of [init] after the two pipelines exist. *)
Definition setup (spriteVertices simParams initialParticleData : list N)
    : GPU (positive * positive * list positive * list BindGroup) :=
  sprite ← createBuffer (512 * 3) VERTEX true;
  _ ← setMappedRange sprite spriteVertices;
  _ ← unmap sprite;
  simParam ← createBuffer (7 * 4) (N.lor UNIFORM COPY_DST) false;
  _ ← writeBuffer simParam simParams;
  bufs ← particleBuffers initialParticleData;
  mret (sprite, simParam, bufs, particleBindGroups simParam bufs).

Definition start (spriteVertices simParams initialParticleData : list N) : result App :=
  '(sprite, simParam, bufs, groups, h) ← setup spriteVertices simParams initialParticleData empty_heap;
  Ok {| shouldContinueRendering := true; errorOccurred := false; animationId := None;
        t := 0; buffers := bufs; bindGroups := groups;
        spriteVertexBuffer := Some sprite; simParamBuffer := Some simParam;
        contextConfigured := true; heap := h; nextHandle := 1; encoders := 0;
        queue := []; channel := Channel.initial |}.

Section Handlers.

(** The [fail] the demo imports. *)
Variable fail : jsstring -> Channel.State -> Channel.State * exn.

(** [handleCriticalError(error)], [error] given by its message.  Of the
    resources it releases only the buffers have a [destroy] method and
    only the canvas context an [unconfigure] method.  The second
    component is the exception that leaves the handler: [fail] throws,
    so the first call never returns normally. *)
Definition handleCriticalError (message : jsstring) (app : App) : App * option exn :=
  if errorOccurred app then (app, None) else
  let resources :=
    buffers app ++ option_list (spriteVertexBuffer app) ++ option_list (simParamBuffer app) in
  let '(c, e) := fail (js "Fatal error: " ++ message) (channel app) in
  ({| shouldContinueRendering := false;
      errorOccurred := true;
      animationId := None;                       (* cancelAnimationFrame *)
      t := t app; buffers := buffers app; bindGroups := bindGroups app;
      spriteVertexBuffer := spriteVertexBuffer app;
      simParamBuffer := simParamBuffer app;
      contextConfigured := false;                (* context.unconfigure() *)
      heap := List.fold_left (fun h r => destroy r h) resources (heap app);
      nextHandle := nextHandle app; encoders := encoders app;
      queue := queue app; channel := c |},
   Some e).

(** The device calls of one frame, in order; any of them may throw. *)
Inductive Step :=
| GetCurrentTexture
| CreateCommandEncoder
| ComputePass
| RenderPass
| Submit.

Definition encoding_begun (s : Step) : bool :=
  match s with
  | GetCurrentTexture | CreateCommandEncoder => false
  | ComputePass | RenderPass | Submit => true
  end.

(** The command buffer [frame] encodes when the counter is [t]. *)
Definition encode (app : App) : CommandBuffer :=
  {| computeBindGroup := bindGroups app !! N.to_nat (t app mod 2);
     workgroups := (numParticles + 63) / 64;     (* Math.ceil(numParticles / 64) *)
     vertexBuffer0 := buffers app !! N.to_nat ((t app + 1) mod 2);
     vertexBuffer1 := spriteVertexBuffer app;
     drawVertices := 3;
     drawInstances := numParticles |}.

(** [frame()]; [fault] says which device call of this frame throws, if
    any, and with what message.  The frame-rate log that opens the
    function only writes to the console and is left out. *)
Definition frame (fault : option (Step * jsstring)) (app : App) : App * option exn :=
  if negb (shouldContinueRendering app) || errorOccurred app then (app, None) else
  match fault with
  | Some (s, message) =>
      handleCriticalError message
        {| shouldContinueRendering := shouldContinueRendering app;
           errorOccurred := errorOccurred app; animationId := animationId app;
           t := t app; buffers := buffers app; bindGroups := bindGroups app;
           spriteVertexBuffer := spriteVertexBuffer app;
           simParamBuffer := simParamBuffer app;
           contextConfigured := contextConfigured app; heap := heap app;
           nextHandle := nextHandle app;
           encoders := if encoding_begun s then encoders app + 1 else encoders app;
           queue := queue app; channel := channel app |}
  | None =>
      let again := shouldContinueRendering app && negb (errorOccurred app) in
      ({| shouldContinueRendering := shouldContinueRendering app;
          errorOccurred := errorOccurred app;
          animationId := if again then Some (nextHandle app) else animationId app;
          t := t app + 1;
          buffers := buffers app; bindGroups := bindGroups app;
          spriteVertexBuffer := spriteVertexBuffer app;
          simParamBuffer := simParamBuffer app;
          contextConfigured := contextConfigured app; heap := heap app;
          nextHandle := if again then nextHandle app + 1 else nextHandle app;
          encoders := encoders app + 1;
          queue := queue app ++ [encode app];
          channel := channel app |},
       None)
  end.

(** A callback that only writes to the error channel. *)
Definition with_channel (c : Channel.State) (app : App) : App :=
  {| shouldContinueRendering := shouldContinueRendering app;
     errorOccurred := errorOccurred app; animationId := animationId app;
     t := t app; buffers := buffers app; bindGroups := bindGroups app;
     spriteVertexBuffer := spriteVertexBuffer app;
     simParamBuffer := simParamBuffer app;
     contextConfigured := contextConfigured app; heap := heap app;
     nextHandle := nextHandle app; encoders := encoders app;
     queue := queue app; channel := c |}.

(** The callbacks the host runs on the page, one run each: the frame
    callback; a listener or [catch] block of the demo that hands an error
    to [handleCriticalError] ([message] is the error's message); one of
    the listeners of the utilities, which call [fail] themselves; the
    'uncapturederror' listener of the demo, which writes the error to the
    console. *)
Inductive Event :=
| Resume (fault : option (Step * jsstring))
| Failure (message : jsstring)
| Utility (l : Utils.Listener)
| ValidationLog (message : jsstring).

Definition step (app : App) (ev : Event) : App :=
  match ev with
  | Resume fault => fst (frame fault app)
  | Failure message => fst (handleCriticalError message app)
  | Utility l => with_channel (fst (Utils.listen fail l (channel app))) app
  | ValidationLog message =>
      with_channel
        {| Channel.output := Channel.output (channel app);
           Channel.reports := Channel.reports (channel app) ++ [Channel.ConsoleError message] |}
        app
  end.

Definition run (events : list Event) (app : App) : App :=
  List.fold_left step events app.

(** An error as the listeners use it: what a template prints for it, and
    its message. *)
Record ErrorValue := {
  error_text : jsstring;        (* String(error) *)
  error_message : jsstring      (* error.message *)
}.

(** What the host tells the page. *)
Inductive Notification :=
| AnimationFrame (fault : option (Step * jsstring))
| UncaughtError (error : ErrorValue)          (* 'error' on the window *)
| UnhandledRejection (reason : ErrorValue)    (* 'unhandledrejection' on the window *)
| DeviceLost (reason message : jsstring)      (* "device.lost" is resolved *)
| UncapturedError (message : jsstring)        (* 'uncapturederror' on the device *)
| BeforeUnload.                               (* 'beforeunload' on the window *)

(** The callbacks a notification runs, in the order they were registered:
    the utilities put their listeners on the window when the module is
    loaded and on the device in [quitIfWebGPUNotAvailable], in both cases
    before the demo adds its own.  A callback that ends by throwing, as
    every call of [fail] does, does not keep the next one from running;
    the host reports what was thrown, on a page as a further 'error' or
    'unhandledrejection': in a run that is a notification of its own. *)
Definition callbacks (n : Notification) : list Event :=
  match n with
  | AnimationFrame fault => [Resume fault]
  | UncaughtError error =>
      [Utility (Utils.OnError (error_text error)); Failure (error_message error)]
  | UnhandledRejection reason =>
      [Utility (Utils.OnUnhandledRejection (error_text reason)); Failure (error_message reason)]
  | DeviceLost reason message => [Utility (Utils.OnDeviceLost reason message)]
  | UncapturedError message =>
      [Utility (Utils.OnUncapturedError message); ValidationLog message]
  | BeforeUnload => [Failure (js "Application closed")]
  end.

Definition deliver (notifications : list Notification) (app : App) : App :=
  run (List.concat (List.map callbacks notifications)) app.

End Handlers.

(** The callbacks that write to the error channel whatever the state. *)
Definition reporting (ev : Event) : bool :=
  match ev with
  | Utility _ | ValidationLog _ => true
  | Resume _ | Failure _ => false
  end.

(** The notifications for which the utilities have a listener. *)
Definition heard_by_the_utilities (n : Notification) : bool :=
  match n with
  | AnimationFrame _ | BeforeUnload => false
  | UncaughtError _ | UnhandledRejection _ | DeviceLost _ _ | UncapturedError _ => true
  end.

(** The frame counter counts the submitted command buffers, and the
    [n]-th of them was encoded when the counter was [n]. *)
Definition submitted_in_order (app0 app : App) : Prop :=
  buffers app = buffers app0 /\ bindGroups app = bindGroups app0
  /\ t app = N.of_nat (length (queue app))
  /\ forall (n : nat) cmd, queue app !! n = Some cmd ->
       computeBindGroup cmd = bindGroups app0 !! N.to_nat (N.of_nat n mod 2)
       /\ vertexBuffer0 cmd = buffers app0 !! N.to_nat ((N.of_nat n + 1) mod 2).

End Boids.

(** ** Sample inputs *)

Module Samples.

(** The sprite shader of the flocking demo, reduced to its signatures. *)
Definition shader_012 : jsstring := js
"@vertex
fn vert_main(
  @location(0) a_particlePos : vec2f,
  @location(1) a_particleVel : vec2f,
  @location(2) a_pos : vec2f
) -> VertexOutput {
}
@fragment
fn frag_main(@location(4) color : vec4f) -> @location(0) vec4f {
}".

(** One attribute more than the factory's convention. *)
Definition shader_0123 : jsstring := js
"@vertex
fn vert_main(
  @location(0) a_particlePos : vec2f,
  @location(1) a_particleVel : vec2f,
  @location(2) a_pos : vec2f,
  @location(3) a_color : vec4f
) -> VertexOutput {
}
@fragment
fn frag_main(@location(4) color : vec4f) -> @location(0) vec4f {
}".

(** Location 0 declared twice. *)
Definition shader_0012 : jsstring := js
"@vertex
fn vert_main(
  @location(0) a_particlePos : vec2f,
  @location(0) a_particleOld : vec2f,
  @location(1) a_particleVel : vec2f,
  @location(2) a_pos : vec2f
) -> VertexOutput {
}
@fragment
fn frag_main(@location(4) color : vec4f) -> @location(0) vec4f {
}".

(** A generic type spelling: the scanner keeps the name up to the bracket. *)
Definition shader_generic : jsstring := js
"@vertex
fn vert_main(@location(0) a_pos : vec2<f32>) -> @builtin(position) vec4f {
}".

Definition shader_compute : jsstring := js
"@compute @workgroup_size(64)
fn main(@builtin(global_invocation_id) id : vec3u) {
}".

(** A loader that serves [code] and a device that accepts every request. *)
Definition device (code : jsstring) : Device :=
  {| loadShaderFromFile := fun _ => Ok code;
     createShaderModule := fun _ => Ok 1%positive;
     createComputePipelineAsync := fun _ => Ok 2%positive;
     createRenderPipeline := fun _ => Ok 3%positive |}.

Definition spriteVertices : list N := [1; 2; 3; 4; 5; 6].
Definition simParams : list N := [1; 2; 3; 4; 5; 6; 7].
Definition seed : list N := [10; 11; 12; 13; 20; 21; 22; 23].

End Samples.

(** ** Heaps the modelled device can reach *)

Module HeapInv.

(** Handles are handed out in increasing order: every live buffer has a
    handle below the next fresh one. *)
Definition heap_ok (h : Heap) : Prop :=
  forall k b, Gpu.buffers h !! k = Some b -> (k < fresh h)%positive.

(** The operations host code performs on buffers. *)
Inductive Op :=
| Create (size usage : N) (mappedAtCreation : bool)
| SetMapped (buf : positive) (data : list N)
| Write (buf : positive) (data : list N)
| Unmap (buf : positive)
| Destroy (buf : positive).

(** One operation; an operation that throws leaves the heap as it was. *)
Definition apply (h : Heap) (op : Op) : Heap :=
  match op with
  | Create sz us m =>
      match createBuffer sz us m h with Ok (_, h') => h' | Throw _ => h end
  | SetMapped buf data =>
      match setMappedRange buf data h with Ok (_, h') => h' | Throw _ => h end
  | Write buf data =>
      match writeBuffer buf data h with Ok (_, h') => h' | Throw _ => h end
  | Unmap buf =>
      match unmap buf h with Ok (_, h') => h' | Throw _ => h end
  | Destroy buf => destroy buf h
  end.

Definition after (ops : list Op) (h : Heap) : Heap := List.fold_left apply ops h.

End HeapInv.

(** ** The flocking demo: the start of [init] *)

Module BoidsInit.

(** [validateBuffers(buffers)]: the message of the error it throws, if any. *)
Definition validateBuffers (buffers : list BufferLayout) : option jsstring :=
  if (length buffers =? 0)%nat then Some (js "Render pipeline buffers not initialized")
  else None.

End BoidsInit.

(** ** The hard-coded flocking demo: bind groups and frame loop *)

Module HardcodeLoop.

Definition numParticles : N := 1500.

(** The body of the loop that fills [particleBindGroups]. *)
Definition particleBindGroup (simParamBuffer : positive) (buffers : list positive) (i : N) : BindGroup :=
  {| entries :=
       [ {| binding := 0; resource := Some simParamBuffer |};
         {| binding := 1; resource := buffers !! N.to_nat i |};
         {| binding := 2; resource := buffers !! N.to_nat ((i + 1) mod 2) |} ] |}.

Definition particleBindGroups (simParamBuffer : positive) (buffers : list positive) : list BindGroup :=
  [ particleBindGroup simParamBuffer buffers 0; particleBindGroup simParamBuffer buffers 1 ].

Record Page := {
  t : N;
  particleBuffers : list positive;
  bindGroups : list BindGroup;
  spriteVertexBuffer : positive;
  pending : bool;                 (* a frame callback is requested and has not run *)
  queue : list CommandBuffer      (* device.queue.submit, in order *)
}.

Definition encode (p : Page) : CommandBuffer :=
  {| computeBindGroup := bindGroups p !! N.to_nat (t p mod 2);
     workgroups := (numParticles + 63) / 64;
     vertexBuffer0 := particleBuffers p !! N.to_nat ((t p + 1) mod 2);
     vertexBuffer1 := Some (spriteVertexBuffer p);
     drawVertices := 3;
     drawInstances := numParticles |}.

(** The callback [frame]; [throws] says whether one of its device calls
    throws.  There is no guard and no handler: an exception leaves the
    callback before anything is submitted or requested. *)
Definition frame (throws : bool) (p : Page) : Page :=
  if throws then
    {| t := t p; particleBuffers := particleBuffers p; bindGroups := bindGroups p;
       spriteVertexBuffer := spriteVertexBuffer p; pending := false; queue := queue p |}
  else
    {| t := t p + 1; particleBuffers := particleBuffers p; bindGroups := bindGroups p;
       spriteVertexBuffer := spriteVertexBuffer p; pending := true;
       queue := queue p ++ [encode p] |}.

(** The host runs the callback only when one is requested. *)
Definition resume (p : Page) (throws : bool) : Page :=
  if pending p then frame throws p else p.

Definition run (faults : list bool) (p : Page) : Page := List.fold_left resume faults p.

(** [init] from the sprite buffer on, up to the first
    "requestAnimationFrame(frame)". *)
Definition setup (vertexBufferData simParams initialParticleData : list N) : GPU Page :=
  sprite ← createBuffer (4 * N.of_nat (length vertexBufferData)) VERTEX true;
  _ ← setMappedRange sprite vertexBufferData;
  _ ← unmap sprite;
  simParam ← createBuffer (7 * 4) (N.lor UNIFORM COPY_DST) false;
  _ ← writeBuffer simParam simParams;
  bufs ← BoidsHardcode.particleBuffers initialParticleData;
  mret {| t := 0; particleBuffers := bufs;
          bindGroups := particleBindGroups simParam bufs;
          spriteVertexBuffer := sprite; pending := true; queue := [] |}.

End HardcodeLoop.

(** ** The cellular-automaton demo: bind groups and frame loop *)

Module LifeLoop.

Definition gridSize : N := 64.

(** "array[i]" with a number that need not be a valid index. *)
Definition index {A} (l : list A) (i : Z) : option A :=
  if (i <? 0)%Z then None else l !! Z.to_nat i.

Record Command := {
  bindGroup : option BindGroup;        (* setBindGroup(0, ...) of the compute pass *)
  workgroupsX : N;
  workgroupsY : N;
  cellVertexBuffer : option positive;  (* setVertexBuffer(0, ...) of the render pass *)
  squareVertexBuffer : positive;       (* setVertexBuffer(1, ...) *)
  vertices : N;
  instances : N
}.

Definition bindGroups (sizeBuffer : positive) (cellBuffers : list positive) : list BindGroup :=
  [ {| entries := [ {| binding := 0; resource := Some sizeBuffer |};
                    {| binding := 1; resource := cellBuffers !! 0%nat |};
                    {| binding := 2; resource := cellBuffers !! 1%nat |} ] |};
    {| entries := [ {| binding := 0; resource := Some sizeBuffer |};
                    {| binding := 1; resource := cellBuffers !! 1%nat |};
                    {| binding := 2; resource := cellBuffers !! 0%nat |} ] |} ].

Record Page := {
  step : Z;
  cellBuffers : list positive;
  groups : list BindGroup;
  squareBuffer : positive;
  pending : bool;
  queue : list Command
}.

(** "step % 2": the remainder has the sign of [step]. *)
Definition encode (p : Page) : Command :=
  {| bindGroup := index (groups p) (Z.rem (step p) 2);
     workgroupsX := gridSize / 8;
     workgroupsY := gridSize / 8;
     cellVertexBuffer := index (cellBuffers p) (Z.rem (step p) 2);
     squareVertexBuffer := squareBuffer p;
     vertices := 4;
     instances := gridSize * gridSize |}.

(** The callback [frame]; no guard and no handler here either. *)
Definition frame (throws : bool) (p : Page) : Page :=
  if throws then
    {| step := step p; cellBuffers := cellBuffers p; groups := groups p;
       squareBuffer := squareBuffer p; pending := false; queue := queue p |}
  else
    {| step := (1 - step p)%Z; cellBuffers := cellBuffers p; groups := groups p;
       squareBuffer := squareBuffer p; pending := true; queue := queue p ++ [encode p] |}.

Definition resume (p : Page) (throws : bool) : Page :=
  if pending p then frame throws p else p.

Definition run (faults : list bool) (p : Page) : Page := List.fold_left resume faults p.

(** [init] from the cell buffers on, up to the first
    "requestAnimationFrame(frame)". *)
Definition setup (cellData squareVertices : list N) : GPU Page :=
  cells ← GameOfLife.cellBuffers cellData;
  sizeBuffer ← createBuffer 8 (N.lor STORAGE COPY_DST) false;
  _ ← writeBuffer sizeBuffer [gridSize; gridSize];
  uniformBuffer ← createBuffer 8 (N.lor UNIFORM COPY_DST) true;
  _ ← setMappedRange uniformBuffer [gridSize; gridSize];
  _ ← unmap uniformBuffer;
  square ← createBuffer (4 * N.of_nat (length squareVertices)) VERTEX true;
  _ ← setMappedRange square squareVertices;
  _ ← unmap square;
  mret {| step := 0; cellBuffers := cells; groups := bindGroups sizeBuffer cells;
          squareBuffer := square; pending := true; queue := [] |}.

End LifeLoop.

(** ** Notions used to state properties of the loops *)

Module LoopSpec.

(** A buffer after [destroy]. *)
Definition released (b : Buffer) : Buffer :=
  {| size := size b; usage := usage b; mapped := false; destroyed := true;
     contents := contents b |}.

(** The number of frames that run before the first one that throws. *)
Fixpoint frames_before_fault (faults : list bool) : nat :=
  match faults with
  | false :: faults' => S (frames_before_fault faults')
  | _ => 0%nat
  end.

End LoopSpec.

(** ** Notions used to state properties of the scanners and the loops *)

(** What the parameter pattern of [parseShaderLocations] lets through. *)
Definition well_formed_attribute (a : VertexAttribute) : Prop :=
  (exists c tl, name a = c :: tl /\ is_ident_start c = true /\ forallb is_word tl = true)
  /\ type a <> [] /\ forallb is_word (type a) = true
  /\ bytesPerElement a = typeToSize (type a).

(** The attributes declared at one location, in their order. *)
Definition at_location (x : N) (l : list VertexAttribute) : list VertexAttribute :=
  List.filter (fun a => location a =? x) l.

(** The invariant of the hard-coded flocking loop: what is in the queue at
    position [n] was encoded with counter [n]. *)
Definition hardcode_in_order (p0 p : HardcodeLoop.Page) : Prop :=
  HardcodeLoop.particleBuffers p = HardcodeLoop.particleBuffers p0
  /\ HardcodeLoop.bindGroups p = HardcodeLoop.bindGroups p0
  /\ HardcodeLoop.t p = N.of_nat (length (HardcodeLoop.queue p))
  /\ forall (n : nat) cmd, HardcodeLoop.queue p !! n = Some cmd ->
       computeBindGroup cmd = HardcodeLoop.bindGroups p0 !! N.to_nat (N.of_nat n mod 2)
       /\ vertexBuffer0 cmd
          = HardcodeLoop.particleBuffers p0 !! N.to_nat ((N.of_nat n + 1) mod 2).

(** The invariant of the cellular-automaton loop. *)
Definition life_in_order (p0 p : LifeLoop.Page) : Prop :=
  LifeLoop.cellBuffers p = LifeLoop.cellBuffers p0
  /\ LifeLoop.groups p = LifeLoop.groups p0
  /\ LifeLoop.step p = Z.of_N (N.of_nat (length (LifeLoop.queue p)) mod 2)
  /\ forall (n : nat) cmd, LifeLoop.queue p !! n = Some cmd ->
       LifeLoop.bindGroup cmd = LifeLoop.groups p0 !! N.to_nat (N.of_nat n mod 2)
       /\ LifeLoop.cellVertexBuffer cmd
          = LifeLoop.cellBuffers p0 !! N.to_nat (N.of_nat n mod 2).

(** * Properties *)

(** ** Scanning *)

Lemma search_weaken {A B} (m : jsstring -> option A) (m' : jsstring -> option B) s :
  (forall u, is_Some (m u) -> is_Some (m' u)) ->
  is_Some (search m s) -> is_Some (search m' s).
Proof.
  intros H. induction s as [|c s IH]; simpl.
  - destruct (m []) eqn:E; intros [x Hx]; [|discriminate].
    destruct (H []) as [y Hy]; [rewrite E; eauto|]. rewrite Hy. eauto.
  - destruct (m (c :: s)) eqn:E.
    + intros _. destruct (H (c :: s)) as [y Hy]; [rewrite E; eauto|]. rewrite Hy. eauto.
    + intros Hs. destruct (m' (c :: s)); eauto.
Qed.

(** A match of a pattern that starts with a literal puts the literal in
    the text. *)
Lemma search_marker {A} (lit : jsstring) (k : jsstring -> option A) s :
  is_Some (search (fun u => u1 ← strip_prefix lit u; k u1) s) ->
  contains lit s = true.
Proof.
  intros H. unfold contains.
  apply (search_weaken _ (fun t => strip_prefix lit t)) in H.
  - destruct H as [x ->]. reflexivity.
  - intros u [x Hx]. destruct (strip_prefix lit u); eauto. discriminate.
Qed.

Lemma no_marker_no_match {A} (lit : jsstring) (k : jsstring -> option A) s :
  contains lit s = false ->
  search (fun u => u1 ← strip_prefix lit u; k u1) s = None.
Proof.
  intros H. destruct (search _ s) eqn:E; [|reflexivity].
  rewrite (search_marker lit k) in H; [discriminate|]. rewrite E. eauto.
Qed.

(** ** Entry points *)

Lemma parseEntryPoints_compute code :
  parseEntryPoints code (js "compute") =
  match search compute_fn code with
  | Some name => Ok {| vertex := None; fragment := None; compute := Some name |}
  | None => Throw MissingComputeEntryPoint
  end.
Proof.
  unfold parseEntryPoints.
  replace (eqb_js (js "compute") (js "render")) with false by reflexivity.
  replace (eqb_js (js "compute") (js "compute")) with true by reflexivity.
  destruct (search compute_fn code); reflexivity.
Qed.

Lemma parseEntryPoints_render code :
  parseEntryPoints code (js "render") =
  match search (marked_fn (js "@vertex")) code, search (marked_fn (js "@fragment")) code with
  | Some v, Some f => Ok {| vertex := Some v; fragment := Some f; compute := None |}
  | _, _ => Throw MissingRenderEntryPoints
  end.
Proof.
  unfold parseEntryPoints.
  replace (eqb_js (js "render") (js "render")) with true by reflexivity.
  replace (eqb_js (js "render") (js "compute")) with false by reflexivity.
  destruct (search (marked_fn (js "@vertex")) code) eqn:Ev;
    destruct (search (marked_fn (js "@fragment")) code) eqn:Ef; reflexivity.
Qed.

(** The marker alone is not an entry point: the pattern also wants the
    function name that follows it. *)
Lemma parseEntryPoints_marker_without_function :
  parseEntryPoints (js "@compute @workgroup_size(64)") (js "compute")
  = Throw MissingComputeEntryPoint.
Proof. reflexivity. Qed.

(** C5. [parseEntryPoints] throws the missing-entry-point error exactly
    when the requested kind has no entry point to extract: a compute source
    without the "@compute" marker throws, a render source without the
    "@vertex" or without the "@fragment" marker throws, and for either kind
    the call throws if and only if a stage pattern of that kind has no
    match; otherwise it returns the names the patterns captured, and only
    those of the requested kind. *)
Theorem C5_entry_points_or_MissingEntryPoint :
  (forall code, contains (js "@compute") code = false ->
     parseEntryPoints code (js "compute") = Throw MissingComputeEntryPoint)
  /\ (forall code,
        contains (js "@vertex") code = false \/ contains (js "@fragment") code = false ->
        parseEntryPoints code (js "render") = Throw MissingRenderEntryPoints)
  /\ (forall code,
        match parseEntryPoints code (js "compute") with
        | Throw e => is_MissingEntryPoint e = true /\ search compute_fn code = None
        | Ok entries =>
            vertex entries = None /\ fragment entries = None
            /\ is_Some (compute entries) /\ compute entries = search compute_fn code
        end)
  /\ (forall code,
        match parseEntryPoints code (js "render") with
        | Throw e =>
            is_MissingEntryPoint e = true
            /\ (search (marked_fn (js "@vertex")) code = None
                \/ search (marked_fn (js "@fragment")) code = None)
        | Ok entries =>
            compute entries = None
            /\ is_Some (vertex entries) /\ is_Some (fragment entries)
            /\ vertex entries = search (marked_fn (js "@vertex")) code
            /\ fragment entries = search (marked_fn (js "@fragment")) code
        end).
Proof.
  repeat split.
  - intros code H. rewrite parseEntryPoints_compute.
    unfold compute_fn. rewrite no_marker_no_match by exact H. reflexivity.
  - intros code H. rewrite parseEntryPoints_render. unfold marked_fn.
    destruct H as [H|H].
    + rewrite (no_marker_no_match (js "@vertex")) by exact H. reflexivity.
    + rewrite (no_marker_no_match (js "@fragment")) by exact H.
      destruct (search _ code); reflexivity.
  - intros code. rewrite parseEntryPoints_compute.
    destruct (search compute_fn code); simpl; eauto 10.
  - intros code. rewrite parseEntryPoints_render.
    destruct (search (marked_fn (js "@vertex")) code);
      destruct (search (marked_fn (js "@fragment")) code); simpl; eauto 10.
Qed.

Lemma C5_entry_points_witness :
  parseEntryPoints [] (js "compute") = Throw MissingComputeEntryPoint
  /\ parseEntryPoints Samples.shader_compute (js "render") = Throw MissingRenderEntryPoints
  /\ parseEntryPoints Samples.shader_compute (js "compute")
     = Ok {| vertex := None; fragment := None; compute := Some (js "main") |}
  /\ parseEntryPoints Samples.shader_012 (js "render")
     = Ok {| vertex := Some (js "vert_main"); fragment := Some (js "frag_main");
             compute := None |}.
Proof.
  destruct C5_entry_points_or_MissingEntryPoint as (Hc & Hr & _ & _).
  split; [apply Hc; reflexivity|].
  split; [apply Hr; left; reflexivity|].
  split; vm_compute; reflexivity.
Defined.

(** ** Buffer layouts *)

Lemma includes_In (l : list N) (x : N) : includes l x = true <-> In x l.
Proof.
  unfold includes. rewrite existsb_exists. split.
  - intros (y & Hy & E). apply N.eqb_eq in E. congruence.
  - intros H. exists x. split; [exact H|apply N.eqb_refl].
Qed.

Lemma validation_spec locations :
  forallb (includes (List.map location locations)) expectedLocations = true
  <-> passes_validation locations.
Proof.
  unfold passes_validation. rewrite forallb_forall.
  split; intros H x Hx; apply includes_In; auto.
Qed.

Lemma generateBufferLayouts_accepts locations :
  passes_validation locations ->
  generateBufferLayouts locations = Ok [instanceBuffer locations; vertexBuffer].
Proof.
  intros H. apply validation_spec in H. unfold generateBufferLayouts. rewrite H. reflexivity.
Qed.

Lemma generateBufferLayouts_rejects locations :
  ~ passes_validation locations ->
  generateBufferLayouts locations = Throw (UnsupportedVertexLayout (List.map location locations)).
Proof.
  intros H. unfold generateBufferLayouts.
  destruct (forallb _ expectedLocations) eqn:E; [|reflexivity].
  apply validation_spec in E. contradiction.
Qed.

Lemma generateBufferLayouts_inv locations layouts :
  generateBufferLayouts locations = Ok layouts ->
  passes_validation locations /\ layouts = [instanceBuffer locations; vertexBuffer].
Proof.
  unfold generateBufferLayouts.
  destruct (forallb _ expectedLocations) eqn:E; simpl; [|discriminate].
  intros [= <-]. split; [apply validation_spec; exact E|reflexivity].
Qed.

Lemma instance_locations locations :
  List.map shaderLocation (attributes (instanceBuffer locations))
  = List.filter (fun x => x <? 2) (List.map location locations).
Proof.
  unfold instanceBuffer; simpl.
  induction locations as [|a l IH]; simpl; [reflexivity|].
  destruct (location a <? 2); simpl; rewrite IH; reflexivity.
Qed.

Lemma instance_attributes_shape locations a :
  In a (attributes (instanceBuffer locations)) ->
  format a = js "float32x2" /\ offset a = shaderLocation a * 8 /\ shaderLocation a < 2.
Proof.
  unfold instanceBuffer; simpl. rewrite in_map_iff.
  intros (v & <- & Hv). apply filter_In in Hv as [_ Hv]. apply N.ltb_lt in Hv.
  simpl. auto.
Qed.

(** C1. The validation of [generateBufferLayouts] only asks that 0, 1 and 2
    are all declared: the sample shader that declares locations 0, 1, 2 and
    3 is not rejected, and [createPipeline] registers layouts for it. *)
Theorem C1_superset_of_locations_accepted :
  List.map location (parseShaderLocations Samples.shader_0123) = [0; 1; 2; 3]
  /\ generateBufferLayouts (parseShaderLocations Samples.shader_0123)
     = Ok [ {| arrayStride := 16; stepMode := js "instance";
               attributes :=
                 [ {| shaderLocation := 0; offset := 0; format := js "float32x2" |};
                   {| shaderLocation := 1; offset := 8; format := js "float32x2" |} ] |};
            vertexBuffer ]
  /\ fst (createPipeline (Samples.device Samples.shader_0123)
            (js "render") (js "./boids_sprite.wgsl") (js "bgra8unorm") ∅)
     = Ok 3%positive.
Proof. vm_compute. auto. Qed.



Lemma instance_attributes_eq locations :
  attributes (instanceBuffer locations)
  = List.map instanceAttribute (List.filter (fun x => x <? 2) (List.map location locations)).
Proof.
  unfold instanceBuffer; simpl.
  induction locations as [|a l IH]; simpl; [reflexivity|].
  destruct (location a <? 2); simpl; rewrite IH; reflexivity.
Qed.

Lemma instanceBuffer_eq locations :
  instanceBuffer locations
  = {| arrayStride := 16; stepMode := js "instance";
       attributes :=
         List.map instanceAttribute
           (List.filter (fun x => x <? 2) (List.map location locations)) |}.
Proof.
  rewrite <- instance_attributes_eq. reflexivity.
Qed.

Lemma generateBufferLayouts_locations l1 l2 :
  List.map location l1 = List.map location l2 ->
  generateBufferLayouts l1 = generateBufferLayouts l2.
Proof.
  intros E. unfold generateBufferLayouts. rewrite E.
  destruct (forallb _ _); simpl; [|reflexivity].
  rewrite !instanceBuffer_eq, E. reflexivity.
Qed.

Lemma filter_above (xs : list N) :
  Forall (N.lt 1) xs -> List.filter (fun x => x <? 2) xs = [].
Proof.
  induction 1 as [|x xs Hx _ IH]; simpl; [reflexivity|].
  destruct (N.ltb_spec x 2); [lia|exact IH].
Qed.

Lemma ascending_prefix (xs : list N) :
  StronglySorted N.lt xs -> In 0 xs -> In 1 xs ->
  List.filter (fun x => x <? 2) xs = [0; 1].
Proof.
  intros Hs H0 H1.
  destruct xs as [|a xs]; [contradiction|].
  apply StronglySorted_inv in Hs as [Hs Ha].
  assert (a = 0) as ->.
  { destruct H0 as [|H0]; [assumption|].
    rewrite List.Forall_forall in Ha. apply Ha in H0. lia. }
  destruct H1 as [H1|H1]; [discriminate|].
  destruct xs as [|b xs]; [contradiction|].
  apply StronglySorted_inv in Hs as [Hs Hb].
  assert (b = 1) as ->.
  { apply Forall_inv in Ha.
    destruct H1 as [|H1]; [assumption|].
    rewrite List.Forall_forall in Hb. apply Hb in H1. lia. }
  simpl. rewrite filter_above; [reflexivity|assumption].
Qed.

Lemma ascending_layouts locations :
  StronglySorted N.lt (List.map location locations) ->
  passes_validation locations ->
  generateBufferLayouts locations = Ok fixedLayouts.
Proof.
  intros Hs Hp. rewrite generateBufferLayouts_accepts by assumption.
  rewrite instanceBuffer_eq, ascending_prefix; [reflexivity|assumption|..];
    apply Hp; simpl; auto.
Qed.

(** The stable sort of [parseShaderLocations]. *)
Lemma insert_by_location_In a l x :
  In x (insert_by_location a l) <-> x = a \/ In x l.
Proof.
  induction l as [|b l IH]; simpl; [intuition auto|].
  destruct (location a <=? location b); simpl; [intuition auto|].
  rewrite IH. intuition auto.
Qed.

Lemma sort_by_location_In l x : In x (sort_by_location l) <-> In x l.
Proof.
  induction l as [|a l IH]; simpl; [reflexivity|].
  rewrite insert_by_location_In, IH. intuition auto.
Qed.

Lemma insert_by_location_sorted a l :
  StronglySorted N.le (List.map location l) ->
  StronglySorted N.le (List.map location (insert_by_location a l)).
Proof.
  induction l as [|b l IH]; simpl; intros Hs.
  - constructor; constructor.
  - destruct (N.leb_spec (location a) (location b)) as [Hab|Hab]; simpl.
    + constructor; [exact Hs|].
      apply StronglySorted_inv in Hs as [_ Hb].
      constructor; [exact Hab|].
      eapply List.Forall_impl; [|exact Hb]. simpl. intros; lia.
    + apply StronglySorted_inv in Hs as [Hs Hb].
      constructor; [auto|].
      rewrite List.Forall_forall in *. intros x Hx.
      apply in_map_iff in Hx as (v & <- & Hv).
      apply insert_by_location_In in Hv as [->|Hv]; [lia|].
      apply Hb, in_map. exact Hv.
Qed.

Lemma sort_by_location_sorted l :
  StronglySorted N.le (List.map location (sort_by_location l)).
Proof.
  induction l as [|a l IH]; simpl; [constructor|].
  apply insert_by_location_sorted, IH.
Qed.

Lemma parseShaderLocations_sorted code :
  StronglySorted N.le (List.map location (parseShaderLocations code)).
Proof.
  unfold parseShaderLocations. destruct (vertexFnMatch code); [|constructor].
  apply sort_by_location_sorted.
Qed.

Lemma sorted_NoDup_ascending (xs : list N) :
  StronglySorted N.le xs -> List.NoDup xs -> StronglySorted N.lt xs.
Proof.
  induction 1 as [|x xs Hs IH Hx]; intros Hnd; [constructor|].
  inversion Hnd as [|? ? Hin Hnd']; subst.
  constructor; [auto|].
  rewrite List.Forall_forall in *. intros y Hy.
  specialize (Hx y Hy). assert (x <> y) by congruence. lia.
Qed.

(** C9, as the code has it.  The layouts are a function of the sequence of
    declared locations (names and types play no part); whenever layouts are
    produced they are an instance stream whose attributes are float32x2 at
    offset location * 8 followed by the one fixed vertex stream, float32x2
    at offset 0; and all attribute lists with pairwise distinct locations in
    ascending order that pass validation get the same fixed pair, which is
    what every shader text without a repeated location gets. *)
Theorem C9_layouts_from_locations_only :
  (forall l1 l2, List.map location l1 = List.map location l2 ->
     generateBufferLayouts l1 = generateBufferLayouts l2)
  /\ (forall l layouts, generateBufferLayouts l = Ok layouts ->
        exists instanceStream,
          layouts = [instanceStream; vertexBuffer]
          /\ (forall a, In a (attributes instanceStream) ->
                format a = js "float32x2" /\ offset a = shaderLocation a * 8)
          /\ attributes vertexBuffer
             = [ {| shaderLocation := 2; offset := 0; format := js "float32x2" |} ])
  /\ (forall l1 l2,
        StronglySorted N.lt (List.map location l1) ->
        StronglySorted N.lt (List.map location l2) ->
        passes_validation l1 -> passes_validation l2 ->
        generateBufferLayouts l1 = Ok fixedLayouts
        /\ generateBufferLayouts l2 = Ok fixedLayouts)
  /\ (forall code,
        List.NoDup (List.map location (parseShaderLocations code)) ->
        passes_validation (parseShaderLocations code) ->
        generateBufferLayouts (parseShaderLocations code) = Ok fixedLayouts).
Proof.
  split; [exact generateBufferLayouts_locations|].
  split.
  { intros l layouts H. apply generateBufferLayouts_inv in H as [_ ->].
    exists (instanceBuffer l). split; [reflexivity|].
    split; [|reflexivity].
    intros a Ha. apply instance_attributes_shape in Ha. tauto. }
  split.
  { intros l1 l2 H1 H2 P1 P2. split; apply ascending_layouts; assumption. }
  intros code Hnd Hp. apply ascending_layouts; [|exact Hp].
  apply sorted_NoDup_ascending; [apply parseShaderLocations_sorted|exact Hnd].
Qed.

Lemma C9_layouts_witness :
  generateBufferLayouts (parseShaderLocations Samples.shader_012) = Ok fixedLayouts
  /\ generateBufferLayouts (parseShaderLocations Samples.shader_0123) = Ok fixedLayouts.
Proof.
  destruct C9_layouts_from_locations_only as (_ & _ & Hfixed & _).
  apply (Hfixed (parseShaderLocations Samples.shader_012)
                (parseShaderLocations Samples.shader_0123)).
  - vm_compute. repeat constructor; reflexivity.
  - vm_compute. repeat constructor; reflexivity.
  - intros x Hx. vm_compute in Hx |- *. intuition auto.
  - intros x Hx. vm_compute in Hx |- *. intuition auto.
Defined.

(** C9, as stated, fails: the sample shader that declares location 0 twice
    passes validation as the plain one does, and gets a different layout
    list (three instance attributes instead of two). *)
Lemma C9_repeated_location_changes_layouts :
  passes_validation (parseShaderLocations Samples.shader_012)
  /\ passes_validation (parseShaderLocations Samples.shader_0012)
  /\ generateBufferLayouts (parseShaderLocations Samples.shader_012) = Ok fixedLayouts
  /\ generateBufferLayouts (parseShaderLocations Samples.shader_0012)
     = Ok [ {| arrayStride := 16; stepMode := js "instance";
               attributes := [instanceAttribute 0; instanceAttribute 0; instanceAttribute 1] |};
            vertexBuffer ]
  /\ generateBufferLayouts (parseShaderLocations Samples.shader_012)
     <> generateBufferLayouts (parseShaderLocations Samples.shader_0012).
Proof.
  split; [intros x Hx; vm_compute in Hx |- *; intuition auto|].
  split; [intros x Hx; vm_compute in Hx |- *; intuition auto|].
  split; [vm_compute; reflexivity|].
  split; [vm_compute; reflexivity|].
  vm_compute. discriminate.
Qed.

(** ** Attribute types *)

Lemma own_property_None obj key :
  ~ In key (List.map fst obj) -> own_property obj key = None.
Proof.
  induction obj as [|[k v] obj IH]; simpl; intros H; [reflexivity|].
  unfold eqb_js. rewrite bool_decide_eq_false_2 by tauto. apply IH. tauto.
Qed.

Lemma not_inherited key :
  ~ In key Object_prototype -> existsb (eqb_js key) Object_prototype = false.
Proof.
  intros H. destruct (existsb _ _) eqn:E; [|reflexivity].
  apply existsb_exists in E as (k & Hk & E).
  apply bool_decide_eq_true_1 in E. subst. contradiction.
Qed.

Lemma get_unknown obj key :
  ~ In key (List.map fst obj) -> ~ In key Object_prototype -> get obj key = VUndefined.
Proof.
  intros Ho Hp. unfold get. rewrite own_property_None, not_inherited by assumption.
  reflexivity.
Qed.

Lemma scan_params_size skip s a :
  In a (scan_params skip s) -> bytesPerElement a = typeToSize (type a).
Proof.
  revert skip. induction s as [|c s IH]; intros skip; simpl; [contradiction|].
  destruct skip as [|k]; [|apply IH].
  destruct (param_decl (c :: s)) as [[[[digits nm] ty] rest]|]; [|apply IH].
  intros [<-|H]; [reflexivity|]. eapply IH, H.
Qed.

Lemma parseShaderLocations_size code a :
  In a (parseShaderLocations code) -> bytesPerElement a = typeToSize (type a).
Proof.
  unfold parseShaderLocations. destruct (vertexFnMatch code); [|contradiction].
  rewrite sort_by_location_In. apply scan_params_size.
Qed.

(** A table is an object literal: a type spelled like a member of
    [Object.prototype] finds that member, which is truthy. *)
Lemma typeToFormat_inherited_member :
  typeToFormat (js "constructor") = VBuiltin (js "constructor")
  /\ typeToSize (js "toString") = VBuiltin (js "toString").
Proof. split; reflexivity. Qed.

(** C4, as the code has it.  A type name that is in neither table (and is
    not the name of a member every object inherits) never makes
    introspection fail: [typeToFormat] maps it to float32, a 4-byte format,
    but the byte size [parseShaderLocations] records for the attribute is
    0. *)
Theorem C4_unrecognized_type_defaults (ty : jsstring) :
  ~ In ty (List.map fst typeMap) ->
  ~ In ty Object_prototype ->
  typeToFormat ty = VStr (js "float32")
  /\ formatSize (js "float32") = 4
  /\ typeToSize ty = VNum 0
  /\ (forall code a, In a (parseShaderLocations code) -> type a = ty ->
        bytesPerElement a = VNum 0).
Proof.
  intros Hty Hproto.
  assert (Hsize : typeToSize ty = VNum 0).
  { unfold typeToSize. rewrite get_unknown; [reflexivity| |assumption].
    intros H. apply Hty. simpl in H |- *. intuition auto. }
  split.
  { unfold typeToFormat. rewrite get_unknown by assumption. reflexivity. }
  split; [reflexivity|]. split; [exact Hsize|].
  intros code a Ha <-. rewrite (parseShaderLocations_size code) by assumption. exact Hsize.
Qed.

Lemma C4_unrecognized_type_witness :
  typeToFormat (js "vec2") = VStr (js "float32") /\ typeToSize (js "vec2") = VNum 0.
Proof.
  destruct (C4_unrecognized_type_defaults (js "vec2")) as (Hf & _ & Hs & _).
  - vm_compute. intuition discriminate.
  - vm_compute. intuition discriminate.
  - split; assumption.
Defined.

(** C4, as stated, fails: the attribute declared with the generic spelling
    has the unrecognized type name "vec2"; its format defaults to float32
    but the size recorded for it is 0, not 4. *)
Lemma C4_unrecognized_type_recorded_size_0 :
  exists a,
    parseShaderLocations Samples.shader_generic = [a]
    /\ location a = 0 /\ name a = js "a_pos" /\ type a = js "vec2"
    /\ ~ In (type a) (List.map fst typeMap)
    /\ typeToFormat (type a) = VStr (js "float32")
    /\ bytesPerElement a = VNum 0
    /\ bytesPerElement a <> VNum 4.
Proof.
  eexists. split; [vm_compute; reflexivity|].
  repeat split; try reflexivity.
  - vm_compute. intuition discriminate.
  - simpl. discriminate.
Qed.

(** ** The metadata side table *)

Lemma createPipeline_compute_registers device shaderPath presentationFormat table pipeline table' :
  createPipeline device (js "compute") shaderPath presentationFormat table = (Ok pipeline, table') ->
  table' = <[pipeline := {| md_type := js "compute"; md_buffers := None |}]> table.
Proof.
  unfold createPipeline, mbind, result_bind.
  destruct (loadShaderFromFile device shaderPath) as [code|]; [|discriminate].
  destruct (parseEntryPoints code (js "compute")) as [entries|]; [|discriminate].
  destruct (createShaderModule device _) as [shaderModule|]; [|discriminate].
  replace (eqb_js (js "compute") (js "compute")) with true by reflexivity.
  destruct (createComputePipelineAsync device _) as [p|]; [|discriminate].
  intros [= -> <-]. reflexivity.
Qed.

(** C10, as the code has it.  Both lookups are total functions.  For a
    pipeline that was never registered they return the empty list and
    'unknown'; for any pipeline registered without render metadata the
    buffer lookup returns the empty list; and a compute pipeline made by
    [createPipeline] is registered with its kind, so its type is reported
    as 'compute'. *)
Theorem C10_metadata_lookups_degrade :
  (forall (table : gmap positive Metadata) pipeline,
     table !! pipeline = None ->
     getPipelineBuffers table pipeline = [] /\ getPipelineType table pipeline = js "unknown")
  /\ (forall (table : gmap positive Metadata) pipeline md,
        table !! pipeline = Some md -> md_buffers md = None ->
        getPipelineBuffers table pipeline = [])
  /\ (forall device shaderPath presentationFormat table pipeline table',
        createPipeline device (js "compute") shaderPath presentationFormat table
        = (Ok pipeline, table') ->
        getPipelineBuffers table' pipeline = []
        /\ getPipelineType table' pipeline = js "compute").
Proof.
  split.
  { intros table p H. unfold getPipelineBuffers, getPipelineType. rewrite H. auto. }
  split.
  { intros table p md H Hb. unfold getPipelineBuffers. rewrite H, Hb. reflexivity. }
  intros device path fmt table p table' H.
  apply createPipeline_compute_registers in H as ->.
  unfold getPipelineBuffers, getPipelineType. rewrite lookup_insert_eq. auto.
Qed.

Lemma C10_metadata_lookups_witness :
  getPipelineBuffers ∅ 7%positive = [] /\ getPipelineType ∅ 7%positive = js "unknown".
Proof.
  destruct C10_metadata_lookups_degrade as (Hnone & _ & _).
  apply (Hnone ∅ 7%positive). reflexivity.
Defined.

(** C10, as stated, fails: the compute pipeline the factory creates for the
    sample compute shader is reported as 'compute', not 'unknown'. *)
Lemma C10_compute_pipeline_type_is_compute :
  exists table,
    createPipeline (Samples.device Samples.shader_compute)
      (js "compute") (js "./boids_update.wgsl") [] ∅ = (Ok 2%positive, table)
    /\ getPipelineBuffers table 2%positive = []
    /\ getPipelineType table 2%positive = js "compute"
    /\ getPipelineType table 2%positive <> js "unknown".
Proof.
  eexists. split; [reflexivity|].
  split; [reflexivity|]. split; [reflexivity|]. discriminate.
Qed.

(** ** Buffers: allocation and seeding *)

Lemma GPU_bind_ok {A B} (m : GPU A) (k : A -> GPU B) h a h' :
  m h = Ok (a, h') -> (m ≫= k) h = k a h'.
Proof. intros H. unfold mbind, GPU_bind. rewrite H. reflexivity. Qed.

Lemma GPU_bind_inv {A B} (m : GPU A) (k : A -> GPU B) h r :
  (m ≫= k) h = Ok r -> exists a h', m h = Ok (a, h') /\ k a h' = Ok r.
Proof.
  unfold mbind, GPU_bind. destruct (m h) as [[a h']|]; [eauto|discriminate].
Qed.

Lemma succ_ne (p : positive) : Pos.succ p <> p.
Proof. intros E. symmetry in E. revert E. apply Pos.succ_discr. Qed.

Ltac fresh_ne := first [ apply succ_ne | apply Pos.succ_discr ].

(** Two heaps that were updated at the keys [p] and [Pos.succ p] only are
    compared key by key. *)
Ltac heap_eq p :=
  apply map_eq; intros ?i;
  destruct (decide (i = Pos.succ p)) as [->|];
  [|destruct (decide (i = p)) as [->|]];
  repeat first
    [ rewrite lookup_alter_eq | rewrite lookup_insert_eq
    | rewrite lookup_alter_ne by first [fresh_ne | congruence]
    | rewrite lookup_insert_ne by first [fresh_ne | congruence] ];
  try reflexivity.

Lemma createBuffer_mapped n us h :
  createBuffer (4 * n) us true h = Ok (fresh h, allocated h (zeroed (4 * n) us true)).
Proof.
  unfold createBuffer. rewrite N.mul_comm, N.Div0.mod_mul. reflexivity.
Qed.

Lemma createBuffer_unmapped sz us h :
  createBuffer sz us false h = Ok (fresh h, allocated h (zeroed sz us false)).
Proof. reflexivity. Qed.

Lemma zeroed_contents n us m :
  contents (zeroed (4 * N.of_nat n) us m) = repeat 0 n.
Proof.
  simpl. rewrite N.mul_comm, N.div_mul by discriminate. rewrite Nat2N.id. reflexivity.
Qed.

Lemma setMappedRange_ok buf data h b :
  buffers h !! buf = Some b -> mapped b = true ->
  (length data <= length (contents b))%nat ->
  setMappedRange buf data h
  = Ok ((), {| fresh := fresh h;
               buffers := <[buf := {| size := size b; usage := usage b; mapped := true;
                                      destroyed := destroyed b;
                                      contents := data ++ drop (length data) (contents b) |}]>
                            (buffers h) |}).
Proof.
  intros Hb Hm Hlen. unfold setMappedRange. rewrite Hb, Hm. simpl.
  destruct (Nat.ltb_spec (length (contents b)) (length data)); [lia|reflexivity].
Qed.

Lemma overwrite_all (data : list N) :
  data ++ drop (length data) (repeat 0 (length data)) = data.
Proof.
  rewrite drop_ge by (rewrite repeat_length; lia). apply app_nil_r.
Qed.

(** Create mapped, fill, unmap: the new buffer holds exactly the data. *)
Lemma fill_new_buffer us data h :
  (createBuffer (4 * N.of_nat (length data)) us true ≫= fun buf =>
   setMappedRange buf data ≫= fun _ => unmap buf ≫= fun _ => mret buf) h
  = Ok (fresh h,
        allocated h {| size := 4 * N.of_nat (length data); usage := us; mapped := false;
                       destroyed := false; contents := data |}).
Proof.
  erewrite GPU_bind_ok by apply createBuffer_mapped.
  erewrite GPU_bind_ok.
  2:{ apply setMappedRange_ok with (b := zeroed (4 * N.of_nat (length data)) us true).
      - apply lookup_insert_eq.
      - reflexivity.
      - rewrite zeroed_contents, repeat_length. lia. }
  unfold mbind, GPU_bind, unmap, mret, GPU_ret, allocated. cbn [fresh buffers].
  rewrite insert_insert_eq, alter_insert_eq. cbn [size usage destroyed contents zeroed].
  rewrite N.mul_comm, N.div_mul by discriminate. rewrite Nat2N.id, overwrite_all.
  rewrite N.mul_comm. reflexivity.
Qed.

Lemma read_allocated h b : read (allocated h b) (fresh h) = Some (contents b).
Proof. unfold read, allocated; simpl. rewrite lookup_insert_eq. reflexivity. Qed.

Lemma read_allocated_older h b b' :
  read (allocated (allocated h b) b') (fresh h) = Some (contents b).
Proof.
  unfold read, allocated; simpl.
  rewrite lookup_insert_ne by fresh_ne.
  rewrite lookup_insert_eq. reflexivity.
Qed.

Lemma Boids_particleBuffers_spec data h :
  let stored := {| size := 4 * N.of_nat (length data);
                   usage := N.lor (N.lor (N.lor STORAGE VERTEX) COPY_DST) COPY_SRC;
                   mapped := false; destroyed := false; contents := data |} in
  Boids.particleBuffers data h
  = Ok ([fresh h; Pos.succ (fresh h)], allocated (allocated h stored) stored).
Proof.
  intros stored. unfold Boids.particleBuffers, Boids.newParticleBuffer.
  erewrite GPU_bind_ok by apply fill_new_buffer.
  erewrite GPU_bind_ok by apply fill_new_buffer.
  reflexivity.
Qed.

Lemma BoidsHardcode_particleBuffers_spec data h :
  let stored := {| size := 4 * N.of_nat (length data); usage := N.lor VERTEX STORAGE;
                   mapped := false; destroyed := false; contents := data |} in
  BoidsHardcode.particleBuffers data h
  = Ok ([fresh h; Pos.succ (fresh h)], allocated (allocated h stored) stored).
Proof.
  intros stored. unfold BoidsHardcode.particleBuffers.
  set (z := zeroed (4 * N.of_nat (length data)) (N.lor VERTEX STORAGE) true).
  erewrite GPU_bind_ok by apply createBuffer_mapped.
  erewrite GPU_bind_ok by apply createBuffer_mapped.
  pose proof (succ_ne (fresh h)) as Hne.
  erewrite GPU_bind_ok.
  2:{ apply setMappedRange_ok with (b := z).
      - unfold allocated; simpl. rewrite lookup_insert_ne by exact Hne. apply lookup_insert_eq.
      - reflexivity.
      - unfold z. rewrite zeroed_contents, repeat_length. lia. }
  erewrite GPU_bind_ok by reflexivity.
  erewrite GPU_bind_ok.
  2:{ apply setMappedRange_ok with (b := z).
      - unfold allocated; simpl. rewrite lookup_alter_ne by fresh_ne.
        rewrite lookup_insert_ne by fresh_ne. apply lookup_insert_eq.
      - reflexivity.
      - unfold z. rewrite zeroed_contents, repeat_length. lia. }
  erewrite GPU_bind_ok by reflexivity.
  unfold mret, GPU_ret, allocated, stored; cbn [fresh buffers].
  do 3 f_equal.
  unfold z. cbn [size usage destroyed mapped]. rewrite !zeroed_contents, !overwrite_all.
  heap_eq (fresh h).
Qed.

Lemma GameOfLife_cellBuffers_spec data h :
  let us := N.lor (N.lor STORAGE VERTEX) COPY_DST in
  GameOfLife.cellBuffers data h
  = Ok ([fresh h; Pos.succ (fresh h)],
        allocated
          (allocated h {| size := 4 * N.of_nat (length data); usage := us; mapped := false;
                          destroyed := false; contents := data |})
          {| size := 4 * N.of_nat (length data); usage := us; mapped := false;
             destroyed := false; contents := repeat 0 (length data) |}).
Proof.
  intros us. unfold GameOfLife.cellBuffers. fold us.
  set (z := zeroed (4 * N.of_nat (length data)) us true).
  erewrite GPU_bind_ok by apply createBuffer_mapped.
  erewrite GPU_bind_ok by apply createBuffer_unmapped.
  pose proof (succ_ne (fresh h)) as Hne.
  erewrite GPU_bind_ok.
  2:{ apply setMappedRange_ok with (b := z).
      - unfold allocated; simpl. rewrite lookup_insert_ne by exact Hne. apply lookup_insert_eq.
      - reflexivity.
      - unfold z. rewrite zeroed_contents, repeat_length. lia. }
  erewrite GPU_bind_ok by reflexivity.
  unfold mret, GPU_ret, allocated; cbn [fresh buffers].
  do 3 f_equal.
  unfold z. cbn [size usage destroyed mapped]. rewrite !zeroed_contents, !overwrite_all.
  heap_eq (fresh h).
  unfold zeroed. rewrite (N.mul_comm 4), N.div_mul by discriminate. rewrite Nat2N.id.
  reflexivity.
Qed.

Lemma capacity_allocated h b : capacity (allocated h b) (fresh h) = Some (size b).
Proof. unfold capacity, allocated; simpl. rewrite lookup_insert_eq. reflexivity. Qed.

Lemma capacity_allocated_older h b b' :
  capacity (allocated (allocated h b) b') (fresh h) = Some (size b).
Proof.
  unfold capacity, allocated; simpl.
  rewrite lookup_insert_ne by fresh_ne.
  rewrite lookup_insert_eq. reflexivity.
Qed.

(** C6, as the code has it.  For every seed (the byte capacity is four
    times its length) and whatever the device already holds, the flocking
    demo, in both of its versions, creates two distinct buffers of that
    capacity that both hold the seed; the cellular-automaton demo creates
    two distinct buffers of that capacity of which the first holds the seed
    and the second is left zero-filled. *)
Theorem C6_seed_written_to_the_state_buffers (seed : list N) (h : Heap) :
  (exists b0 b1 h',
     Boids.particleBuffers seed h = Ok ([b0; b1], h') /\ b0 <> b1
     /\ capacity h' b0 = Some (4 * N.of_nat (length seed))
     /\ capacity h' b1 = Some (4 * N.of_nat (length seed))
     /\ read h' b0 = Some seed /\ read h' b1 = Some seed)
  /\ (exists b0 b1 h',
        BoidsHardcode.particleBuffers seed h = Ok ([b0; b1], h') /\ b0 <> b1
        /\ capacity h' b0 = Some (4 * N.of_nat (length seed))
        /\ capacity h' b1 = Some (4 * N.of_nat (length seed))
        /\ read h' b0 = Some seed /\ read h' b1 = Some seed)
  /\ (exists b0 b1 h',
        GameOfLife.cellBuffers seed h = Ok ([b0; b1], h') /\ b0 <> b1
        /\ capacity h' b0 = Some (4 * N.of_nat (length seed))
        /\ capacity h' b1 = Some (4 * N.of_nat (length seed))
        /\ read h' b0 = Some seed /\ read h' b1 = Some (repeat 0 (length seed))).
Proof.
  split; [|split].
  - eexists _, _, _. split; [apply Boids_particleBuffers_spec|].
    split; [apply Pos.succ_discr|].
    rewrite capacity_allocated_older, capacity_allocated.
    rewrite read_allocated_older, read_allocated. auto.
  - eexists _, _, _. split; [apply BoidsHardcode_particleBuffers_spec|].
    split; [apply Pos.succ_discr|].
    rewrite capacity_allocated_older, capacity_allocated.
    rewrite read_allocated_older, read_allocated. auto.
  - eexists _, _, _. split; [apply GameOfLife_cellBuffers_spec|].
    split; [apply Pos.succ_discr|].
    rewrite capacity_allocated_older, capacity_allocated.
    rewrite read_allocated_older, read_allocated. auto.
Qed.

(** C6, as stated, fails: seeded with the single cell 1, the second cell
    buffer of the cellular-automaton demo holds 0. *)
Lemma C6_second_cell_buffer_not_seeded :
  exists h',
    GameOfLife.cellBuffers [1] empty_heap = Ok ([1%positive; 2%positive], h')
    /\ read h' 1%positive = Some [1]
    /\ read h' 2%positive = Some [0]
    /\ read h' 2%positive <> Some [1].
Proof.
  eexists. split; [reflexivity|].
  split; [reflexivity|]. split; [reflexivity|]. discriminate.
Qed.

(** ** The flocking demo: set-up, frames, failures *)

Import Boids.

Lemma setup_buffers sv sp seed h sprite simParam bufs groups h' :
  setup sv sp seed h = Ok (sprite, simParam, bufs, groups, h') ->
  exists b0 : positive,
    bufs = [b0; Pos.succ b0]
    /\ groups = particleBindGroups simParam bufs
    /\ read h' b0 = Some seed /\ read h' (Pos.succ b0) = Some seed.
Proof.
  unfold setup. intros H.
  apply GPU_bind_inv in H as (s & h1 & _ & H).
  apply GPU_bind_inv in H as (? & h2 & _ & H).
  apply GPU_bind_inv in H as (? & h3 & _ & H).
  apply GPU_bind_inv in H as (p & h4 & _ & H).
  apply GPU_bind_inv in H as (? & h5 & _ & H).
  apply GPU_bind_inv in H as (bs & h6 & Hb & H).
  rewrite Boids_particleBuffers_spec in Hb. injection Hb as <- <-.
  injection H as <- <- <- <- <-.
  exists (fresh h5). split; [reflexivity|]. split; [reflexivity|].
  rewrite read_allocated_older, read_allocated. auto.
Qed.

Lemma start_state sv sp seed app :
  start sv sp seed = Ok app ->
  exists (simParam b0 : positive),
    buffers app = [b0; Pos.succ b0]
    /\ bindGroups app = particleBindGroups simParam [b0; Pos.succ b0]
    /\ t app = 0 /\ queue app = [] /\ running app = true
    /\ read (heap app) b0 = Some seed /\ read (heap app) (Pos.succ b0) = Some seed.
Proof.
  unfold start, mbind, result_bind.
  destruct (setup sv sp seed empty_heap) as [[[[[sprite simParam] bufs] groups] h]|] eqn:E;
    [|discriminate].
  apply setup_buffers in E as (b0 & -> & -> & R0 & R1).
  intros [= <-]. exists simParam, b0. simpl. auto 10.
Qed.

Section Loop.

Variable fail : jsstring -> Channel.State -> Channel.State * exn.

Lemma handleCriticalError_again message app :
  errorOccurred app = true -> handleCriticalError fail message app = (app, None).
Proof. intros H. unfold handleCriticalError. rewrite H. reflexivity. Qed.

Lemma handleCriticalError_first message app :
  errorOccurred app = false ->
  let app' := fst (handleCriticalError fail message app) in
  errorOccurred app' = true /\ shouldContinueRendering app' = false
  /\ animationId app' = None
  /\ channel app' = fst (fail (js "Fatal error: " ++ message) (channel app))
  /\ queue app' = queue app /\ t app' = t app /\ nextHandle app' = nextHandle app
  /\ encoders app' = encoders app
  /\ buffers app' = buffers app /\ bindGroups app' = bindGroups app
  /\ snd (handleCriticalError fail message app)
     = Some (snd (fail (js "Fatal error: " ++ message) (channel app))).
Proof.
  intros H. unfold handleCriticalError. rewrite H.
  destruct (fail _ (channel app)) as [c e]. simpl. auto 12.
Qed.

(** What no handler ever touches, and what only a submitted frame moves. *)
Lemma handleCriticalError_frame_state message app :
  let app' := fst (handleCriticalError fail message app) in
  queue app' = queue app /\ t app' = t app /\ nextHandle app' = nextHandle app
  /\ encoders app' = encoders app
  /\ buffers app' = buffers app /\ bindGroups app' = bindGroups app
  /\ running app' = false.
Proof.
  destruct (errorOccurred app) eqn:E.
  - rewrite handleCriticalError_again by exact E. simpl.
    unfold running. rewrite E, andb_false_r. auto 10.
  - pose proof (handleCriticalError_first message app E) as H. simpl in H.
    destruct H as (He & Hs & _ & _ & Hq & Ht & Hn & Hc & Hb & Hg & _).
    simpl. unfold running. rewrite Hs. auto 10.
Qed.

Lemma frame_stopped fault app :
  running app = false -> frame fail fault app = (app, None).
Proof.
  unfold running, frame. intros H.
  destruct (shouldContinueRendering app), (errorOccurred app); try discriminate; reflexivity.
Qed.

Lemma frame_submits app :
  running app = true ->
  let app' := fst (frame fail None app) in
  queue app' = queue app ++ [encode app] /\ t app' = t app + 1
  /\ animationId app' = Some (nextHandle app) /\ nextHandle app' = nextHandle app + 1
  /\ encoders app' = encoders app + 1 /\ running app' = true
  /\ buffers app' = buffers app /\ bindGroups app' = bindGroups app
  /\ snd (frame fail None app) = None.
Proof.
  unfold running, frame. intros H.
  destruct (shouldContinueRendering app) eqn:Es, (errorOccurred app) eqn:Ee;
    try discriminate.
  simpl. unfold running. simpl. auto 10.
Qed.

Lemma frame_throws app s message :
  running app = true ->
  let app' := fst (frame fail (Some (s, message)) app) in
  queue app' = queue app /\ t app' = t app /\ running app' = false
  /\ errorOccurred app' = true /\ animationId app' = None
  /\ nextHandle app' = nextHandle app
  /\ encoders app' = (if encoding_begun s then encoders app + 1 else encoders app)
  /\ buffers app' = buffers app /\ bindGroups app' = bindGroups app.
Proof.
  unfold running, frame. intros H.
  destruct (shouldContinueRendering app) eqn:Es, (errorOccurred app) eqn:Ee;
    try discriminate.
  cbn [negb orb].
  match goal with |- context [handleCriticalError fail message ?a] => set (app1 := a) end.
  pose proof (handleCriticalError_first message app1 eq_refl) as H1. simpl in H1.
  destruct H1 as (He & Hs & Ha & _ & Hq & Ht & Hn & Hc & Hb & Hg & _).
  simpl. unfold running. rewrite Hs, He, Ha, Hq, Ht, Hn, Hc, Hb, Hg. simpl. auto 10.
Qed.

Lemma run_app events1 events2 app :
  run fail (events1 ++ events2) app = run fail events2 (run fail events1 app).
Proof. unfold run. apply fold_left_app. Qed.

(** Once stopped, always stopped: nothing is encoded, submitted or
    scheduled again. *)
Lemma step_stopped ev app :
  running app = false ->
  let app' := step fail app ev in
  running app' = false /\ queue app' = queue app /\ t app' = t app
  /\ nextHandle app' = nextHandle app /\ encoders app' = encoders app.
Proof.
  intros H. destruct ev as [fault|message|l|message]; simpl.
  - rewrite frame_stopped by exact H. simpl. auto.
  - pose proof (handleCriticalError_frame_state message app) as Hh. simpl in Hh.
    tauto.
  - auto.
  - auto.
Qed.

Lemma run_stopped events app :
  running app = false ->
  let app' := run fail events app in
  running app' = false /\ queue app' = queue app /\ t app' = t app
  /\ nextHandle app' = nextHandle app /\ encoders app' = encoders app.
Proof.
  revert app. induction events as [|ev events IH]; intros app H; simpl; [auto|].
  destruct (step_stopped ev app H) as (Hr & Hq & Ht & Hn & He).
  destruct (IH _ Hr) as (Hr' & Hq' & Ht' & Hn' & He').
  simpl in *. rewrite Hr', Hq', Ht', Hn', He'. auto.
Qed.

Lemma step_in_order app0 app ev :
  submitted_in_order app0 app -> submitted_in_order app0 (step fail app ev).
Proof.
  intros Hin. pose proof Hin as (Hb & Hg & Ht & Hq).
  destruct (running app) eqn:Hrun.
  - destruct ev as [[[s message]|]|message|l|message]; simpl; [| | |exact Hin|exact Hin].
    + destruct (frame_throws app s message Hrun) as (Eq & Et & _ & _ & _ & _ & _ & Eb & Eg).
      simpl in *. unfold submitted_in_order. rewrite Eq, Et, Eb, Eg. auto.
    + destruct (frame_submits app Hrun) as (Eq & Et & _ & _ & _ & _ & Eb & Eg & _).
      simpl in *. unfold submitted_in_order. rewrite Eq, Et, Eb, Eg.
      split; [exact Hb|]. split; [exact Hg|].
      split; [rewrite length_app; simpl; lia|].
      intros n cmd Hn.
      destruct (decide (n < length (queue app))%nat) as [Hlt|Hge].
      * rewrite lookup_app_l in Hn by exact Hlt. auto.
      * rewrite lookup_app_r in Hn by lia.
        destruct (n - length (queue app))%nat as [|k] eqn:Ek; [|discriminate].
        injection Hn as <-. assert (n = length (queue app)) as -> by lia.
        unfold encode; simpl. rewrite Ht, Hb, Hg. auto.
    + pose proof (handleCriticalError_frame_state message app) as Hh. simpl in Hh.
      destruct Hh as (Eq & Et & _ & _ & Eb & Eg & _).
      unfold submitted_in_order. rewrite Eq, Et, Eb, Eg. auto.
  - destruct (step_stopped ev app Hrun) as (_ & Eq & Et & _ & _). simpl in *.
    assert (Eb : buffers (step fail app ev) = buffers app
                 /\ bindGroups (step fail app ev) = bindGroups app).
    { destruct ev as [fault|message|l|message]; simpl; [| |auto|auto].
      - rewrite frame_stopped by exact Hrun. auto.
      - pose proof (handleCriticalError_frame_state message app) as Hh. simpl in Hh. tauto. }
    destruct Eb as [Eb Eg].
    unfold submitted_in_order. rewrite Eq, Et, Eb, Eg. auto.
Qed.

Lemma run_in_order events app0 app :
  submitted_in_order app0 app -> submitted_in_order app0 (run fail events app).
Proof.
  revert app. induction events as [|ev events IH]; intros app H; simpl; [exact H|].
  apply IH, step_in_order, H.
Qed.

(** A run of [k] frames in which no device call throws. *)
Lemma run_frames k app :
  running app = true ->
  let app' := run fail (repeat (Resume None) k) app in
  running app' = true
  /\ length (queue app') = (length (queue app) + k)%nat
  /\ t app' = t app + N.of_nat k.
Proof.
  revert app. induction k as [|k IH]; intros app H; simpl.
  - split; [exact H|]. split; [lia|]. lia.
  - destruct (frame_submits app H) as (Eq & Et & _ & _ & _ & Er & _).
    destruct (IH _ Er) as (Hr & Hl & Ht'). simpl in *.
    split; [exact Hr|]. rewrite Hl, Ht', Eq, Et, length_app. simpl. split; lia.
Qed.

End Loop.

Lemma parity_cases (n : N) : n mod 2 = 0 \/ n mod 2 = 1.
Proof.
  assert (H : n mod 2 < 2) by (apply N.mod_lt; discriminate).
  destruct (n mod 2) as [|[q|q|]]; auto; destruct q; discriminate.
Qed.

Lemma bindGroup_views simParam (b0 b1 : positive) (p : N) :
  p = 0 \/ p = 1 ->
  particleBindGroups simParam [b0; b1] !! N.to_nat p
    = Some (particleBindGroup simParam [b0; b1] p)
  /\ readView (particleBindGroup simParam [b0; b1] p) = [b0; b1] !! N.to_nat p
  /\ writeView (particleBindGroup simParam [b0; b1] p) = [b0; b1] !! N.to_nat ((p + 1) mod 2).
Proof. intros [-> | ->]; auto. Qed.

(** C2. In every run of the flocking demo, whatever failures and faults
    occur, the [n]-th command buffer submitted (counting from 0) was encoded
    with the bind group of parity [n mod 2], whose read view is
    buffer [n mod 2] and whose write view is buffer [(n + 1) mod 2], two
    different buffers; its render pass draws from buffer [(n + 1) mod 2],
    the one its compute pass writes.  The two bind groups are built that
    way, and a run of [k] frames without faults submits [k] command buffers,
    so the parity used alternates with the frame number. *)
Theorem C2_ping_pong_discipline
    (fail : jsstring -> Channel.State -> Channel.State * exn)
    (spriteVertices simParams seed : list N) (app : App) :
  start spriteVertices simParams seed = Ok app ->
  exists b0 b1 : positive,
    buffers app = [b0; b1] /\ b0 <> b1
    /\ (forall p, p < 2 ->
          exists bg, bindGroups app !! N.to_nat p = Some bg
                     /\ readView bg = buffers app !! N.to_nat p
                     /\ writeView bg = buffers app !! N.to_nat ((p + 1) mod 2)
                     /\ is_Some (readView bg) /\ is_Some (writeView bg)
                     /\ readView bg <> writeView bg)
    /\ (forall events (n : N) cmd,
          queue (run fail events app) !! N.to_nat n = Some cmd ->
          exists bg,
            computeBindGroup cmd = Some bg
            /\ bindGroups app !! N.to_nat (n mod 2) = Some bg
            /\ readView bg = buffers app !! N.to_nat (n mod 2)
            /\ writeView bg = buffers app !! N.to_nat ((n + 1) mod 2)
            /\ is_Some (readView bg)
            /\ readView bg <> writeView bg
            /\ vertexBuffer0 cmd = writeView bg)
    /\ (forall k,
          length (queue (run fail (repeat (Resume None) k) app)) = k
          /\ t (run fail (repeat (Resume None) k) app) = N.of_nat k).
Proof.
  intros Hstart.
  destruct (start_state _ _ _ _ Hstart) as (simParam & b0 & Hb & Hg & Ht & Hq & Hrun & _).
  assert (Hne : b0 <> Pos.succ b0) by apply Pos.succ_discr.
  exists b0, (Pos.succ b0). split; [exact Hb|]. split; [exact Hne|].
  assert (Hgroups : forall p, p = 0 \/ p = 1 ->
            exists bg, bindGroups app !! N.to_nat p = Some bg
                       /\ readView bg = buffers app !! N.to_nat p
                       /\ writeView bg = buffers app !! N.to_nat ((p + 1) mod 2)
                       /\ is_Some (readView bg) /\ is_Some (writeView bg)
                       /\ readView bg <> writeView bg).
  { intros p Hp. rewrite Hg, Hb.
    destruct (bindGroup_views simParam b0 (Pos.succ b0) p Hp) as (E & Er & Ew).
    eexists. split; [exact E|]. split; [exact Er|]. split; [exact Ew|].
    rewrite Er, Ew. destruct Hp as [-> | ->]; simpl; repeat split; eauto; congruence. }
  split; [intros p Hp; apply Hgroups; lia|].
  split.
  - intros events n cmd Hcmd.
    assert (Hinv : submitted_in_order app (run fail events app)).
    { apply run_in_order. unfold submitted_in_order. rewrite Ht, Hq. simpl.
      repeat split; auto. all: rewrite lookup_nil in *; discriminate. }
    destruct Hinv as (_ & _ & _ & Hall).
    destruct (Hall _ _ Hcmd) as (Ec & Ev). rewrite N2Nat.id in Ec, Ev.
    destruct (Hgroups (n mod 2) (parity_cases n)) as (bg & Eg & Er & Ew & Sr & _ & Hd).
    rewrite N.Div0.add_mod_idemp_l in Ew.
    exists bg. rewrite Ec, Ev. auto 10.
  - intros k. destruct (run_frames fail k app Hrun) as (_ & Hl & Ht').
    simpl in *. rewrite Hl, Ht', Hq, Ht. simpl. split; lia.
Qed.

Lemma C2_ping_pong_witness :
  exists app,
    start Samples.spriteVertices Samples.simParams Samples.seed = Ok app
    /\ buffers app = [3%positive; 4%positive]
    /\ List.map vertexBuffer0
         (queue (run (Channel.fail true) (repeat (Resume None) 3) app))
       = [Some 4%positive; Some 3%positive; Some 4%positive].
Proof.
  destruct (start Samples.spriteVertices Samples.simParams Samples.seed) as [app|] eqn:E;
    [|vm_compute in E; discriminate].
  destruct (C2_ping_pong_discipline (Channel.fail true) _ _ _ app E)
    as (b0 & b1 & Hb & _ & _ & _ & _).
  exists app. split; [reflexivity|].
  vm_compute in E. injection E as <-. split; reflexivity.
Defined.

(** While the dialog is open, [fail] changes nothing. *)
Lemma fail_while_open message c text :
  Channel.output c = Some (Channel.DialogOutput true text) ->
  fst (Channel.fail true message c) = c.
Proof. destruct c as [out shown]. simpl. intros ->. reflexivity. Qed.

Lemma fail_all_while_open messages c text :
  Channel.output c = Some (Channel.DialogOutput true text) ->
  fold_left (fun c m => fst (Channel.fail true m c)) messages c = c.
Proof.
  revert c. induction messages as [|m ms IH]; intros c H; simpl; [reflexivity|].
  rewrite (fail_while_open m c text H). apply IH, H.
Qed.

Lemma fail_when_closed message c :
  (Channel.output c = None
   \/ exists text, Channel.output c = Some (Channel.DialogOutput false text)) ->
  fst (Channel.fail true message c)
  = {| Channel.output := Some (Channel.DialogOutput true message);
       Channel.reports := Channel.reports c ++ [Channel.Modal message] |}.
Proof. destruct c as [out shown]. simpl. intros [-> | [text ->]]; reflexivity. Qed.

(** A listener of the utilities does to the channel what [fail] does with
    its message. *)
Lemma listen_reports fail l c :
  fst (Utils.listen fail l c) = fst (fail (Utils.listener_message l) c).
Proof. unfold Utils.listen, Utils.failing. destruct (fail _ c). reflexivity. Qed.

Lemma listen_all fail ls c :
  fold_left (fun c l => fst (Utils.listen fail l c)) ls c
  = fold_left (fun c m => fst (fail m c)) (List.map Utils.listener_message ls) c.
Proof.
  revert c. induction ls as [|l ls IH]; intros c; [reflexivity|].
  cbn [fold_left List.map]. rewrite listen_reports. apply IH.
Qed.

(** The flag of the guard is never taken back. *)
Lemma step_keeps_the_flag fail ev app :
  errorOccurred app = true -> errorOccurred (step fail app ev) = true.
Proof.
  intros H. destruct ev as [fault|message|l|message]; cbn [step].
  - rewrite frame_stopped; [exact H|]. unfold running. rewrite H. apply andb_false_r.
  - rewrite handleCriticalError_again by exact H. exact H.
  - exact H.
  - exact H.
Qed.

(** One callback on the page that uses the console-backed [fail]: a line
    for every callback that reports whatever the state, and one more for
    the callback that trips the guard. *)
Lemma step_console_lines ev app :
  let app' := step Channel.fail_console app ev in
  length (Channel.reports (channel app'))
  = (length (Channel.reports (channel app))
     + (if reporting ev then 1 else 0)
     + (if errorOccurred app then 0 else if errorOccurred app' then 1 else 0))%nat.
Proof.
  destruct ev as [[[s message]|]|message|l|message]; cbn [step reporting].
  - unfold frame, handleCriticalError.
    destruct (shouldContinueRendering app), (errorOccurred app) eqn:E;
      simpl; rewrite ?E; simpl; rewrite ?length_app; simpl; lia.
  - unfold frame.
    destruct (shouldContinueRendering app), (errorOccurred app) eqn:E;
      simpl; rewrite ?E; simpl; lia.
  - unfold handleCriticalError.
    destruct (errorOccurred app) eqn:E;
      simpl; rewrite ?E; simpl; rewrite ?length_app; simpl; lia.
  - rewrite listen_reports. cbn [with_channel channel errorOccurred Channel.fail_console
                                 Channel.reports fst].
    rewrite length_app. destruct (errorOccurred app); simpl; lia.
  - cbn [with_channel channel errorOccurred Channel.reports].
    rewrite length_app. destruct (errorOccurred app); simpl; lia.
Qed.

Lemma run_console_lines events app :
  let app' := run Channel.fail_console events app in
  length (Channel.reports (channel app'))
  = (length (Channel.reports (channel app))
     + length (List.filter reporting events)
     + (if errorOccurred app then 0 else if errorOccurred app' then 1 else 0))%nat.
Proof.
  revert app. induction events as [|ev events IH]; intros app; cbn zeta.
  - simpl. destruct (errorOccurred app); lia.
  - change (run Channel.fail_console (ev :: events) app)
      with (run Channel.fail_console events (step Channel.fail_console app ev)).
    pose proof (IH (step Channel.fail_console app ev)) as H. cbn zeta in H. rewrite H.
    pose proof (step_console_lines ev app) as H1. cbn zeta in H1. rewrite H1.
    assert (Hkeep : errorOccurred (step Channel.fail_console app ev) = true ->
                    errorOccurred (run Channel.fail_console events
                                     (step Channel.fail_console app ev)) = true).
    { clear. generalize (step Channel.fail_console app ev). intros a.
      revert a. induction events as [|e es IHes]; intros a Ha; [exact Ha|].
      apply IHes, step_keeps_the_flag, Ha. }
    pose proof (step_keeps_the_flag Channel.fail_console ev app) as Hstep.
    cbn [List.filter]. destruct (reporting ev); cbn [length];
      destruct (errorOccurred app);
      destruct (errorOccurred (step Channel.fail_console app ev)) eqn:E1;
      try (specialize (Hstep eq_refl); discriminate);
      try rewrite (Hkeep eq_refl);
      try destruct (errorOccurred (run Channel.fail_console events
                                     (step Channel.fail_console app ev)));
      lia.
Qed.

(** Every notification the utilities listen to runs a callback that
    reports. *)
Lemma callbacks_report notifications :
  (length (List.filter heard_by_the_utilities notifications)
   <= length (List.filter reporting (concat (List.map callbacks notifications))))%nat.
Proof.
  induction notifications as [|n ns IH]; [reflexivity|].
  cbn [List.map concat]. rewrite List.filter_app, length_app.
  destruct n as [fault|e|e|r m|m|]; cbn [heard_by_the_utilities List.filter callbacks
                                         reporting length app]; lia.
Qed.

(** C7, as the code has it.  Failure reporting is idempotent where the
    code has a guard.  Of two failures handed to [handleCriticalError] in
    succession only the first reaches [fail]: the second call returns
    without doing anything.  The dialog-backed [fail] opens its dialog with
    the first message and leaves it untouched by every call made while it
    is open; so on a page that uses it, the listeners of the utilities
    (uncaught exception, unhandled rejection, device loss, uncaptured
    error), which call [fail] themselves, show the operator exactly one
    report, the first, however many notifications follow.  The flocking
    demo imports the console-backed [fail], which has no such test: there
    every callback of the utilities and every validation log adds a line,
    the guard only limits the lines of [handleCriticalError] to one, and
    so every notification the utilities listen to adds at least a line of
    its own. *)
Theorem C7_first_failure_wins :
  (forall fail m1 m2 app,
     errorOccurred app = false ->
     let app1 := fst (handleCriticalError fail m1 app) in
     handleCriticalError fail m2 app1 = (app1, None)
     /\ channel app1 = fst (fail (js "Fatal error: " ++ m1) (channel app))
     /\ channel (run fail [Failure m1; Failure m2] app)
        = fst (fail (js "Fatal error: " ++ m1) (channel app)))
  /\ (forall m1 m2 c,
        (Channel.output c = None
         \/ exists text, Channel.output c = Some (Channel.DialogOutput false text)) ->
        let c1 := fst (Channel.fail true m1 c) in
        let c2 := fst (Channel.fail true m2 c1) in
        Channel.reports c1 = Channel.reports c ++ [Channel.Modal m1]
        /\ c2 = c1
        /\ Channel.output c2 = Some (Channel.DialogOutput true m1))
  /\ (forall m1 later c,
        (Channel.output c = None
         \/ exists text, Channel.output c = Some (Channel.DialogOutput false text)) ->
        Channel.reports (fold_left (fun c m => fst (Channel.fail true m c)) (m1 :: later) c)
        = Channel.reports c ++ [Channel.Modal m1])
  /\ (forall l later c,
        (Channel.output c = None
         \/ exists text, Channel.output c = Some (Channel.DialogOutput false text)) ->
        Channel.reports
          (fold_left (fun c l => fst (Utils.listen (Channel.fail true) l c)) (l :: later) c)
        = Channel.reports c ++ [Channel.Modal (Utils.listener_message l)])
  /\ (forall events app,
        let app' := run Channel.fail_console events app in
        length (Channel.reports (channel app'))
        = (length (Channel.reports (channel app))
           + length (List.filter reporting events)
           + (if errorOccurred app then 0 else if errorOccurred app' then 1 else 0))%nat)
  /\ (forall notifications app,
        (length (Channel.reports (channel app))
         + length (List.filter heard_by_the_utilities notifications)
         <= length (Channel.reports (channel (deliver Channel.fail_console notifications app))))%nat).
Proof.
  assert (Hguard : forall fail m1 m2 app,
            errorOccurred app = false ->
            let app1 := fst (handleCriticalError fail m1 app) in
            handleCriticalError fail m2 app1 = (app1, None)
            /\ channel app1 = fst (fail (js "Fatal error: " ++ m1) (channel app))
            /\ channel (run fail [Failure m1; Failure m2] app)
               = fst (fail (js "Fatal error: " ++ m1) (channel app))).
  { intros fail m1 m2 app H.
    pose proof (handleCriticalError_first fail m1 app H) as H1. simpl in H1.
    destruct H1 as (He & _ & _ & Hc & _).
    simpl. rewrite (handleCriticalError_again fail m2 _ He). simpl. auto. }
  assert (Hdialog : forall m1 m2 c,
            (Channel.output c = None
             \/ exists text, Channel.output c = Some (Channel.DialogOutput false text)) ->
            let c1 := fst (Channel.fail true m1 c) in
            let c2 := fst (Channel.fail true m2 c1) in
            Channel.reports c1 = Channel.reports c ++ [Channel.Modal m1]
            /\ c2 = c1
            /\ Channel.output c2 = Some (Channel.DialogOutput true m1)).
  { intros m1 m2 [out shown] [H | [text H]]; simpl in H; subst out; simpl; auto. }
  assert (Hmany : forall m1 later c,
            (Channel.output c = None
             \/ exists text, Channel.output c = Some (Channel.DialogOutput false text)) ->
            Channel.reports
              (fold_left (fun c m => fst (Channel.fail true m c)) (m1 :: later) c)
            = Channel.reports c ++ [Channel.Modal m1]).
  { intros m1 later c Hc. simpl.
    rewrite (fail_when_closed m1 c Hc).
    rewrite (fail_all_while_open later _ m1) by reflexivity. reflexivity. }
  split; [exact Hguard|]. split; [exact Hdialog|]. split; [exact Hmany|].
  split; [|split].
  - intros l later c Hc. rewrite listen_all. cbn [List.map]. apply Hmany, Hc.
  - exact run_console_lines.
  - intros notifications app. unfold deliver.
    pose proof (run_console_lines (concat (List.map callbacks notifications)) app) as H.
    cbn zeta in H. rewrite H.
    pose proof (callbacks_report notifications). lia.
Qed.

Lemma C7_first_failure_witness :
  Channel.reports
    (fold_left (fun c l => fst (Utils.listen (Channel.fail true) l c))
       [Utils.OnDeviceLost (js "destroyed") (js "gone");
        Utils.OnDeviceLost (js "destroyed") (js "gone again")]
       Channel.initial)
  = [Channel.Modal (js "Device lost (" ++ [34] ++ js "destroyed" ++ [34] ++ js "):"
                    ++ [10] ++ js "gone")].
Proof.
  destruct C7_first_failure_wins as (_ & _ & _ & Hlisteners & _).
  rewrite (Hlisteners (Utils.OnDeviceLost (js "destroyed") (js "gone")) _ Channel.initial).
  - reflexivity.
  - left. reflexivity.
Defined.

(** C7, as stated, fails on the flocking demo.  Two device-loss
    notifications in succession are two runs of the utilities' reaction to
    "device.lost", each of which calls the console-backed [fail]: two
    reports.  (A device resolves "lost" once; a loss followed by an
    uncaptured error gives three lines, and so do two uncaught errors, of
    which only the first reaches [fail] through [handleCriticalError].) *)
Lemma C7_two_notifications_two_reports :
  exists app,
    start Samples.spriteVertices Samples.simParams Samples.seed = Ok app
    /\ Channel.reports
         (channel (deliver Channel.fail_console
                     [DeviceLost (js "destroyed") (js "gone");
                      DeviceLost (js "destroyed") (js "gone again")] app))
       = [Channel.ConsoleError (js "Device lost (" ++ [34] ++ js "destroyed" ++ [34]
                                ++ js "):" ++ [10] ++ js "gone");
          Channel.ConsoleError (js "Device lost (" ++ [34] ++ js "destroyed" ++ [34]
                                ++ js "):" ++ [10] ++ js "gone again")]
    /\ length (Channel.reports
                 (channel (deliver Channel.fail_console
                             [DeviceLost (js "destroyed") (js "gone");
                              UncapturedError (js "out of memory")] app))) = 3%nat
    /\ Channel.reports
         (channel (deliver Channel.fail_console
                     [UncaughtError {| error_text := js "Error: first";
                                       error_message := js "first" |};
                      UncaughtError {| error_text := js "Error: second";
                                       error_message := js "second" |}] app))
       = [Channel.ConsoleError (Utils.listener_message (Utils.OnError (js "Error: first")));
          Channel.ConsoleError (js "Fatal error: first");
          Channel.ConsoleError (Utils.listener_message (Utils.OnError (js "Error: second")))].
Proof.
  destruct (start Samples.spriteVertices Samples.simParams Samples.seed) as [app|] eqn:E;
    [|vm_compute in E; discriminate].
  exists app. split; [reflexivity|].
  vm_compute in E. injection E as <-.
  split; [vm_compute; reflexivity|]. split; vm_compute; reflexivity.
Qed.

(** C8, as the code has it.  A resumed frame tests the flags before it
    touches the device: when the loop is stopped it encodes, submits and
    schedules nothing.  A frame that starts while the loop runs and in which
    no device call throws is submitted, counted and followed by one request
    for the next frame; there is no other test of the flags in between.  A
    frame in which a device call throws is handed to the error handler
    instead: nothing is submitted and nothing is scheduled.  And once the
    loop is stopped, no sequence of resumes and failures ever submits,
    encodes or schedules anything again. *)
Theorem C8_no_frame_after_stop
    (fail : jsstring -> Channel.State -> Channel.State * exn) :
  (forall fault app, running app = false -> frame fail fault app = (app, None))
  /\ (forall app, running app = true ->
        let app' := fst (frame fail None app) in
        queue app' = queue app ++ [encode app] /\ t app' = t app + 1
        /\ animationId app' = Some (nextHandle app)
        /\ nextHandle app' = nextHandle app + 1
        /\ encoders app' = encoders app + 1 /\ running app' = true)
  /\ (forall app s message, running app = true ->
        let app' := fst (frame fail (Some (s, message)) app) in
        queue app' = queue app /\ running app' = false /\ animationId app' = None
        /\ nextHandle app' = nextHandle app)
  /\ (forall events app, running app = false ->
        let app' := run fail events app in
        running app' = false /\ queue app' = queue app
        /\ nextHandle app' = nextHandle app /\ encoders app' = encoders app).
Proof.
  split; [apply frame_stopped|].
  split.
  { intros app H. pose proof (frame_submits fail app H) as H'. simpl in *. tauto. }
  split.
  { intros app s message H. pose proof (frame_throws fail app s message H) as H'.
    simpl in *. tauto. }
  intros events app H. pose proof (run_stopped fail events app H) as H'. simpl in *. tauto.
Qed.

Lemma C8_no_frame_after_stop_witness :
  exists app,
    start Samples.spriteVertices Samples.simParams Samples.seed = Ok app
    /\ length (queue (run (Channel.fail true)
                        [Resume None; Failure (js "lost"); Resume None; Resume None] app))
       = 1%nat.
Proof.
  destruct (start Samples.spriteVertices Samples.simParams Samples.seed) as [app|] eqn:E;
    [|vm_compute in E; discriminate].
  exists app. split; [reflexivity|].
  destruct (C8_no_frame_after_stop (Channel.fail true)) as (_ & _ & _ & Hstop).
  change (run (Channel.fail true)
            [Resume None; Failure (js "lost"); Resume None; Resume None] app)
    with (run (Channel.fail true) [Resume None; Resume None]
            (run (Channel.fail true) [Resume None; Failure (js "lost")] app)).
  destruct (Hstop [Resume None; Resume None]
              (run (Channel.fail true) [Resume None; Failure (js "lost")] app))
    as (_ & -> & _).
  - vm_compute in E. injection E as <-. reflexivity.
  - vm_compute in E. injection E as <-. reflexivity.
Defined.

(** C8, as stated, fails: in the first frame of the sample run the render
    pass throws after the command encoder was created and the compute pass
    encoded; that frame is never submitted. *)
Lemma C8_begun_frame_dropped_when_a_call_throws :
  exists app,
    start Samples.spriteVertices Samples.simParams Samples.seed = Ok app
    /\ running app = true
    /\ encoding_begun RenderPass = true
    /\ let app' := fst (frame (Channel.fail true) (Some (RenderPass, js "lost")) app) in
       encoders app' = 1 /\ queue app' = [] /\ running app' = false.
Proof.
  eexists. split; [vm_compute; reflexivity|].
  vm_compute. auto.
Qed.

(** * Further properties of the sources *)

(** ** Scanners *)

Lemma span_spec (p : N -> bool) s run rest :
  span p s = (run, rest) ->
  s = run ++ rest /\ forallb p run = true
  /\ match rest with [] => True | c :: _ => p c = false end.
Proof.
  revert run rest. induction s as [|c s IH]; simpl; intros run rest H.
  - injection H as <- <-. auto.
  - destruct (p c) eqn:E.
    + destruct (span p s) as [run' rest']. injection H as <- <-.
      destruct (IH _ _ eq_refl) as (-> & Hall & Hrest).
      simpl. rewrite E, Hall. auto.
    + injection H as <- <-. simpl. auto.
Qed.

Lemma span1_spec (p : N -> bool) s run rest :
  span1 p s = Some (run, rest) ->
  s = run ++ rest /\ run <> [] /\ forallb p run = true
  /\ match rest with [] => True | c :: _ => p c = false end.
Proof.
  unfold span1. destruct (span p s) as [r t] eqn:E.
  destruct r as [|c r]; [discriminate|]. intros [= <- <-].
  destruct (span_spec _ _ _ _ E) as (-> & Hall & Hrest). auto.
Qed.

Lemma span_all (p : N -> bool) run rest :
  forallb p run = true ->
  match rest with [] => True | c :: _ => p c = false end ->
  span p (run ++ rest) = (run, rest).
Proof.
  intros Hall Hrest. induction run as [|c run IH]; simpl in *.
  - destruct rest as [|c rest]; [reflexivity|]. simpl. rewrite Hrest. reflexivity.
  - apply andb_prop in Hall as [Hc Hall]. rewrite Hc, IH by exact Hall. reflexivity.
Qed.

Lemma search_found {A} (m : jsstring -> option A) s r :
  search m s = Some r -> exists before u, s = before ++ u /\ m u = Some r.
Proof.
  induction s as [|c s IH]; simpl.
  - destruct (m []) eqn:E; [|discriminate]. intros [= <-]. exists [], []. auto.
  - destruct (m (c :: s)) eqn:E.
    + intros [= <-]. exists [], (c :: s). auto.
    + intros H. destruct (IH H) as (before & u & -> & Hu).
      exists (c :: before), u. auto.
Qed.

(** ** Entry points *)

Lemma fn_name_shape s name :
  fn_name s = Some name -> name <> [] /\ forallb is_name_char name = true.
Proof.
  unfold fn_name. destruct (strip_prefix (js "fn") s) as [s1|]; [|discriminate]. simpl.
  destruct (span1 is_space s1) as [[ws s2]|]; [|discriminate]. simpl.
  destruct (span1 is_name_char s2) as [[nm rest]|] eqn:E; [|discriminate]. simpl.
  intros [= <-]. apply span1_spec in E. tauto.
Qed.

Lemma marked_fn_shape marker s name :
  marked_fn marker s = Some name -> name <> [] /\ forallb is_name_char name = true.
Proof.
  unfold marked_fn. destruct (strip_prefix marker s) as [s1|]; [|discriminate]. simpl.
  destruct (span1 is_space s1) as [[ws s2]|]; [|discriminate]. simpl.
  apply fn_name_shape.
Qed.

Lemma compute_fn_shape s name :
  compute_fn s = Some name -> name <> [] /\ forallb is_name_char name = true.
Proof.
  unfold compute_fn. destruct (strip_prefix (js "@compute") s) as [s1|]; [|discriminate]. simpl.
  intros H. apply search_found in H as (? & u & _ & H). eapply fn_name_shape, H.
Qed.

(** X1. The names [parseEntryPoints] returns are never empty and hold neither
    white space nor an opening parenthesis. *)
Theorem entry_point_names_are_clean code kind entries name :
  parseEntryPoints code kind = Ok entries ->
  vertex entries = Some name \/ fragment entries = Some name \/ compute entries = Some name ->
  name <> [] /\ forall c, In c name -> is_space c = false /\ c <> ch "(".
Proof.
  intros Hparse Hname.
  assert (Hshape : name <> [] /\ forallb is_name_char name = true).
  { unfold parseEntryPoints in Hparse.
    destruct (eqb_js kind (js "compute") && _); [discriminate|].
    destruct (eqb_js kind (js "render") && _); [discriminate|].
    injection Hparse as <-. simpl in Hname.
    destruct Hname as [H|[H|H]].
    - destruct (eqb_js kind (js "render")); [|discriminate].
      apply search_found in H as (? & u & _ & H). eapply marked_fn_shape, H.
    - destruct (eqb_js kind (js "render")); [|discriminate].
      apply search_found in H as (? & u & _ & H). eapply marked_fn_shape, H.
    - destruct (eqb_js kind (js "compute")); [|discriminate].
      apply search_found in H as (? & u & _ & H). eapply compute_fn_shape, H. }
  destruct Hshape as [Hne Hall]. split; [exact Hne|].
  intros c Hc. rewrite forallb_forall in Hall. specialize (Hall c Hc).
  unfold is_name_char in Hall. apply negb_true_iff, orb_false_iff in Hall as [Hs Hp].
  split; [exact Hs|]. intros ->. rewrite N.eqb_refl in Hp. discriminate.
Qed.

Lemma entry_point_names_witness :
  js "vert_main" <> [] /\ forall c, In c (js "vert_main") -> is_space c = false /\ c <> ch "(".
Proof.
  apply (entry_point_names_are_clean Samples.shader_012 (js "render")
           {| vertex := Some (js "vert_main"); fragment := Some (js "frag_main");
              compute := None |}).
  - vm_compute. reflexivity.
  - left. reflexivity.
Defined.

Lemma parseEntryPoints_other_kind code kind :
  kind <> js "compute" -> kind <> js "render" ->
  parseEntryPoints code kind = Ok {| vertex := None; fragment := None; compute := None |}.
Proof.
  intros Hc Hr. unfold parseEntryPoints, eqb_js.
  rewrite (bool_decide_eq_false_2 _ Hc), (bool_decide_eq_false_2 _ Hr). reflexivity.
Qed.

(** ** Vertex attributes *)

Lemma param_decl_shape s digits nm ty rest :
  param_decl s = Some (digits, nm, ty, rest) ->
  digits <> [] /\ forallb is_digit digits = true
  /\ (exists c tl, nm = c :: tl /\ is_ident_start c = true /\ forallb is_word tl = true)
  /\ ty <> [] /\ forallb is_word ty = true.
Proof.
  unfold param_decl, mbind, option_bind.
  destruct (strip_prefix (js "@location(") s) as [s1|]; [|discriminate].
  destruct (span1 is_digit s1) as [[d s2]|] eqn:Ed; [|discriminate].
  destruct (strip_prefix (js ")") s2) as [s3|]; [|discriminate].
  destruct (span1 is_space s3) as [[ws s4]|]; [|discriminate].
  destruct s4 as [|c s5]; [discriminate|].
  destruct (is_ident_start c) eqn:Ec; [|discriminate].
  destruct (span is_word s5) as [tl s6] eqn:Et.
  destruct (span is_space s6) as [ws' s7].
  destruct (strip_prefix (js ":") s7) as [s8|]; [|discriminate].
  destruct (span is_space s8) as [ws'' s9].
  destruct (span1 is_word s9) as [[t r]|] eqn:Ety; [|discriminate].
  intros [= <- <- <- <-].
  apply span1_spec in Ed as (_ & Hd & Hdall & _).
  apply span_spec in Et as (_ & Htl & _).
  apply span1_spec in Ety as (_ & Ht & Htall & _).
  eauto 10.
Qed.

Lemma scan_params_shape skip s a :
  In a (scan_params skip s) -> well_formed_attribute a.
Proof.
  revert skip. induction s as [|c s IH]; intros skip; simpl; [contradiction|].
  destruct skip as [|k]; [|apply IH].
  destruct (param_decl (c :: s)) as [[[[digits nm] ty] rest]|] eqn:E; [|apply IH].
  intros [<-|H]; [|eapply IH, H].
  apply param_decl_shape in E as (_ & _ & Hn & Ht & Htall).
  unfold well_formed_attribute. simpl. auto.
Qed.

(** X2. Every attribute [parseShaderLocations] returns has a name that starts
    with a letter or an underscore and goes on with word characters, a
    non-empty type name of word characters, and the size [typeToSize] gives
    that type name. *)
Theorem parsed_attributes_are_well_formed code a :
  In a (parseShaderLocations code) -> well_formed_attribute a.
Proof.
  unfold parseShaderLocations. destruct (vertexFnMatch code); [|contradiction].
  rewrite sort_by_location_In. apply scan_params_shape.
Qed.

Lemma parsed_attributes_witness :
  well_formed_attribute
    {| location := 0; name := js "a_pos"; type := js "vec2"; bytesPerElement := VNum 0 |}.
Proof.
  apply (parsed_attributes_are_well_formed Samples.shader_generic).
  vm_compute. left. reflexivity.
Defined.

(** The sort: a permutation that keeps declarations of one location in
    their textual order. *)
Lemma insert_by_location_perm a l : Permutation (insert_by_location a l) (a :: l).
Proof.
  induction l as [|b l IH]; simpl; [reflexivity|].
  destruct (location a <=? location b); [reflexivity|].
  rewrite IH. apply perm_swap.
Qed.

Lemma sort_by_location_perm l : Permutation (sort_by_location l) l.
Proof.
  induction l as [|a l IH]; simpl; [reflexivity|].
  rewrite insert_by_location_perm, IH. reflexivity.
Qed.

Lemma insert_by_location_stable x a l :
  at_location x (insert_by_location a l) = at_location x (a :: l).
Proof.
  unfold at_location. induction l as [|b l IH]; [reflexivity|].
  cbn [insert_by_location].
  destruct (N.leb_spec (location a) (location b)) as [Hab|Hab]; [reflexivity|].
  cbn [List.filter] in *. rewrite IH.
  destruct (N.eqb_spec (location a) x) as [Ea|Ea];
    destruct (N.eqb_spec (location b) x) as [Eb|Eb]; try reflexivity.
  lia.
Qed.

Lemma sort_by_location_stable x l :
  at_location x (sort_by_location l) = at_location x l.
Proof.
  induction l as [|a l IH]; [reflexivity|].
  cbn [sort_by_location List.fold_right]. fold (sort_by_location l).
  rewrite insert_by_location_stable. unfold at_location in *. cbn [List.filter].
  rewrite IH. reflexivity.
Qed.

(** X3. [parseShaderLocations] returns the declarations it scanned, each once,
    in ascending order of location, declarations of one location in the
    order of the text; without a vertex function it returns the empty
    list. *)
Theorem parseShaderLocations_sorts_what_it_scans code :
  StronglySorted N.le (List.map location (parseShaderLocations code))
  /\ match vertexFnMatch code with
     | Some params =>
         let scanned := scan_params 0 (remove_comments 0 params) in
         Permutation (parseShaderLocations code) scanned
         /\ forall x, at_location x (parseShaderLocations code) = at_location x scanned
     | None => parseShaderLocations code = []
     end.
Proof.
  split.
  - unfold parseShaderLocations. destruct (vertexFnMatch code); [|constructor].
    apply sort_by_location_sorted.
  - unfold parseShaderLocations. destruct (vertexFnMatch code); [|reflexivity].
    split; [apply sort_by_location_perm|]. intros x. apply sort_by_location_stable.
Qed.

(** X4. A source without the "@vertex" text has no vertex attributes. *)
Theorem no_vertex_marker_no_attributes code :
  contains (js "@vertex") code = false -> parseShaderLocations code = [].
Proof.
  intros H. unfold parseShaderLocations, vertexFnMatch.
  rewrite no_marker_no_match by exact H. reflexivity.
Qed.

Lemma no_vertex_marker_witness : parseShaderLocations Samples.shader_compute = [].
Proof. apply no_vertex_marker_no_attributes. vm_compute. reflexivity. Defined.

(** ** Comment removal *)

Lemma remove_comments_sublist skip s : sublist (remove_comments skip s) s.
Proof.
  revert skip. induction s as [|c s IH]; intros skip; simpl; [constructor|].
  destruct skip as [|k]; [|apply sublist_cons, IH].
  destruct (block_comment (c :: s)); [apply sublist_cons, IH|apply sublist_skip, IH].
Qed.

Lemma contains_tail lit c s : contains lit (c :: s) = false -> contains lit s = false.
Proof.
  unfold contains. simpl. destruct (strip_prefix lit (c :: s)); [discriminate|]. auto.
Qed.

Lemma contains_here lit s : contains lit s = false -> strip_prefix lit s = None.
Proof.
  unfold contains. destruct s; simpl; destruct (strip_prefix lit _); auto; discriminate.
Qed.

Lemma remove_comments_plain s :
  contains (js "/*") s = false -> remove_comments 0 s = s.
Proof.
  induction s as [|c s IH]; intros H; [reflexivity|].
  cbn [remove_comments]. unfold block_comment.
  rewrite (contains_here _ _ H). simpl. rewrite IH; [reflexivity|].
  eapply contains_tail, H.
Qed.

(** X5. Removing the block comments only deletes characters (what is left is a
    subsequence of the text, in order), and a text in which no comment
    opens is returned as it is. *)
Theorem remove_comments_only_deletes s :
  sublist (remove_comments 0 s) s
  /\ (length (remove_comments 0 s) <= length s)%nat
  /\ (contains (js "/*") s = false -> remove_comments 0 s = s).
Proof.
  split; [apply remove_comments_sublist|].
  split; [apply sublist_length, remove_comments_sublist|apply remove_comments_plain].
Qed.

Lemma remove_comments_witness :
  remove_comments 0 (js "a : f32, b : f32") = js "a : f32, b : f32".
Proof.
  destruct (remove_comments_only_deletes (js "a : f32, b : f32")) as (_ & _ & H).
  apply H. vm_compute. reflexivity.
Defined.

(** ** Formats and sizes *)

Lemma contains_char x s : contains [x] s = false -> ~ In x s.
Proof.
  induction s as [|c s IH]; intros H; [tauto|].
  pose proof (contains_here _ _ H) as Hc. simpl in Hc.
  destruct (N.eqb_spec x c) as [->|Hne]; [discriminate|].
  intros [E|Hin]; [congruence|]. apply IH; [|exact Hin]. eapply contains_tail, H.
Qed.

Lemma digits_x_digits_inv u a b :
  digits_x_digits u = Some (a, b) ->
  exists rest, u = a ++ ch "x" :: b ++ rest /\ a <> [] /\ forallb is_digit a = true.
Proof.
  unfold digits_x_digits, mbind, option_bind.
  destruct (span1 is_digit u) as [[a' u1]|] eqn:E; [|discriminate].
  apply span1_spec in E as (-> & Ha & Hall & _).
  change (js "x") with [ch "x"].
  destruct u1 as [|c u2]; [discriminate|]. cbn [strip_prefix].
  destruct (N.eqb_spec (ch "x") c) as [<-|]; [|discriminate].
  destruct (span1 is_digit u2) as [[b' rest]|] eqn:Eb; [|discriminate].
  apply span1_spec in Eb as (-> & _).
  intros [= <- <-]. eauto.
Qed.

Lemma formatSize_no_x format :
  contains (js "x") format = false -> formatSize format = 4.
Proof.
  intros H. unfold formatSize.
  destruct (search digits_x_digits format) as [[a b]|] eqn:E; [|reflexivity].
  apply search_found in E as (before & u & -> & Hu).
  apply digits_x_digits_inv in Hu as (rest & -> & _).
  exfalso. apply (contains_char _ _ H).
  apply in_or_app. right. apply in_or_app. right. left. reflexivity.
Qed.

Lemma digits_x_digits_digits a :
  forallb is_digit a = true -> digits_x_digits a = None.
Proof.
  intros Ha. unfold digits_x_digits, span1, mbind, option_bind.
  rewrite <- (app_nil_r a) at 1. rewrite (span_all is_digit a [] Ha) by exact I.
  destruct a; reflexivity.
Qed.

Lemma search_in_digits a :
  forallb is_digit a = true -> search digits_x_digits a = None.
Proof.
  induction a as [|c a IH]; intros Ha; [reflexivity|].
  cbn [search]. rewrite (digits_x_digits_digits _ Ha).
  apply andb_prop in Ha as [_ Ha]. auto.
Qed.

Lemma search_past_non_digits pre u :
  forallb (fun c => negb (is_digit c)) pre = true ->
  search digits_x_digits (pre ++ u) = search digits_x_digits u.
Proof.
  induction pre as [|c pre IH]; intros Hpre; [reflexivity|].
  apply andb_prop in Hpre as [Hc Hpre]. apply negb_true_iff in Hc.
  cbn [app search]. unfold digits_x_digits at 1, span1. cbn [span]. rewrite Hc.
  cbn [mbind option_bind]. auto.
Qed.

(** Below 2^53 nothing is rounded. *)
Lemma round64_exact n : n < 2 ^ 53 -> round64 n = n.
Proof.
  intros H. unfold round64. destruct (N.ltb_spec n (2 ^ 53)); [reflexivity|lia].
Qed.

Lemma times_exact (a b : N) :
  a < 2 ^ 53 -> b < 2 ^ 53 -> a * b < 2 ^ 53 -> times a b = Num (a * b).
Proof.
  intros Ha Hb Hab. unfold times.
  assert (Hinf : 2 ^ 53 < infinity) by (vm_compute; reflexivity).
  destruct (N.eqb_spec a infinity) as [E|_]; [lia|].
  destruct (N.eqb_spec b infinity) as [E|_]; [lia|].
  rewrite !andb_false_l, andb_false_r. cbn [orb].
  rewrite round64_exact by exact Hab. reflexivity.
Qed.

(** X6. [formatSize] multiplies the two numbers around the first "x" that
    stands between digits, and 4, as Numbers: for a name made of a prefix
    without digits, a run of digits, "x" and a run of digits the result is
    parseInt(digits) * parseInt(digits) * 4, and where the two numbers and
    the product stay below 2^53, so that nothing is rounded, it is exactly
    that product (256 for float32x2); a name that ends in its digits and a
    name without "x" get 4. *)
Theorem formatSize_multiplies_width_and_count (pre a b : jsstring) :
  forallb (fun c => negb (is_digit c)) pre = true ->
  a <> [] -> forallb is_digit a = true ->
  b <> [] -> forallb is_digit b = true ->
  formatSize (pre ++ a ++ js "x" ++ b) = times (times (parseInt a) (parseInt b)) 4
  /\ (decimal a < 2 ^ 53 -> decimal b < 2 ^ 53 -> decimal a * decimal b * 4 < 2 ^ 53 ->
      formatSize (pre ++ a ++ js "x" ++ b) = Num (decimal a * decimal b * 4))
  /\ formatSize (pre ++ a) = 4
  /\ (forall format, contains (js "x") format = false -> formatSize format = 4).
Proof.
  intros Hpre Ha Hda Hb Hdb.
  assert (Hmatch : formatSize (pre ++ a ++ js "x" ++ b)
                   = times (times (parseInt a) (parseInt b)) 4).
  { unfold formatSize.
    rewrite search_past_non_digits by assumption.
    assert (Hhere : digits_x_digits (a ++ js "x" ++ b) = Some (a, b)).
    { unfold digits_x_digits, span1, mbind, option_bind.
      rewrite (span_all is_digit a (js "x" ++ b) Hda) by reflexivity.
      destruct a as [|c a']; [contradiction|].
      change (strip_prefix (js "x") (js "x" ++ b)) with (Some b).
      rewrite <- (app_nil_r b) at 1. rewrite (span_all is_digit b [] Hdb) by exact I.
      destruct b; [contradiction|reflexivity]. }
    destruct a as [|c a']; [contradiction|].
    cbn [app search] in *. rewrite Hhere. reflexivity. }
  split; [exact Hmatch|]. split; [|split; [|exact formatSize_no_x]].
  - intros Hsa Hsb Hprod. rewrite Hmatch. unfold parseInt.
    rewrite !round64_exact by assumption.
    rewrite times_exact by (try assumption; nia).
    rewrite times_exact; [reflexivity|nia|reflexivity|exact Hprod].
  - unfold formatSize.
    rewrite search_past_non_digits by assumption.
    rewrite search_in_digits by assumption. reflexivity.
Qed.

Lemma formatSize_witness :
  formatSize (js "float32x2") = 256 /\ formatSize (js "float32") = 4.
Proof.
  destruct (formatSize_multiplies_width_and_count (js "float") (js "32") (js "2"))
    as (_ & H1 & H2 & _); try reflexivity; try discriminate.
  split; [apply H1; reflexivity|exact H2].
Defined.

(** From 2^53 on the factors and the product are rounded, and a factor of
    more than 308 digits is Infinity: 9007199254740993 is read as
    9007199254740992, and 0 times Infinity is NaN. *)
Example formatSize_rounds_like_binary64 :
  formatSize (js "float9007199254740993x1") = 36028797018963968
  /\ formatSize (js "float9007199254740993x3") = 108086391056891904
  /\ formatSize (js "0x1" ++ repeat (ch "0") 400) = NaN
  /\ formatSize (js "2x1" ++ repeat (ch "0") 400) = Num infinity.
Proof. vm_compute. auto. Qed.

(** X7. [typeToSize] knows the four float types only: every other name gets 0,
    the eight integer types that [typeToFormat] does map included, and the
    name of an inherited member gets that member. *)
Theorem typeToSize_knows_float_types_only :
  (typeToSize (js "f32") = VNum 4 /\ typeToSize (js "vec2f") = VNum 8
   /\ typeToSize (js "vec3f") = VNum 12 /\ typeToSize (js "vec4f") = VNum 16)
  /\ (forall ty, ~ In ty (List.map fst sizes) -> ~ In ty Object_prototype ->
        typeToSize ty = VNum 0)
  /\ (forall ty, In ty (List.map fst typeMap) -> ~ In ty (List.map fst sizes) ->
        typeToSize ty = VNum 0 /\ typeToFormat ty <> VStr (js "float32"))
  /\ (forall ty, In ty Object_prototype -> typeToSize ty = VBuiltin ty).
Proof.
  split; [repeat split; reflexivity|].
  split.
  { intros ty Hs Hp. unfold typeToSize. rewrite get_unknown by assumption. reflexivity. }
  split.
  { intros ty Hin Hs. simpl in Hin.
    repeat (destruct Hin as [<-|Hin];
            [first [ exfalso; apply Hs; simpl; tauto
                   | split; [reflexivity|vm_compute; discriminate] ]|]).
    contradiction. }
  intros ty Hin. simpl in Hin.
  repeat (destruct Hin as [<-|Hin]; [reflexivity|]). contradiction.
Qed.

Lemma typeToSize_witness :
  typeToSize (js "vec3u") = VNum 0 /\ typeToFormat (js "vec3u") <> VStr (js "float32").
Proof.
  destruct typeToSize_knows_float_types_only as (_ & _ & H & _).
  apply (H (js "vec3u")).
  - vm_compute. tauto.
  - vm_compute. intuition discriminate.
Defined.

(** ** Layout generation *)

(** X8. [generateBufferLayouts] returns layouts exactly when 0, 1 and 2 are all
    among the declared locations (the empty list is refused), and the error
    it throws otherwise carries the locations it found. *)
Theorem generateBufferLayouts_decides (locations : list VertexAttribute) :
  ((exists layouts, generateBufferLayouts locations = Ok layouts)
   <-> In 0 (List.map location locations) /\ In 1 (List.map location locations)
       /\ In 2 (List.map location locations))
  /\ ((forall layouts, generateBufferLayouts locations <> Ok layouts) ->
      generateBufferLayouts locations
      = Throw (UnsupportedVertexLayout (List.map location locations)))
  /\ generateBufferLayouts [] = Throw (UnsupportedVertexLayout []).
Proof.
  assert (Hiff : passes_validation locations
                 <-> In 0 (List.map location locations) /\ In 1 (List.map location locations)
                     /\ In 2 (List.map location locations)).
  { unfold passes_validation, expectedLocations. split.
    - intros H. repeat split; apply H; simpl; auto.
    - intros (H0 & H1 & H2) x [<-|[<-|[<-|[]]]]; assumption. }
  split; [|split; [|reflexivity]].
  - rewrite <- Hiff. split.
    + intros [layouts H]. apply generateBufferLayouts_inv in H. tauto.
    + intros H. eexists. apply generateBufferLayouts_accepts, H.
  - intros Hno. apply generateBufferLayouts_rejects. intros Hp.
    eapply Hno, generateBufferLayouts_accepts, Hp.
Qed.

(** X9. Whatever list it is given, the layouts [generateBufferLayouts] produces
    are two, the instance stream has at least one attribute, its attributes
    sit at locations below 2 and the vertex stream's at location 2, and
    every attribute (8 bytes of float32x2) ends within the stride of its
    stream. *)
Theorem generated_layouts_fit_their_strides (locations : list VertexAttribute) layouts :
  generateBufferLayouts locations = Ok layouts ->
  exists instanceStream vertexStream,
    layouts = [instanceStream; vertexStream]
    /\ attributes instanceStream <> []
    /\ (forall a, In a (attributes instanceStream) ->
          shaderLocation a < 2 /\ offset a + 8 <= arrayStride instanceStream)
    /\ (forall a, In a (attributes vertexStream) ->
          shaderLocation a = 2 /\ offset a + 8 <= arrayStride vertexStream)
    /\ (forall layout a, In layout layouts -> In a (attributes layout) ->
          format a = js "float32x2").
Proof.
  intros H. apply generateBufferLayouts_inv in H as [Hp ->].
  exists (instanceBuffer locations), vertexBuffer.
  split; [reflexivity|].
  split.
  { assert (H0 : In 0 (List.map shaderLocation (attributes (instanceBuffer locations)))).
    { rewrite instance_locations. apply filter_In. split; [apply Hp; simpl; auto|reflexivity]. }
    destruct (attributes (instanceBuffer locations)); [contradiction|discriminate]. }
  split.
  { intros a Ha. apply instance_attributes_shape in Ha as (_ & -> & Hlt).
    split; [exact Hlt|]. simpl. lia. }
  split.
  { intros a [<-|[]]. simpl. split; [reflexivity|lia]. }
  intros layout a [<-|[<-|[]]] Ha.
  - apply instance_attributes_shape in Ha. tauto.
  - destruct Ha as [<-|[]]. reflexivity.
Qed.

Lemma generated_layouts_witness :
  exists instanceStream vertexStream,
    generateBufferLayouts (parseShaderLocations Samples.shader_0012)
    = Ok [instanceStream; vertexStream]
    /\ length (attributes instanceStream) = 3%nat.
Proof.
  destruct (generated_layouts_fit_their_strides
              (parseShaderLocations Samples.shader_0012)
              [instanceBuffer (parseShaderLocations Samples.shader_0012); vertexBuffer])
    as (i & v & E & _).
  - vm_compute. reflexivity.
  - injection E as <- <-. eexists _, _. split; vm_compute; reflexivity.
Defined.

Lemma generateBufferLayouts_decides_witness :
  exists layouts, generateBufferLayouts (parseShaderLocations Samples.shader_0123) = Ok layouts.
Proof.
  destruct (generateBufferLayouts_decides (parseShaderLocations Samples.shader_0123))
    as (Hiff & _ & _).
  apply Hiff. vm_compute. tauto.
Defined.

(** ** The factory as a whole *)

(** The steps of [createPipeline], read back from its result; [caught] is
    what its [catch] block received. *)
Lemma createPipeline_inv device kind shaderPath presentationFormat table r table' :
  createPipeline device kind shaderPath presentationFormat table = (r, table') ->
  match r with
  | Throw e =>
      e = ReferenceError (js "GPUDeviceLostError")
      /\ table' = table
      /\ exists caught,
          (loadShaderFromFile device shaderPath = Throw caught
           \/ exists code,
                loadShaderFromFile device shaderPath = Ok code
                /\ (parseEntryPoints code kind = Throw caught
                    \/ exists entries,
                         parseEntryPoints code kind = Ok entries
                         /\ (createShaderModule device
                               {| sm_code := code; sm_label := kind ++ js " shader module" |}
                             = Throw caught
                             \/ exists shaderModule,
                                  createShaderModule device
                                    {| sm_code := code; sm_label := kind ++ js " shader module" |}
                                  = Ok shaderModule
                                  /\ if eqb_js kind (js "compute") then
                                       createComputePipelineAsync device
                                         {| cp_label := shaderPath ++ js " compute pipeline";
                                            cp_module := shaderModule;
                                            cp_entryPoint := compute entries |} = Throw caught
                                     else
                                       renderDescriptor code entries shaderModule
                                         presentationFormat = Throw caught
                                       \/ exists d,
                                            renderDescriptor code entries shaderModule
                                              presentationFormat = Ok d
                                            /\ createRenderPipeline device d = Throw caught)))
  | Ok pipeline =>
      exists code entries shaderModule,
        loadShaderFromFile device shaderPath = Ok code
        /\ parseEntryPoints code kind = Ok entries
        /\ createShaderModule device
             {| sm_code := code; sm_label := kind ++ js " shader module" |} = Ok shaderModule
        /\ if eqb_js kind (js "compute") then
             createComputePipelineAsync device
               {| cp_label := shaderPath ++ js " compute pipeline";
                  cp_module := shaderModule;
                  cp_entryPoint := compute entries |} = Ok pipeline
             /\ table' = <[pipeline := {| md_type := js "compute"; md_buffers := None |}]> table
           else
             exists d,
               renderDescriptor code entries shaderModule presentationFormat = Ok d
               /\ createRenderPipeline device d = Ok pipeline
               /\ table' = <[pipeline := {| md_type := js "render";
                                            md_buffers := Some (rp_buffers d) |}]> table
  end.
Proof.
  unfold createPipeline, mbind, result_bind.
  destruct (loadShaderFromFile device shaderPath) as [code|e0] eqn:El;
    [|intros [= <- <-]; split; [reflexivity|]; split; [reflexivity|]; exists e0; auto].
  destruct (parseEntryPoints code kind) as [entries|e0] eqn:Ep;
    [|intros [= <- <-]; split; [reflexivity|]; split; [reflexivity|]; exists e0; eauto 10].
  destruct (createShaderModule device _) as [shaderModule|e0] eqn:Em;
    [|intros [= <- <-]; split; [reflexivity|]; split; [reflexivity|]; exists e0;
      right; exists code; split; [reflexivity|];
      right; exists entries; split; [exact Ep|]; left; exact Em].
  destruct (eqb_js kind (js "compute")) eqn:Ek.
  - destruct (createComputePipelineAsync device _) as [p|e0] eqn:Ec; intros [= <- <-].
    + exists code, entries, shaderModule. auto.
    + split; [reflexivity|]. split; [reflexivity|]. exists e0.
      right. exists code. split; [reflexivity|].
      right. exists entries. split; [exact Ep|]. right. exists shaderModule.
      split; [exact Em|]. exact Ec.
  - destruct (renderDescriptor code entries shaderModule presentationFormat) as [d|e0] eqn:Ed.
    + destruct (createRenderPipeline device d) as [p|e0] eqn:Er; intros [= <- <-].
      * exists code, entries, shaderModule. eauto 10.
      * split; [reflexivity|]. split; [reflexivity|]. exists e0.
        right. exists code. split; [reflexivity|].
        right. exists entries. split; [exact Ep|]. right. exists shaderModule.
        split; [exact Em|]. right. eauto.
    + intros [= <- <-].
      split; [reflexivity|]. split; [reflexivity|]. exists e0.
      right. exists code. split; [reflexivity|].
      right. exists entries. split; [exact Ep|]. right. exists shaderModule.
      split; [exact Em|]. left. exact Ed.
Qed.

Lemma renderDescriptor_inv code entries shaderModule presentationFormat :
  match renderDescriptor code entries shaderModule presentationFormat with
  | Ok d =>
      parseShaderLocations code <> [] /\ passes_validation (parseShaderLocations code)
      /\ d = {| rp_module := shaderModule;
                rp_vertexEntryPoint := vertex entries;
                rp_buffers := [instanceBuffer (parseShaderLocations code); vertexBuffer];
                rp_fragmentEntryPoint := fragment entries;
                rp_targetFormat := presentationFormat;
                rp_topology := js "triangle-list" |}
  | Throw e =>
      (parseShaderLocations code = [] /\ e = NoVertexAttributes)
      \/ (parseShaderLocations code <> [] /\ ~ passes_validation (parseShaderLocations code)
          /\ e = UnsupportedVertexLayout (List.map location (parseShaderLocations code)))
  end.
Proof.
  unfold renderDescriptor, mbind, result_bind.
  destruct (parseShaderLocations code) as [|a l] eqn:E; [simpl; auto|].
  cbn [length Nat.eqb].
  destruct (generateBufferLayouts (a :: l)) as [layouts|e] eqn:Eg.
  - apply generateBufferLayouts_inv in Eg as [Hp ->]. cbn [length Nat.eqb].
    split; [discriminate|]. split; [exact Hp|reflexivity].
  - right. split; [discriminate|].
    assert (Hnp : ~ passes_validation (a :: l)).
    { intros Hp. rewrite generateBufferLayouts_accepts in Eg by exact Hp. discriminate. }
    split; [exact Hnp|].
    rewrite generateBufferLayouts_rejects in Eg by exact Hnp. congruence.
Qed.

(** X10. [createPipeline] touches the side table only when it succeeds, and then
    only at the pipeline it returns: a failure leaves the table as it was,
    a success leaves every other pipeline's metadata as it was and records
    the kind, 'compute' for a compute request and 'render' for any other. *)
Theorem createPipeline_registers_only_its_pipeline
    device kind shaderPath presentationFormat (table : gmap positive Metadata) r table' :
  createPipeline device kind shaderPath presentationFormat table = (r, table') ->
  match r with
  | Throw _ => table' = table
  | Ok pipeline =>
      (forall other, other <> pipeline -> table' !! other = table !! other)
      /\ getPipelineType table' pipeline
         = (if eqb_js kind (js "compute") then js "compute" else js "render")
      /\ (getPipelineBuffers table' pipeline = [] <-> kind = js "compute")
  end.
Proof.
  intros H. apply createPipeline_inv in H. destruct r as [p|e]; [|tauto].
  destruct H as (code & entries & m & _ & _ & _ & H).
  destruct (eqb_js kind (js "compute")) eqn:Ek.
  - destruct H as [_ ->]. apply bool_decide_eq_true_1 in Ek.
    split; [intros other Ho; apply lookup_insert_ne; congruence|].
    unfold getPipelineType, getPipelineBuffers. rewrite lookup_insert_eq. simpl. tauto.
  - destruct H as (d & Hd & _ & ->). apply bool_decide_eq_false_1 in Ek.
    split; [intros other Ho; apply lookup_insert_ne; congruence|].
    unfold getPipelineType, getPipelineBuffers. rewrite lookup_insert_eq. simpl.
    split; [reflexivity|].
    pose proof (renderDescriptor_inv code entries m presentationFormat) as Hinv.
    rewrite Hd in Hinv. destruct Hinv as (_ & _ & ->). simpl.
    split; [discriminate|contradiction].
Qed.

Lemma createPipeline_registers_witness :
  getPipelineType
    (snd (createPipeline (Samples.device Samples.shader_012)
            (js "render") (js "./boids_sprite.wgsl") (js "bgra8unorm") ∅)) 3%positive
  = js "render".
Proof.
  pose proof (createPipeline_registers_only_its_pipeline
                (Samples.device Samples.shader_012)
                (js "render") (js "./boids_sprite.wgsl") (js "bgra8unorm") ∅
                (Ok 3%positive) _ eq_refl) as (_ & H & _).
  exact H.
Defined.

Lemma renderDescriptor_passes code entries shaderModule presentationFormat :
  passes_validation (parseShaderLocations code) ->
  renderDescriptor code entries shaderModule presentationFormat
  = Ok {| rp_module := shaderModule;
          rp_vertexEntryPoint := vertex entries;
          rp_buffers := [instanceBuffer (parseShaderLocations code); vertexBuffer];
          rp_fragmentEntryPoint := fragment entries;
          rp_targetFormat := presentationFormat;
          rp_topology := js "triangle-list" |}.
Proof.
  intros Hp.
  pose proof (renderDescriptor_inv code entries shaderModule presentationFormat) as H.
  destruct (renderDescriptor code entries shaderModule presentationFormat) as [d|e].
  - destruct H as (_ & _ & ->). reflexivity.
  - exfalso. destruct H as [[He _]|(_ & Hnp & _)]; [|contradiction].
    specialize (Hp 0). rewrite He in Hp. apply Hp. simpl. auto.
Qed.

(** X11. The checks of the render branch fail in two ways only: with
    'No vertex attributes found' exactly when the scan found no attribute,
    and with the missing-locations error exactly when it found some but not
    all of 0, 1 and 2; the third check ('Failed to generate buffer
    layouts') never fires.  When they pass, the descriptor carries the two
    generated layouts, the scanned entry-point names, the surface format and
    the triangle-list topology. *)
Theorem render_checks_fail_in_two_ways code entries shaderModule presentationFormat :
  (parseShaderLocations code = [] ->
   renderDescriptor code entries shaderModule presentationFormat = Throw NoVertexAttributes)
  /\ (parseShaderLocations code <> [] -> ~ passes_validation (parseShaderLocations code) ->
      renderDescriptor code entries shaderModule presentationFormat
      = Throw (UnsupportedVertexLayout (List.map location (parseShaderLocations code))))
  /\ (passes_validation (parseShaderLocations code) ->
      renderDescriptor code entries shaderModule presentationFormat
      = Ok {| rp_module := shaderModule;
              rp_vertexEntryPoint := vertex entries;
              rp_buffers := [instanceBuffer (parseShaderLocations code); vertexBuffer];
              rp_fragmentEntryPoint := fragment entries;
              rp_targetFormat := presentationFormat;
              rp_topology := js "triangle-list" |})
  /\ renderDescriptor code entries shaderModule presentationFormat <> Throw NoBufferLayouts.
Proof.
  pose proof (renderDescriptor_inv code entries shaderModule presentationFormat) as H.
  destruct (renderDescriptor code entries shaderModule presentationFormat) as [d|e].
  - destruct H as (Hne & Hp & ->). repeat split; try tauto; discriminate.
  - destruct H as [[He ->]|(Hne & Hnp & ->)].
    + split; [reflexivity|]. split; [tauto|]. split; [|discriminate].
      intros Hp. exfalso. specialize (Hp 0). rewrite He in Hp. apply Hp. simpl. auto.
    + split; [tauto|]. split; [reflexivity|]. split; [tauto|discriminate].
Qed.

Lemma render_checks_witness :
  renderDescriptor Samples.shader_compute
    {| vertex := None; fragment := None; compute := None |} 1%positive [] = Throw NoVertexAttributes.
Proof.
  destruct (render_checks_fail_in_two_ways Samples.shader_compute
              {| vertex := None; fragment := None; compute := None |} 1%positive [])
    as (H & _).
  apply H. vm_compute. reflexivity.
Defined.



(** X13. A compute request succeeds exactly when the shader loads, has a compute
    entry point, and the device accepts the module and then the pipeline
    whose entry point is the scanned name. *)
Theorem createPipeline_compute_succeeds_iff
    device shaderPath presentationFormat (table : gmap positive Metadata) pipeline :
  fst (createPipeline device (js "compute") shaderPath presentationFormat table) = Ok pipeline
  <-> exists code name shaderModule,
        loadShaderFromFile device shaderPath = Ok code
        /\ search compute_fn code = Some name
        /\ createShaderModule device
             {| sm_code := code; sm_label := js "compute shader module" |} = Ok shaderModule
        /\ createComputePipelineAsync device
             {| cp_label := shaderPath ++ js " compute pipeline";
                cp_module := shaderModule;
                cp_entryPoint := Some name |} = Ok pipeline.
Proof.
  split.
  - destruct (createPipeline device (js "compute") shaderPath presentationFormat table)
      as [r table'] eqn:E. simpl. intros ->.
    apply createPipeline_inv in E as (code & entries & m & Hl & Hp & Hm & Hc).
    replace (eqb_js (js "compute") (js "compute")) with true in Hc by reflexivity.
    destruct Hc as [Hc _].
    rewrite parseEntryPoints_compute in Hp.
    destruct (search compute_fn code) as [name|] eqn:En; [|discriminate].
    injection Hp as <-. exists code, name, m. auto.
  - intros (code & name & m & Hl & Hn & Hm & Hc).
    unfold createPipeline, mbind, result_bind. rewrite Hl. cbv beta iota.
    rewrite parseEntryPoints_compute, Hn. cbv beta iota.
    change (js "compute" ++ js " shader module") with (js "compute shader module").
    rewrite Hm. cbv beta iota.
    replace (eqb_js (js "compute") (js "compute")) with true by reflexivity.
    cbn [compute]. rewrite Hc. reflexivity.
Qed.

Lemma createPipeline_compute_witness :
  fst (createPipeline (Samples.device Samples.shader_compute)
         (js "compute") (js "./boids_update.wgsl") [] ∅) = Ok 2%positive.
Proof.
  apply createPipeline_compute_succeeds_iff.
  exists Samples.shader_compute, (js "main"), 1%positive.
  repeat split; vm_compute; reflexivity.
Defined.

(** X14. A pipeline [createPipeline] returns for a kind other than 'compute' was
    built from a shader that declares locations 0, 1 and 2, with the two
    generated layouts, and these are what [getPipelineBuffers] gives back
    for it: [validateBuffers] accepts them. *)
Theorem render_pipeline_comes_with_its_layouts
    device kind shaderPath presentationFormat (table : gmap positive Metadata)
    pipeline table' :
  kind <> js "compute" ->
  createPipeline device kind shaderPath presentationFormat table = (Ok pipeline, table') ->
  exists code entries shaderModule,
    loadShaderFromFile device shaderPath = Ok code
    /\ parseEntryPoints code kind = Ok entries
    /\ passes_validation (parseShaderLocations code)
    /\ createRenderPipeline device
         {| rp_module := shaderModule;
            rp_vertexEntryPoint := vertex entries;
            rp_buffers := [instanceBuffer (parseShaderLocations code); vertexBuffer];
            rp_fragmentEntryPoint := fragment entries;
            rp_targetFormat := presentationFormat;
            rp_topology := js "triangle-list" |} = Ok pipeline
    /\ getPipelineBuffers table' pipeline
       = [instanceBuffer (parseShaderLocations code); vertexBuffer]
    /\ BoidsInit.validateBuffers (getPipelineBuffers table' pipeline) = None.
Proof.
  intros Hk H. apply createPipeline_inv in H as (code & entries & m & Hl & Hp & Hm & H).
  unfold eqb_js in H. rewrite (bool_decide_eq_false_2 _ Hk) in H.
  destruct H as (d & Hd & Hr & ->).
  pose proof (renderDescriptor_inv code entries m presentationFormat) as Hinv.
  rewrite Hd in Hinv. destruct Hinv as (_ & Hpass & ->).
  exists code, entries, m.
  unfold getPipelineBuffers. rewrite lookup_insert_eq. simpl. auto 10.
Qed.

Lemma render_pipeline_layouts_witness :
  BoidsInit.validateBuffers
    (getPipelineBuffers
       (snd (createPipeline (Samples.device Samples.shader_012)
               (js "render") (js "./boids_sprite.wgsl") (js "bgra8unorm") ∅)) 3%positive)
  = None.
Proof.
  destruct (render_pipeline_comes_with_its_layouts
              (Samples.device Samples.shader_012)
              (js "render") (js "./boids_sprite.wgsl") (js "bgra8unorm") ∅ 3%positive
              (snd (createPipeline (Samples.device Samples.shader_012)
                      (js "render") (js "./boids_sprite.wgsl") (js "bgra8unorm") ∅)))
    as (code & entries & m & _ & _ & _ & _ & _ & H).
  - discriminate.
  - reflexivity.
  - exact H.
Defined.

(** X15. [validateBuffers] throws for what [getPipelineBuffers] returns for a
    pipeline that was never registered and for a compute pipeline made by
    [createPipeline]. *)
Theorem validateBuffers_refuses_pipelines_without_layouts :
  (forall (table : gmap positive Metadata) pipeline,
     table !! pipeline = None ->
     BoidsInit.validateBuffers (getPipelineBuffers table pipeline)
     = Some (js "Render pipeline buffers not initialized"))
  /\ (forall device shaderPath presentationFormat (table : gmap positive Metadata)
             pipeline table',
        createPipeline device (js "compute") shaderPath presentationFormat table
        = (Ok pipeline, table') ->
        BoidsInit.validateBuffers (getPipelineBuffers table' pipeline)
        = Some (js "Render pipeline buffers not initialized")).
Proof.
  split.
  - intros table p H. unfold getPipelineBuffers. rewrite H. reflexivity.
  - intros device path fmt table p table' H.
    apply createPipeline_compute_registers in H as ->.
    unfold getPipelineBuffers. rewrite lookup_insert_eq. reflexivity.
Qed.

Lemma validateBuffers_refuses_witness :
  BoidsInit.validateBuffers (getPipelineBuffers ∅ 5%positive)
  = Some (js "Render pipeline buffers not initialized").
Proof.
  destruct validateBuffers_refuses_pipelines_without_layouts as [H _].
  apply (H ∅ 5%positive). reflexivity.
Defined.

(** X16. A kind that is neither 'compute' nor 'render' is built as a render
    pipeline without entry-point names: no entry point is looked for, and
    when the shader declares locations 0, 1 and 2 the device is asked for a
    render pipeline whose two entry points are null; the result is
    registered as 'render'. *)
Theorem unknown_kind_is_built_as_render
    device kind shaderPath presentationFormat (table : gmap positive Metadata)
    code shaderModule pipeline :
  kind <> js "compute" -> kind <> js "render" ->
  loadShaderFromFile device shaderPath = Ok code ->
  createShaderModule device
    {| sm_code := code; sm_label := kind ++ js " shader module" |} = Ok shaderModule ->
  passes_validation (parseShaderLocations code) ->
  createRenderPipeline device
    {| rp_module := shaderModule;
       rp_vertexEntryPoint := None;
       rp_buffers := [instanceBuffer (parseShaderLocations code); vertexBuffer];
       rp_fragmentEntryPoint := None;
       rp_targetFormat := presentationFormat;
       rp_topology := js "triangle-list" |} = Ok pipeline ->
  parseEntryPoints code kind = Ok {| vertex := None; fragment := None; compute := None |}
  /\ createPipeline device kind shaderPath presentationFormat table
     = (Ok pipeline,
        <[pipeline := {| md_type := js "render";
                         md_buffers := Some [instanceBuffer (parseShaderLocations code);
                                             vertexBuffer] |}]> table).
Proof.
  intros Hc Hr Hl Hm Hp Hd.
  assert (He := parseEntryPoints_other_kind code kind Hc Hr).
  split; [exact He|].
  pose proof (renderDescriptor_passes code
                {| vertex := None; fragment := None; compute := None |}
                shaderModule presentationFormat) as Hok.
  unfold createPipeline, mbind, result_bind.
  rewrite Hl. cbv beta iota. rewrite He. cbv beta iota. rewrite Hm. cbv beta iota.
  unfold eqb_js at 1. rewrite (bool_decide_eq_false_2 _ Hc).
  rewrite (Hok Hp). cbv beta iota. cbn [vertex fragment]. rewrite Hd. reflexivity.
Qed.

Lemma unknown_kind_witness :
  fst (createPipeline (Samples.device Samples.shader_012)
         (js "mesh") (js "./boids_sprite.wgsl") (js "bgra8unorm") ∅) = Ok 3%positive.
Proof.
  destruct (unknown_kind_is_built_as_render (Samples.device Samples.shader_012)
              (js "mesh") (js "./boids_sprite.wgsl") (js "bgra8unorm") ∅
              Samples.shader_012 1%positive 3%positive) as [_ H];
    [discriminate|discriminate|reflexivity|reflexivity| |reflexivity|].
  - intros x Hx. vm_compute in Hx |- *. intuition auto.
  - rewrite H. reflexivity.
Defined.

(** ** Device buffers *)

Import HeapInv.

Lemma createBuffer_inv sz us m h :
  createBuffer sz us m h
  = if m && negb (sz mod 4 =? 0) then Throw RangeError
    else Ok (fresh h, allocated h (zeroed sz us m)).
Proof. reflexivity. Qed.

Lemma heap_ok_allocated h b : heap_ok h -> heap_ok (allocated h b).
Proof.
  intros H k b'. unfold allocated. cbn [Gpu.buffers fresh].
  destruct (decide (k = fresh h)) as [->|Hne].
  - intros _. lia.
  - rewrite lookup_insert_ne by congruence. intros Hk. apply H in Hk. lia.
Qed.

Lemma heap_ok_same_keys h h' :
  fresh h' = fresh h ->
  (forall k, is_Some (Gpu.buffers h' !! k) -> is_Some (Gpu.buffers h !! k)) ->
  heap_ok h -> heap_ok h'.
Proof.
  intros Hf Hk H k b Hb. rewrite Hf.
  destruct (Hk k) as [b0 Hb0]; [eauto|]. eapply H, Hb0.
Qed.

Lemma heap_ok_apply h op : heap_ok h -> heap_ok (apply h op).
Proof.
  intros H. destruct op as [sz us m|buf data|buf data|buf|buf]; cbn [apply].
  - rewrite createBuffer_inv. destruct (m && _); [exact H|]. apply heap_ok_allocated, H.
  - unfold setMappedRange. destruct (Gpu.buffers h !! buf) as [b|] eqn:E; [|exact H].
    destruct (negb (mapped b)); [exact H|].
    destruct (length (contents b) <? length data)%nat; [exact H|].
    apply (heap_ok_same_keys h); [reflexivity| |exact H]. cbn [Gpu.buffers].
    intros k. destruct (decide (k = buf)) as [->|Hne]; [rewrite E; eauto|].
    rewrite lookup_insert_ne by congruence. auto.
  - unfold writeBuffer. destruct (Gpu.buffers h !! buf) as [b|] eqn:E; [|exact H].
    destruct (writable b data); [|exact H].
    apply (heap_ok_same_keys h); [reflexivity| |exact H]. cbn [Gpu.buffers].
    intros k. destruct (decide (k = buf)) as [->|Hne]; [rewrite E; eauto|].
    rewrite lookup_insert_ne by congruence. auto.
  - unfold unmap. cbv beta iota.
    apply (heap_ok_same_keys h); [reflexivity| |exact H]. cbn [Gpu.buffers].
    intros k. rewrite lookup_alter_is_Some. auto.
  - apply (heap_ok_same_keys h); [reflexivity| |exact H]. unfold destroy. cbn [Gpu.buffers].
    intros k. rewrite lookup_alter_is_Some. auto.
Qed.

(** Handles are never reused.  From the empty device, whatever sequence of
    creations, mapped writes, queue writes, unmaps and destructions the
    host performs (those that throw leave the device as it was), a buffer
    creation that succeeds returns a handle no live buffer has, leaves
    every existing buffer exactly as it was, and makes a zero-filled buffer
    of size / 4 elements; a creation fails only for a buffer mapped at
    creation whose size is not a multiple of 4. *)
Theorem created_buffers_are_fresh_and_zero_filled (ops : list Op) sz us m :
  let h := after ops empty_heap in
  match createBuffer sz us m h with
  | Ok (buf, h') =>
      Gpu.buffers h !! buf = None
      /\ (forall k, k <> buf -> Gpu.buffers h' !! k = Gpu.buffers h !! k)
      /\ read h' buf = Some (repeat 0 (N.to_nat (sz / 4)))
      /\ capacity h' buf = Some sz
  | Throw e => e = RangeError /\ m = true /\ sz mod 4 <> 0
  end.
Proof.
  intros h.
  assert (Hok : heap_ok h).
  { subst h. unfold after.
    assert (H0 : heap_ok empty_heap)
      by (intros k b Hk; unfold empty_heap in Hk; cbn [Gpu.buffers] in Hk;
          rewrite lookup_empty in Hk; discriminate).
    revert H0. generalize empty_heap. induction ops as [|op ops IH]; intros h0 H0; simpl;
      [exact H0|]. apply IH, heap_ok_apply, H0. }
  rewrite createBuffer_inv.
  destruct m; cbn [andb].
  - destruct (N.eqb_spec (sz mod 4) 0) as [E|E]; cbn [negb]; [|auto].
    split; [|split; [|split]].
    + destruct (Gpu.buffers h !! fresh h) as [b|] eqn:Eb; [|reflexivity].
      apply Hok in Eb. lia.
    + intros k Hk. unfold allocated. cbn [Gpu.buffers]. apply lookup_insert_ne. congruence.
    + apply read_allocated.
    + apply capacity_allocated.
  - split; [|split; [|split]].
    + destruct (Gpu.buffers h !! fresh h) as [b|] eqn:Eb; [|reflexivity].
      apply Hok in Eb. lia.
    + intros k Hk. unfold allocated. cbn [Gpu.buffers]. apply lookup_insert_ne. congruence.
    + apply read_allocated.
    + apply capacity_allocated.
Qed.

(** A write through the mapped range succeeds exactly on a live buffer that
    is still mapped and is at least as long as the data; it then overwrites
    the first elements with the data and keeps the rest of the buffer, its
    length and every other buffer as they were.  It throws the range error
    when the data is too long, and the operation error on a buffer that is
    not mapped or does not exist; after [unmap] it always throws. *)
Theorem mapped_write_overwrites_a_prefix (buf : positive) (data : list N) (h : Heap) :
  match setMappedRange buf data h with
  | Ok (_, h') =>
      exists b, Gpu.buffers h !! buf = Some b /\ mapped b = true
        /\ (length data <= length (contents b))%nat
        /\ read h' buf = Some (data ++ drop (length data) (contents b))
        /\ length (data ++ drop (length data) (contents b)) = length (contents b)
        /\ (forall k, k <> buf -> Gpu.buffers h' !! k = Gpu.buffers h !! k)
  | Throw e =>
      (e = RangeError
       /\ exists b, Gpu.buffers h !! buf = Some b /\ mapped b = true
                    /\ (length (contents b) < length data)%nat)
      \/ (e = OperationError
          /\ (Gpu.buffers h !! buf = None
              \/ exists b, Gpu.buffers h !! buf = Some b /\ mapped b = false))
  end
  /\ (unmap buf ≫= fun _ => setMappedRange buf data) h = Throw OperationError.
Proof.
  split.
  - unfold setMappedRange. destruct (Gpu.buffers h !! buf) as [b|] eqn:E; [|auto].
    destruct (mapped b) eqn:Em; cbn [negb]; [|eauto 10].
    destruct (Nat.ltb_spec (length (contents b)) (length data)) as [Hlt|Hle]; [eauto 10|].
    exists b. split; [reflexivity|]. split; [exact Em|]. split; [exact Hle|].
    split; [|split].
    + unfold read. cbn [Gpu.buffers]. rewrite lookup_insert_eq. reflexivity.
    + rewrite length_app, length_drop. lia.
    + intros k Hk. cbn [Gpu.buffers]. apply lookup_insert_ne. congruence.
  - unfold mbind, GPU_bind, unmap, setMappedRange. cbn [Gpu.buffers].
    rewrite lookup_alter_eq. destruct (Gpu.buffers h !! buf); reflexivity.
Qed.

Lemma drop_zeros (k n : nat) : drop k (repeat (0 : N) n) = repeat 0 (n - k)%nat.
Proof.
  revert n. induction k as [|k IH]; intros n; [rewrite Nat.sub_0_r; reflexivity|].
  destruct n; [reflexivity|]. simpl. apply IH.
Qed.

(** X17. The state buffers leave their constructors unmapped: the host cannot
    write to them through a mapped range afterwards (the second cell buffer
    of the cellular-automaton demo was never mapped at all). *)
Theorem state_buffers_are_unmapped_after_construction (seed data : list N) (h : Heap) :
  (forall bufs h', Boids.particleBuffers seed h = Ok (bufs, h') ->
     forall b, In b bufs -> setMappedRange b data h' = Throw OperationError)
  /\ (forall bufs h', BoidsHardcode.particleBuffers seed h = Ok (bufs, h') ->
        forall b, In b bufs -> setMappedRange b data h' = Throw OperationError)
  /\ (forall bufs h', GameOfLife.cellBuffers seed h = Ok (bufs, h') ->
        forall b, In b bufs -> setMappedRange b data h' = Throw OperationError).
Proof.
  assert (Hun : forall b0 b1 b,
            mapped b0 = false -> mapped b1 = false ->
            In b [fresh h; Pos.succ (fresh h)] ->
            setMappedRange b data (allocated (allocated h b0) b1) = Throw OperationError).
  { intros b0 b1 b H0 H1 Hb. unfold setMappedRange, allocated. cbn [Gpu.buffers fresh].
    destruct Hb as [<-|[<-|[]]].
    - rewrite lookup_insert_ne by fresh_ne. rewrite lookup_insert_eq, H0. reflexivity.
    - rewrite lookup_insert_eq, H1. reflexivity. }
  split; [|split]; intros bufs h' H b Hb.
  - rewrite Boids_particleBuffers_spec in H. injection H as <- <-. apply Hun; auto.
  - rewrite BoidsHardcode_particleBuffers_spec in H. injection H as <- <-. apply Hun; auto.
  - rewrite GameOfLife_cellBuffers_spec in H. injection H as <- <-. apply Hun; auto.
Qed.

Lemma state_buffers_unmapped_witness :
  exists h', GameOfLife.cellBuffers [1] empty_heap = Ok ([1%positive; 2%positive], h')
             /\ setMappedRange 2%positive [1] h' = Throw OperationError.
Proof.
  eexists. split; [reflexivity|].
  destruct (state_buffers_are_unmapped_after_construction [1] [1] empty_heap) as (_ & _ & H).
  eapply H; [reflexivity|]. right. left. reflexivity.
Defined.

(** ** The error channel without a dialog, and after the dialog is closed *)

Lemma fail_console_all messages c :
  Channel.reports (fold_left (fun c m => fst (Channel.fail_console m c)) messages c)
  = Channel.reports c ++ List.map Channel.ConsoleError messages.
Proof.
  revert c. induction messages as [|m ms IH]; intros c; simpl.
  - rewrite app_nil_r. reflexivity.
  - rewrite IH. simpl. rewrite <- app_assoc. reflexivity.
Qed.

Lemma fail_worker_all messages c :
  Channel.output c = None \/ Channel.output c = Some Channel.WorkerOutput ->
  Channel.reports (fold_left (fun c m => fst (Channel.fail false m c)) messages c)
  = Channel.reports c ++ List.map Channel.ConsoleError messages.
Proof.
  revert c. induction messages as [|m ms IH]; intros c Hc; simpl.
  - rewrite app_nil_r. reflexivity.
  - rewrite IH.
    + destruct c as [out shown]. simpl in Hc. destruct Hc as [-> | ->]; simpl;
        rewrite <- app_assoc; reflexivity.
    + right. destruct c as [out shown]. simpl in Hc. destruct Hc as [-> | ->]; reflexivity.
Qed.

(** X18. Only the dialog makes the first error win.  Where there is no document
    (a worker) the dialog-backed [fail] writes every message to the console,
    and the console-backed [fail] does so everywhere: a sequence of
    failures is reported in full, in order. *)
Theorem without_dialog_every_failure_is_reported (messages : list jsstring) :
  (forall c, Channel.output c = None \/ Channel.output c = Some Channel.WorkerOutput ->
     Channel.reports (fold_left (fun c m => fst (Channel.fail false m c)) messages c)
     = Channel.reports c ++ List.map Channel.ConsoleError messages)
  /\ (forall c,
        Channel.reports (fold_left (fun c m => fst (Channel.fail_console m c)) messages c)
        = Channel.reports c ++ List.map Channel.ConsoleError messages).
Proof.
  split; [intros c; apply fail_worker_all|intros c; apply fail_console_all].
Qed.

Lemma without_dialog_witness :
  Channel.reports
    (fold_left (fun c m => fst (Channel.fail false m c)) [js "lost"; js "again"] Channel.initial)
  = [Channel.ConsoleError (js "lost"); Channel.ConsoleError (js "again")].
Proof.
  destruct (without_dialog_every_failure_is_reported [js "lost"; js "again"]) as [H _].
  apply (H Channel.initial). left. reflexivity.
Defined.

Lemma fail_throws_its_message document_defined message c :
  snd (Channel.fail document_defined message c) = FatalError message.
Proof. unfold Channel.fail. destruct (Channel.show _ _ _). reflexivity. Qed.

(** X19. Both versions of [fail] always throw an error carrying the message they
    were given; and once the operator has closed the dialog, the next
    failure opens it again with its own message. *)
Theorem closing_the_dialog_lets_the_next_failure_through
    (message : jsstring) (c : Channel.State) :
  (forall document_defined, snd (Channel.fail document_defined message c) = FatalError message)
  /\ snd (Channel.fail_console message c) = FatalError message
  /\ Channel.reports (Channel.closeDialog c) = Channel.reports c
  /\ (forall open text,
        Channel.output c = Some (Channel.DialogOutput open text) ->
        forall document_defined,
          fst (Channel.fail document_defined message (Channel.closeDialog c))
          = {| Channel.output := Some (Channel.DialogOutput true message);
               Channel.reports := Channel.reports c ++ [Channel.Modal message] |}).
Proof.
  split; [|split; [|split]].
  - intros dd. apply fail_throws_its_message.
  - reflexivity.
  - destruct c as [[[|o t]|] shown]; reflexivity.
  - intros open text H dd. destruct c as [out shown]. simpl in H. subst out. reflexivity.
Qed.

Lemma closing_the_dialog_witness :
  Channel.reports
    (fst (Channel.fail true (js "again")
            (Channel.closeDialog (fst (Channel.fail true (js "lost") Channel.initial)))))
  = [Channel.Modal (js "lost"); Channel.Modal (js "again")].
Proof.
  destruct (closing_the_dialog_lets_the_next_failure_through (js "again")
              (fst (Channel.fail true (js "lost") Channel.initial))) as (_ & _ & _ & H).
  rewrite (H true (js "lost") eq_refl true). reflexivity.
Defined.

(** ** Device checks and the shader loader *)

(** X20. Without a device [quitIfWebGPUNotAvailable] always throws, after exactly
    one call of [fail], whose message names the first thing that is
    missing: the browser's WebGPU support, else the adapter, else only the
    device.  With a device it reports nothing and returns. *)
Theorem missing_device_is_reported_by_its_cause
    (fail : jsstring -> Channel.State -> Channel.State * exn)
    (gpu_in_navigator : bool) (adapter : option positive) (c : Channel.State) :
  Utils.quitIfWebGPUNotAvailable fail gpu_in_navigator adapter None c
  = (fst (fail (Utils.missing_device_message gpu_in_navigator adapter) c),
     Throw (snd (fail (Utils.missing_device_message gpu_in_navigator adapter) c)))
  /\ (forall device,
        Utils.quitIfWebGPUNotAvailable fail gpu_in_navigator adapter (Some device) c = (c, Ok ()))
  /\ (Utils.quitIfAdapterNotAvailable fail gpu_in_navigator adapter c = (c, Ok ())
      <-> gpu_in_navigator = true /\ is_Some adapter).
Proof.
  split; [|split].
  - unfold Utils.quitIfWebGPUNotAvailable, Utils.quitIfAdapterNotAvailable,
      Utils.missing_device_message, Utils.failing.
    destruct gpu_in_navigator; cbn [negb].
    + destruct adapter as [a|].
      * destruct (fail _ c) as [c' e]. reflexivity.
      * destruct (fail _ c) as [c' e]. reflexivity.
    + destruct (fail _ c) as [c' e]. reflexivity.
  - reflexivity.
  - unfold Utils.quitIfAdapterNotAvailable, Utils.failing.
    destruct gpu_in_navigator; cbn [negb].
    + destruct adapter as [a|].
      * split; [eauto|reflexivity].
      * destruct (fail _ c) as [c' e]. split; [discriminate|]. intros [_ [x Hx]]. discriminate.
    + destruct (fail _ c) as [c' e]. split; [discriminate|]. intros [H _]. discriminate.
Qed.

Lemma missing_device_witness :
  Utils.quitIfAdapterNotAvailable (Channel.fail true) true (Some 1%positive) Channel.initial
  = (Channel.initial, Ok ()).
Proof.
  destruct (missing_device_is_reported_by_its_cause (Channel.fail true) true (Some 1%positive)
              Channel.initial) as (_ & _ & H).
  apply H. split; [reflexivity|eauto].
Defined.

(** X21. [loadShaderFromFile] returns the text of a response that is ok and whose
    body can be read, and leaves the channel alone.  Every other outcome is
    reported once through [fail] and the error that leaves the function is
    the one [fail] throws, whose message starts with 'Error loading shader
    from', never the error that was caught. *)
Theorem loadShaderFromFile_reports_what_it_catches
    (fetch : jsstring -> Utils.Fetched) (path : jsstring) (c : Channel.State)
    (document_defined : bool) :
  let load := Utils.loadShaderFromFile (Channel.fail document_defined) fetch path c in
  let report := Utils.loadShaderFromFile Channel.fail_console fetch path c in
  match fetch path with
  | Utils.Responded true (inl text) => load = (c, Ok text) /\ report = (c, Ok text)
  | outcome =>
      let caught :=
        match outcome with
        | Utils.Rejected message => message
        | Utils.Responded true (inr message) => message
        | _ => js "Failed to load shader: " ++ path
        end in
      let message := js "Error loading shader from " ++ path ++ js ": " ++ caught in
      snd load = Throw (FatalError message)
      /\ fst load = fst (Channel.fail document_defined message c)
      /\ report
         = ({| Channel.output := Channel.output c;
               Channel.reports := Channel.reports c ++ [Channel.ConsoleError message] |},
            Throw (FatalError message))
  end.
Proof.
  assert (Hfail : forall A message,
            @Utils.failing (Channel.fail document_defined) A message c
            = (fst (Channel.fail document_defined message c), Throw (FatalError message))).
  { intros A message. unfold Utils.failing.
    pose proof (fail_throws_its_message document_defined message c) as Hs.
    destruct (Channel.fail document_defined message c) as [c' e]. simpl in *. congruence. }
  unfold Utils.loadShaderFromFile.
  destruct (fetch path) as [message|[|] [text|message]]; cbv zeta;
    rewrite ?Hfail; auto.
Qed.

(** ** The flocking demo: release, scheduling, set-up *)

Import LoopSpec.

Lemma released_twice b : released (released b) = released b.
Proof. reflexivity. Qed.

Lemma destroy_all_lookup (rs : list positive) (h : Heap) (k : positive) :
  Gpu.buffers (List.fold_left (fun h r => destroy r h) rs h) !! k
  = if in_dec Pos.eq_dec k rs then released <$> Gpu.buffers h !! k
    else Gpu.buffers h !! k.
Proof.
  revert h. induction rs as [|r rs IH]; intros h; [reflexivity|].
  cbn [List.fold_left]. rewrite IH.
  assert (Hd : Gpu.buffers (destroy r h) !! k
               = if decide (k = r) then released <$> Gpu.buffers h !! k
                 else Gpu.buffers h !! k).
  { unfold destroy. cbn [Gpu.buffers]. destruct (decide (k = r)) as [->|Hne].
    - rewrite lookup_alter_eq. reflexivity.
    - rewrite lookup_alter_ne by congruence. reflexivity. }
  rewrite Hd.
  destruct (in_dec Pos.eq_dec k rs) as [Hin|Hnin];
    destruct (in_dec Pos.eq_dec k (r :: rs)) as [Hin'|Hnin'];
    destruct (decide (k = r)) as [->|Hne]; try reflexivity;
    try (exfalso; apply Hnin'; simpl; tauto).
  - destruct (Gpu.buffers h !! r); reflexivity.
  - exfalso. destruct Hin' as [E|Hin']; [congruence|contradiction].
Qed.

Lemma destroy_all_fresh (rs : list positive) (h : Heap) :
  fresh (List.fold_left (fun h r => destroy r h) rs h) = fresh h.
Proof.
  revert h. induction rs as [|r rs IH]; intros h; [reflexivity|].
  cbn [List.fold_left]. rewrite IH. reflexivity.
Qed.

(** X22. The first failure releases what the demo holds: the presentation
    context is unconfigured and each of the two particle buffers, the
    sprite buffer and the parameter buffer is destroyed (and unmapped);
    no other buffer of the device is touched, no contents are changed and
    no handle is consumed. *)
Theorem first_failure_releases_every_buffer
    (fail : jsstring -> Channel.State -> Channel.State * exn)
    (message : jsstring) (app : App) :
  errorOccurred app = false ->
  let held := buffers app ++ option_list (spriteVertexBuffer app)
              ++ option_list (simParamBuffer app) in
  let app' := fst (handleCriticalError fail message app) in
  contextConfigured app' = false
  /\ (forall k, In k held ->
        Gpu.buffers (heap app') !! k = released <$> Gpu.buffers (heap app) !! k)
  /\ (forall k, ~ In k held -> Gpu.buffers (heap app') !! k = Gpu.buffers (heap app) !! k)
  /\ (forall k, read (heap app') k = read (heap app) k)
  /\ fresh (heap app') = fresh (heap app).
Proof.
  intros He held app'.
  assert (Hheap : heap app'
                  = List.fold_left (fun h r => destroy r h) held (heap app)
                  /\ contextConfigured app' = false).
  { subst app' held. unfold handleCriticalError. rewrite He.
    destruct (fail _ (channel app)) as [c e]. simpl. auto. }
  destruct Hheap as [-> Hc].
  split; [exact Hc|].
  split; [|split; [|split]].
  - intros k Hk. rewrite destroy_all_lookup.
    destruct (in_dec Pos.eq_dec k held); [reflexivity|contradiction].
  - intros k Hk. rewrite destroy_all_lookup.
    destruct (in_dec Pos.eq_dec k held); [contradiction|reflexivity].
  - intros k. unfold read. rewrite destroy_all_lookup.
    destruct (in_dec Pos.eq_dec k held); [|reflexivity].
    destruct (Gpu.buffers (heap app) !! k); reflexivity.
  - apply destroy_all_fresh.
Qed.

Lemma first_failure_releases_witness :
  exists app,
    start Samples.spriteVertices Samples.simParams Samples.seed = Ok app
    /\ destroyed <$> Gpu.buffers
         (heap (fst (handleCriticalError (Channel.fail true) (js "lost") app))) !! 3%positive
       = Some true.
Proof.
  destruct (start Samples.spriteVertices Samples.simParams Samples.seed) as [app|] eqn:E;
    [|vm_compute in E; discriminate].
  exists app. split; [reflexivity|].
  assert (Hs : errorOccurred app = false /\ buffers app = [3%positive; 4%positive]
               /\ is_Some (Gpu.buffers (heap app) !! 3%positive)).
  { vm_compute in E. injection E as <-. repeat split; eauto. }
  destruct Hs as (He & Hb & [b Hl]).
  destruct (first_failure_releases_every_buffer (Channel.fail true) (js "lost") app He)
    as (_ & Hheld & _).
  rewrite (Hheld 3%positive) by (rewrite Hb; simpl; auto).
  rewrite Hl. reflexivity.
Defined.

Section Scheduling.

Variable fail : jsstring -> Channel.State -> Channel.State * exn.

Lemma step_appends app ev :
  exists more,
    queue (step fail app ev) = queue app ++ more
    /\ t (step fail app ev) = t app + N.of_nat (length more)
    /\ nextHandle (step fail app ev) = nextHandle app + N.of_nat (length more)
    /\ (length more <= 1)%nat.
Proof.
  destruct (running app) eqn:Hrun.
  - destruct ev as [[[s message]|]|message|l|message]; cbn [step].
    + destruct (frame_throws fail app s message Hrun) as (Eq & Et & _ & _ & _ & En & _).
      exists []. cbn zeta in *. rewrite Eq, Et, En, app_nil_r. simpl. repeat split; lia.
    + destruct (frame_submits fail app Hrun) as (Eq & Et & _ & En & _).
      exists [encode app]. cbn zeta in *. rewrite Eq, Et, En. simpl. repeat split; lia.
    + pose proof (handleCriticalError_frame_state fail message app) as Hh.
      cbn zeta in Hh. destruct Hh as (Eq & Et & En & _).
      exists []. rewrite Eq, Et, En, app_nil_r. simpl. repeat split; lia.
    + exists []. rewrite app_nil_r. simpl. repeat split; lia.
    + exists []. rewrite app_nil_r. simpl. repeat split; lia.
  - destruct (step_stopped fail ev app Hrun) as (_ & Eq & Et & En & _).
    exists []. cbn zeta in *. rewrite Eq, Et, En, app_nil_r. simpl. repeat split; lia.
Qed.

End Scheduling.

(** X23. What was submitted stays submitted.  Over any sequence of resumes and
    failures the queue of the flocking demo only grows at its end, by at
    most one command buffer per event; the frame counter and the number of
    animation frames requested both advance by exactly the number of
    command buffers submitted. *)
Theorem run_only_appends_and_requests_one_frame_each
    (fail : jsstring -> Channel.State -> Channel.State * exn)
    (events : list Event) (app : App) :
  exists more,
    queue (run fail events app) = queue app ++ more
    /\ t (run fail events app) = t app + N.of_nat (length more)
    /\ nextHandle (run fail events app) = nextHandle app + N.of_nat (length more)
    /\ (length more <= length events)%nat.
Proof.
  revert app. induction events as [|ev events IH]; intros app.
  - exists []. simpl. rewrite app_nil_r. repeat split; lia.
  - simpl. destruct (step_appends fail app ev) as (m1 & Eq1 & Et1 & En1 & Hl1).
    destruct (IH (step fail app ev)) as (m2 & Eq2 & Et2 & En2 & Hl2).
    exists (m1 ++ m2). rewrite Eq2, Et2, En2, Eq1, Et1, En1, length_app, <- app_assoc.
    simpl. repeat split; lia.
Qed.

Lemma GPU_bind_throw {A B} (m : GPU A) (k : A -> GPU B) h e :
  m h = Throw e -> (m ≫= k) h = Throw e.
Proof. intros H. unfold mbind, GPU_bind. rewrite H. reflexivity. Qed.

Lemma setMappedRange_too_long buf data h b :
  Gpu.buffers h !! buf = Some b -> mapped b = true ->
  (length (contents b) < length data)%nat ->
  setMappedRange buf data h = Throw RangeError.
Proof.
  intros Hb Hm Hlen. unfold setMappedRange. rewrite Hb, Hm. cbn [negb].
  destruct (Nat.ltb_spec (length (contents b)) (length data)); [reflexivity|lia].
Qed.

Lemma writeBuffer_spec buf data h b :
  Gpu.buffers h !! buf = Some b ->
  writeBuffer buf data h
  = if writable b data then
      Ok ((), {| fresh := fresh h;
                 Gpu.buffers :=
                   <[buf := {| size := size b; usage := usage b; mapped := mapped b;
                               destroyed := destroyed b;
                               contents := data ++ drop (length data) (contents b) |}]>
                     (Gpu.buffers h) |})
    else Ok ((), h).
Proof. intros Hb. unfold writeBuffer. rewrite Hb. reflexivity. Qed.

(** A buffer that was just created unmapped, with COPY_DST, takes what
    fits. *)
Lemma writable_new sz us data :
  N.land us COPY_DST <> 0 ->
  writable (zeroed sz us false) data = (length data <=? N.to_nat (sz / 4))%nat.
Proof.
  intros Hus. unfold writable. cbn [mapped destroyed usage contents zeroed negb andb].
  destruct (N.eqb_spec (N.land us COPY_DST) 0) as [E|_]; [contradiction|].
  rewrite repeat_length. reflexivity.
Qed.

(** Lookups at numbered handles in a heap built by inserts and alters. *)
Ltac lookup_known :=
  repeat first
    [ rewrite lookup_insert_eq | rewrite lookup_alter_eq
    | rewrite lookup_insert_ne by discriminate
    | rewrite lookup_alter_ne by discriminate ].

(** X24. The set-up of the flocking demo can only fail on sprite data that
    does not fit: more than 384 elements (the 1536 bytes of the sprite
    buffer) make the write through the mapped range throw.  Otherwise it
    succeeds for every seed and every list of parameters: the sprite
    buffer holds the sprite data followed by zeros and both particle
    buffers the seed.  Parameters that do not fit the 28 bytes of their
    buffer throw nothing: the queue write is refused on the device, the
    parameter buffer stays zero-filled and the set-up goes on; up to 7
    parameters are written, followed by zeros.  The loop is then ready to
    run, with nothing submitted and nothing requested. *)
Theorem start_fails_only_on_data_that_does_not_fit
    (spriteVertices simParams seed : list N) :
  ((384 < length spriteVertices)%nat ->
   start spriteVertices simParams seed = Throw RangeError)
  /\ ((length spriteVertices <= 384)%nat ->
      exists app,
        start spriteVertices simParams seed = Ok app
        /\ spriteVertexBuffer app = Some 1%positive
        /\ simParamBuffer app = Some 2%positive
        /\ buffers app = [3%positive; 4%positive]
        /\ read (heap app) 1%positive
           = Some (spriteVertices ++ repeat 0 (384 - length spriteVertices)%nat)
        /\ read (heap app) 2%positive
           = Some (if (length simParams <=? 7)%nat
                   then simParams ++ repeat 0 (7 - length simParams)%nat
                   else repeat 0 7%nat)
        /\ read (heap app) 3%positive = Some seed
        /\ read (heap app) 4%positive = Some seed
        /\ running app = true /\ queue app = [] /\ animationId app = None).
Proof.
  set (z := zeroed (512 * 3) VERTEX true).
  set (h1 := allocated empty_heap z).
  assert (Hcreate : createBuffer (512 * 3) VERTEX true empty_heap = Ok (1%positive, h1))
    by reflexivity.
  assert (Hz : contents z = repeat 0 384%nat) by reflexivity.
  assert (Hl1 : Gpu.buffers h1 !! 1%positive = Some z) by reflexivity.
  assert (Hus : N.land (N.lor UNIFORM COPY_DST) COPY_DST <> 0) by (vm_compute; discriminate).
  split.
  - intros Hlong. unfold start, setup.
    erewrite GPU_bind_ok by exact Hcreate.
    erewrite GPU_bind_throw; [reflexivity|].
    apply setMappedRange_too_long with (b := z); [exact Hl1|reflexivity|].
    rewrite Hz, repeat_length. exact Hlong.
  - intros Hfit. unfold start, setup.
    erewrite GPU_bind_ok by exact Hcreate.
    erewrite GPU_bind_ok
      by (apply setMappedRange_ok with (b := z);
          [exact Hl1|reflexivity|rewrite Hz, repeat_length; exact Hfit]).
    erewrite GPU_bind_ok by reflexivity.
    erewrite GPU_bind_ok by reflexivity.
    destruct (Nat.leb_spec (length simParams) 7) as [Hfit'|Hlong].
    + erewrite GPU_bind_ok.
      2:{ erewrite writeBuffer_spec by reflexivity.
          rewrite (writable_new _ _ _ Hus).
          change (N.to_nat (7 * 4 / 4)) with 7%nat.
          destruct (Nat.leb_spec (length simParams) 7); [reflexivity|lia]. }
      erewrite GPU_bind_ok by apply Boids_particleBuffers_spec.
      unfold mret, GPU_ret, mbind, result_bind. cbv beta iota.
      eexists. split; [reflexivity|].
      cbn [spriteVertexBuffer simParamBuffer buffers heap queue animationId running
           shouldContinueRendering errorOccurred fresh h1 allocated empty_heap].
      split; [reflexivity|]. split; [reflexivity|]. split; [reflexivity|].
      unfold read, allocated. cbn [Gpu.buffers fresh].
      change (Pos.succ (Pos.succ 1)) with 3%positive.
      change (Pos.succ 3) with 4%positive.
      change (Pos.succ 1) with 2%positive.
      split.
      { lookup_known. cbn [fmap option_fmap option_map contents].
        rewrite Hz, drop_zeros. reflexivity. }
      split.
      { lookup_known. cbn [fmap option_fmap option_map contents zeroed].
        change (N.to_nat (7 * 4 / 4)) with 7%nat.
        rewrite drop_zeros. reflexivity. }
      split; [lookup_known; reflexivity|].
      split; [lookup_known; reflexivity|].
      split; [reflexivity|]. split; reflexivity.
    + erewrite GPU_bind_ok.
      2:{ erewrite writeBuffer_spec by reflexivity.
          rewrite (writable_new _ _ _ Hus).
          change (N.to_nat (7 * 4 / 4)) with 7%nat.
          destruct (Nat.leb_spec (length simParams) 7); [lia|reflexivity]. }
      erewrite GPU_bind_ok by apply Boids_particleBuffers_spec.
      unfold mret, GPU_ret, mbind, result_bind. cbv beta iota.
      eexists. split; [reflexivity|].
      cbn [spriteVertexBuffer simParamBuffer buffers heap queue animationId running
           shouldContinueRendering errorOccurred fresh h1 allocated empty_heap].
      split; [reflexivity|]. split; [reflexivity|]. split; [reflexivity|].
      unfold read, allocated. cbn [Gpu.buffers fresh].
      change (Pos.succ (Pos.succ 1)) with 3%positive.
      change (Pos.succ 3) with 4%positive.
      change (Pos.succ 1) with 2%positive.
      split.
      { lookup_known. cbn [fmap option_fmap option_map contents].
        rewrite Hz, drop_zeros. reflexivity. }
      split; [lookup_known; reflexivity|].
      split; [lookup_known; reflexivity|].
      split; [lookup_known; reflexivity|].
      split; [reflexivity|]. split; reflexivity.
Qed.

Lemma start_fails_only_witness :
  (exists app,
     start Samples.spriteVertices Samples.simParams Samples.seed = Ok app
     /\ read (heap app) 1%positive = Some (Samples.spriteVertices ++ repeat 0 378%nat)
     /\ read (heap app) 2%positive = Some Samples.simParams)
  /\ (exists app,
        start Samples.spriteVertices (repeat 1 8) Samples.seed = Ok app
        /\ read (heap app) 2%positive = Some (repeat 0 7%nat)).
Proof.
  split.
  - destruct (start_fails_only_on_data_that_does_not_fit
                Samples.spriteVertices Samples.simParams Samples.seed) as (_ & H).
    destruct H as (app & Hs & _ & _ & _ & Hr & Hp & _); [simpl; lia|].
    exists app. split; [exact Hs|]. split; [exact Hr|exact Hp].
  - destruct (start_fails_only_on_data_that_does_not_fit
                Samples.spriteVertices (repeat 1 8) Samples.seed) as (_ & H).
    destruct H as (app & Hs & _ & _ & _ & _ & Hp & _); [simpl; lia|].
    exists app. split; [exact Hs|exact Hp].
Defined.

(** ** The loops without a guard *)

Lemma mod2_succ (n : N) : (n + 1) mod 2 = 1 - n mod 2.
Proof.
  rewrite <- N.Div0.add_mod_idemp_l.
  destruct (parity_cases n) as [-> | ->]; reflexivity.
Qed.

Lemma hardcode_setup_inv sv sp seed h page h' :
  HardcodeLoop.setup sv sp seed h = Ok (page, h') ->
  exists (simParam b0 : positive),
    HardcodeLoop.particleBuffers page = [b0; Pos.succ b0]
    /\ HardcodeLoop.bindGroups page
       = HardcodeLoop.particleBindGroups simParam [b0; Pos.succ b0]
    /\ HardcodeLoop.t page = 0 /\ HardcodeLoop.queue page = []
    /\ HardcodeLoop.pending page = true.
Proof.
  unfold HardcodeLoop.setup. intros H.
  apply GPU_bind_inv in H as (s & h1 & _ & H).
  apply GPU_bind_inv in H as (? & h2 & _ & H).
  apply GPU_bind_inv in H as (? & h3 & _ & H).
  apply GPU_bind_inv in H as (p & h4 & _ & H).
  apply GPU_bind_inv in H as (? & h5 & _ & H).
  apply GPU_bind_inv in H as (bs & h6 & Hb & H).
  rewrite BoidsHardcode_particleBuffers_spec in Hb. injection Hb as <- <-.
  injection H as <- <-. exists p, (fresh h5). auto.
Qed.

Lemma hardcode_resume_in_order p0 p throws :
  hardcode_in_order p0 p -> hardcode_in_order p0 (HardcodeLoop.resume p throws).
Proof.
  intros H. pose proof H as (Hb & Hg & Ht & Hq).
  unfold HardcodeLoop.resume, HardcodeLoop.frame.
  destruct (HardcodeLoop.pending p); [|exact H].
  destruct throws; [exact H|].
  unfold hardcode_in_order. cbn [HardcodeLoop.particleBuffers HardcodeLoop.bindGroups
                                 HardcodeLoop.t HardcodeLoop.queue].
  split; [exact Hb|]. split; [exact Hg|].
  split; [rewrite Ht, length_app; simpl; lia|].
  intros n cmd Hn.
  destruct (decide (n < length (HardcodeLoop.queue p))%nat) as [Hlt|Hge].
  - rewrite lookup_app_l in Hn by exact Hlt. auto.
  - rewrite lookup_app_r in Hn by lia.
    destruct (n - length (HardcodeLoop.queue p))%nat as [|k] eqn:Ek; [|discriminate].
    injection Hn as <-. assert (n = length (HardcodeLoop.queue p)) as -> by lia.
    unfold HardcodeLoop.encode; simpl. rewrite Ht, Hb, Hg. auto.
Qed.

Lemma hardcode_run_cons f faults p :
  HardcodeLoop.run (f :: faults) p = HardcodeLoop.run faults (HardcodeLoop.resume p f).
Proof. reflexivity. Qed.

Lemma hardcode_run_in_order faults p0 p :
  hardcode_in_order p0 p -> hardcode_in_order p0 (HardcodeLoop.run faults p).
Proof.
  revert p. induction faults as [|f faults IH]; intros p H; [exact H|].
  rewrite hardcode_run_cons. apply IH, hardcode_resume_in_order, H.
Qed.

Lemma hardcode_run_dead faults p :
  HardcodeLoop.pending p = false -> HardcodeLoop.run faults p = p.
Proof.
  intros H. induction faults as [|f faults IH]; [reflexivity|].
  rewrite hardcode_run_cons. unfold HardcodeLoop.resume. rewrite H. exact IH.
Qed.

Lemma hardcode_run_count faults p :
  HardcodeLoop.pending p = true ->
  length (HardcodeLoop.queue (HardcodeLoop.run faults p))
  = (length (HardcodeLoop.queue p) + frames_before_fault faults)%nat
  /\ HardcodeLoop.pending (HardcodeLoop.run faults p) = forallb negb faults.
Proof.
  revert p. induction faults as [|f faults IH]; intros p H.
  - simpl. split; [lia|exact H].
  - rewrite hardcode_run_cons. unfold HardcodeLoop.resume. rewrite H. destruct f.
    + rewrite hardcode_run_dead by reflexivity. simpl. split; [lia|reflexivity].
    + destruct (IH (HardcodeLoop.frame false p) eq_refl) as [Hl Hp].
      rewrite Hl, Hp. simpl. rewrite length_app. simpl. split; [lia|reflexivity].
Qed.

(** X25. The hard-coded flocking demo keeps the same ping-pong discipline (the
    [n]-th command buffer submitted uses bind group [n mod 2], reads buffer
    [n mod 2], writes and draws from the other buffer), but its loop has no
    guard and no handler: it runs exactly until the first frame in which a
    device call throws; that frame is not submitted and no frame is ever
    requested again. *)
Theorem hardcoded_loop_runs_until_the_first_exception
    (vertexBufferData simParams seed : list N) (h h' : Heap) (page : HardcodeLoop.Page) :
  HardcodeLoop.setup vertexBufferData simParams seed h = Ok (page, h') ->
  exists b0 b1 : positive,
    HardcodeLoop.particleBuffers page = [b0; b1] /\ b0 <> b1
    /\ (forall faults (n : N) cmd,
          HardcodeLoop.queue (HardcodeLoop.run faults page) !! N.to_nat n = Some cmd ->
          exists bg,
            computeBindGroup cmd = Some bg
            /\ readView bg = [b0; b1] !! N.to_nat (n mod 2)
            /\ writeView bg = [b0; b1] !! N.to_nat ((n + 1) mod 2)
            /\ vertexBuffer0 cmd = writeView bg
            /\ readView bg <> writeView bg)
    /\ (forall faults,
          length (HardcodeLoop.queue (HardcodeLoop.run faults page))
          = frames_before_fault faults
          /\ HardcodeLoop.pending (HardcodeLoop.run faults page) = forallb negb faults).
Proof.
  intros Hsetup.
  destruct (hardcode_setup_inv _ _ _ _ _ _ Hsetup) as (simParam & b0 & Hb & Hg & Ht & Hq & Hp).
  exists b0, (Pos.succ b0). split; [exact Hb|]. split; [apply Pos.succ_discr|].
  split.
  - intros faults n cmd Hcmd.
    assert (Hinv : hardcode_in_order page (HardcodeLoop.run faults page)).
    { apply hardcode_run_in_order. unfold hardcode_in_order. rewrite Ht, Hq. simpl.
      repeat split; auto. all: rewrite lookup_nil in *; discriminate. }
    destruct Hinv as (_ & _ & _ & Hall).
    destruct (Hall _ _ Hcmd) as (Ec & Ev). rewrite N2Nat.id in Ec, Ev.
    rewrite Hg in Ec. rewrite Hb in Ev.
    assert (Hviews : forall p, p = 0 \/ p = 1 ->
              HardcodeLoop.particleBindGroups simParam [b0; Pos.succ b0] !! N.to_nat p
              = Some (HardcodeLoop.particleBindGroup simParam [b0; Pos.succ b0] p)
              /\ readView (HardcodeLoop.particleBindGroup simParam [b0; Pos.succ b0] p)
                 = [b0; Pos.succ b0] !! N.to_nat p
              /\ writeView (HardcodeLoop.particleBindGroup simParam [b0; Pos.succ b0] p)
                 = [b0; Pos.succ b0] !! N.to_nat ((p + 1) mod 2)).
    { intros p [-> | ->]; auto. }
    destruct (Hviews (n mod 2) (parity_cases n)) as (Eg & Er & Ew).
    rewrite N.Div0.add_mod_idemp_l in Ew.
    eexists. rewrite Ec. split; [exact Eg|]. split; [exact Er|]. split; [exact Ew|].
    split; [rewrite Ev, Ew; reflexivity|].
    rewrite Er, Ew, mod2_succ.
    pose proof (Pos.succ_discr b0).
    destruct (parity_cases n) as [-> | ->]; simpl; congruence.
  - intros faults. destruct (hardcode_run_count faults page Hp) as [Hl Hpend].
    rewrite Hl, Hq. simpl. auto.
Qed.

Lemma hardcoded_loop_witness :
  exists page h',
    HardcodeLoop.setup Samples.spriteVertices Samples.simParams Samples.seed empty_heap
    = Ok (page, h')
    /\ length (HardcodeLoop.queue (HardcodeLoop.run [false; false; true; false] page)) = 2%nat.
Proof.
  destruct (HardcodeLoop.setup Samples.spriteVertices Samples.simParams Samples.seed empty_heap)
    as [[page h']|] eqn:E; [|vm_compute in E; discriminate].
  exists page, h'. split; [reflexivity|].
  destruct (hardcoded_loop_runs_until_the_first_exception _ _ _ _ _ _ E)
    as (b0 & b1 & _ & _ & _ & Hcount).
  destruct (Hcount [false; false; true; false]) as [Hl _]. exact Hl.
Defined.

Lemma life_index_parity {A} (l : list A) (n : N) :
  LifeLoop.index l (Z.rem (Z.of_N (n mod 2)) 2) = l !! N.to_nat (n mod 2).
Proof. destruct (parity_cases n) as [-> | ->]; reflexivity. Qed.

Lemma life_run_cons f faults p :
  LifeLoop.run (f :: faults) p = LifeLoop.run faults (LifeLoop.resume p f).
Proof. reflexivity. Qed.

Lemma life_resume_in_order p0 p throws :
  life_in_order p0 p -> life_in_order p0 (LifeLoop.resume p throws).
Proof.
  intros H. pose proof H as (Hb & Hg & Ht & Hq).
  unfold LifeLoop.resume, LifeLoop.frame.
  destruct (LifeLoop.pending p); [|exact H].
  destruct throws; [exact H|].
  unfold life_in_order. cbn [LifeLoop.cellBuffers LifeLoop.groups LifeLoop.step LifeLoop.queue].
  split; [exact Hb|]. split; [exact Hg|].
  split.
  - rewrite Ht, length_app. cbn [length].
    replace (N.of_nat (length (LifeLoop.queue p) + 1))
      with (N.of_nat (length (LifeLoop.queue p)) + 1) by lia.
    rewrite mod2_succ.
    destruct (parity_cases (N.of_nat (length (LifeLoop.queue p)))) as [-> | ->]; reflexivity.
  - intros n cmd Hn.
    destruct (decide (n < length (LifeLoop.queue p))%nat) as [Hlt|Hge].
    + rewrite lookup_app_l in Hn by exact Hlt. auto.
    + rewrite lookup_app_r in Hn by lia.
      destruct (n - length (LifeLoop.queue p))%nat as [|k] eqn:Ek; [|discriminate].
      injection Hn as <-. assert (n = length (LifeLoop.queue p)) as -> by lia.
      unfold LifeLoop.encode. cbn [LifeLoop.bindGroup LifeLoop.cellVertexBuffer].
      rewrite Ht, !life_index_parity, Hb, Hg. auto.
Qed.

Lemma life_run_in_order faults p0 p :
  life_in_order p0 p -> life_in_order p0 (LifeLoop.run faults p).
Proof.
  revert p. induction faults as [|f faults IH]; intros p H; [exact H|].
  rewrite life_run_cons. apply IH, life_resume_in_order, H.
Qed.

Lemma life_run_dead faults p :
  LifeLoop.pending p = false -> LifeLoop.run faults p = p.
Proof.
  intros H. induction faults as [|f faults IH]; [reflexivity|].
  rewrite life_run_cons. unfold LifeLoop.resume. rewrite H. exact IH.
Qed.

Lemma life_run_count faults p :
  LifeLoop.pending p = true ->
  length (LifeLoop.queue (LifeLoop.run faults p))
  = (length (LifeLoop.queue p) + frames_before_fault faults)%nat
  /\ LifeLoop.pending (LifeLoop.run faults p) = forallb negb faults.
Proof.
  revert p. induction faults as [|f faults IH]; intros p H.
  - simpl. split; [lia|exact H].
  - rewrite life_run_cons. unfold LifeLoop.resume. rewrite H. destruct f.
    + rewrite life_run_dead by reflexivity. simpl. split; [lia|reflexivity].
    + destruct (IH (LifeLoop.frame false p) eq_refl) as [Hl Hp].
      rewrite Hl, Hp. simpl. rewrite length_app. simpl. split; [lia|reflexivity].
Qed.

(** Lookups at handles numbered from the first free one. *)
Ltac lookup_fresh :=
  repeat first
    [ rewrite lookup_insert_eq | rewrite lookup_alter_eq
    | rewrite lookup_insert_ne by lia
    | rewrite lookup_alter_ne by lia ].

Lemma writeBuffer_fits buf data h b :
  Gpu.buffers h !! buf = Some b ->
  writable b data = true ->
  writeBuffer buf data h
  = Ok ((), {| fresh := fresh h;
               Gpu.buffers :=
                 <[buf := {| size := size b; usage := usage b; mapped := mapped b;
                             destroyed := destroyed b;
                             contents := data ++ drop (length data) (contents b) |}]>
                   (Gpu.buffers h) |}).
Proof.
  intros Hb Hw. rewrite (writeBuffer_spec _ _ _ _ Hb), Hw. reflexivity.
Qed.

(** The set-up of the cellular-automaton demo cannot fail in the buffer
    model, and the buffers it creates after the cell state leave the cell
    state alone. *)
Lemma life_setup_spec cellData squareVertices h :
  exists sizeBuffer square h',
    LifeLoop.setup cellData squareVertices h
    = Ok ({| LifeLoop.step := 0;
             LifeLoop.cellBuffers := [fresh h; Pos.succ (fresh h)];
             LifeLoop.groups := LifeLoop.bindGroups sizeBuffer [fresh h; Pos.succ (fresh h)];
             LifeLoop.squareBuffer := square;
             LifeLoop.pending := true;
             LifeLoop.queue := [] |}, h')
    /\ read h' (fresh h) = Some cellData
    /\ read h' (Pos.succ (fresh h)) = Some (repeat 0 (length cellData)).
Proof.
  unfold LifeLoop.setup.
  erewrite GPU_bind_ok by apply GameOfLife_cellBuffers_spec.
  erewrite GPU_bind_ok by apply createBuffer_unmapped.
  erewrite GPU_bind_ok.
  2:{ eapply writeBuffer_fits; [unfold allocated at 1; cbn [Gpu.buffers fresh];
                                apply lookup_insert_eq|reflexivity]. }
  erewrite GPU_bind_ok by exact (createBuffer_mapped 2 _ _).
  erewrite GPU_bind_ok.
  2:{ eapply setMappedRange_ok; [unfold allocated at 1; cbn [Gpu.buffers fresh];
                                 apply lookup_insert_eq|reflexivity|simpl; lia]. }
  erewrite GPU_bind_ok by reflexivity.
  erewrite GPU_bind_ok by apply createBuffer_mapped.
  erewrite GPU_bind_ok.
  2:{ eapply setMappedRange_ok; [unfold allocated at 1; cbn [Gpu.buffers fresh];
                                 apply lookup_insert_eq|reflexivity|].
      rewrite zeroed_contents, repeat_length. lia. }
  erewrite GPU_bind_ok by reflexivity.
  eexists _, _, _. split; [reflexivity|].
  unfold read, allocated. cbn [Gpu.buffers fresh].
  split; lookup_fresh; reflexivity.
Qed.

(** X26. The cellular-automaton demo.  Its set-up always succeeds and leaves the
    seed in cell buffer 0 and zeros in cell buffer 1.  Its loop has no guard
    and no handler: it runs until the first frame in which a device call
    throws.  [step] only takes the values 0 and 1; the [n]-th command
    buffer submitted binds cell buffer [n mod 2] at binding 1 and the other
    cell buffer at binding 2, and its render pass draws from the buffer at
    binding 1 (the flocking demo draws from the one at binding 2). *)
Theorem life_loop_alternates_and_draws_binding_1 (cellData squareVertices : list N) (h : Heap) :
  exists page h' (b0 b1 : positive),
    LifeLoop.setup cellData squareVertices h = Ok (page, h')
    /\ LifeLoop.cellBuffers page = [b0; b1] /\ b0 <> b1
    /\ read h' b0 = Some cellData
    /\ read h' b1 = Some (repeat 0 (length cellData))
    /\ (forall faults (n : N) cmd,
          LifeLoop.queue (LifeLoop.run faults page) !! N.to_nat n = Some cmd ->
          exists bg,
            LifeLoop.bindGroup cmd = Some bg
            /\ bound (entries bg) 1 = [b0; b1] !! N.to_nat (n mod 2)
            /\ bound (entries bg) 2 = [b0; b1] !! N.to_nat ((n + 1) mod 2)
            /\ LifeLoop.cellVertexBuffer cmd = bound (entries bg) 1)
    /\ (forall faults,
          (LifeLoop.step (LifeLoop.run faults page) = 0%Z
           \/ LifeLoop.step (LifeLoop.run faults page) = 1%Z)
          /\ length (LifeLoop.queue (LifeLoop.run faults page)) = frames_before_fault faults
          /\ LifeLoop.pending (LifeLoop.run faults page) = forallb negb faults).
Proof.
  destruct (life_setup_spec cellData squareVertices h) as (sz & sq & h' & E & R0 & R1).
  eexists _, h', (fresh h), (Pos.succ (fresh h)). split; [exact E|].
  split; [reflexivity|]. split; [apply Pos.succ_discr|].
  split; [exact R0|]. split; [exact R1|].
  set (page := {| LifeLoop.step := 0 |}).
  assert (Hinv : forall faults, life_in_order page (LifeLoop.run faults page)).
  { intros faults. apply life_run_in_order. unfold life_in_order. simpl.
    repeat split; auto. all: rewrite lookup_nil in *; discriminate. }
  split.
  - intros faults n cmd Hcmd.
    destruct (Hinv faults) as (_ & _ & _ & Hall).
    destruct (Hall _ _ Hcmd) as (Ec & Ev). rewrite N2Nat.id in Ec, Ev.
    subst page. cbn [LifeLoop.groups LifeLoop.cellBuffers] in Ec, Ev.
    rewrite Ec, Ev, mod2_succ.
    destruct (parity_cases n) as [-> | ->]; eexists; (split; [reflexivity|]); auto.
  - intros faults. destruct (Hinv faults) as (_ & _ & Hs & _).
    destruct (life_run_count faults page eq_refl) as [Hl Hp].
    split.
    + rewrite Hs.
      destruct (parity_cases (N.of_nat (length (LifeLoop.queue (LifeLoop.run faults page)))))
        as [-> | ->]; auto.
    + rewrite Hl, Hp. auto.
Qed.
